(** * PackageManagerShellCommandDataLoader: a shallow embedding

    The native data loader feeds an incremental filesystem (IncFS) with the
    blocks of the files of a package installation.  This development embeds
    the wire codec, the verity-tree sizing, the FileId codec, the block
    assembler, the prepare-image driver and the receiver loop of
    [src/unnamed/part_000] and proves properties of them.

    Conventions.  Machine integers are [Z] with the conversions written
    out; bytes are [Byte.byte]; calls that leave the program (system calls,
    JNI, libbase, the IncFS connector) are answered by an environment that
    sees the whole history of earlier calls, so every behaviour of the
    outside world is covered by some environment. *)

From Stdlib Require Import ZArith List Lia Bool.
From Stdlib.Strings Require Import Byte.
From stdpp Require Import base option list gmap.
Import ListNotations.

Local Open Scope Z_scope.

(** ** Machine integers *)

Module MachineInt.

(** Conversion to an unsigned integer of [w] bits. *)
Definition to_unsigned (w z : Z) : Z := z mod 2 ^ w.

(** Conversion to a two's complement integer of [w] bits. *)
Definition to_signed (w z : Z) : Z := (z + 2 ^ (w - 1)) mod 2 ^ w - 2 ^ (w - 1).

Definition int8 : Z -> Z := to_signed 8.
Definition int16 : Z -> Z := to_signed 16.
Definition int32 : Z -> Z := to_signed 32.
Definition int64 : Z -> Z := to_signed 64.
Definition uint8 : Z -> Z := to_unsigned 8.
Definition uint16 : Z -> Z := to_unsigned 16.
Definition uint32 : Z -> Z := to_unsigned 32.
Definition uint64 : Z -> Z := to_unsigned 64.

Definition INT16_MIN : Z := -32768.
Definition INT16_MAX : Z := 32767.
Definition INT32_MIN : Z := -2147483648.
Definition INT32_MAX : Z := 2147483647.
Definition INT64_MAX : Z := 9223372036854775807.

Definition in_int16 (z : Z) : Prop := INT16_MIN <= z <= INT16_MAX.
Definition in_int32 (z : Z) : Prop := INT32_MIN <= z <= INT32_MAX.

(** Byte swaps of <endian.h>. *)
Definition bswap16 (x : Z) : Z :=
  Z.lor (Z.shiftl (Z.land x 255) 8) (Z.land (Z.shiftr x 8) 255).

Definition bswap32 (x : Z) : Z :=
  Z.lor (Z.lor (Z.shiftl (Z.land x 255) 24)
               (Z.shiftl (Z.land (Z.shiftr x 8) 255) 16))
        (Z.lor (Z.shiftl (Z.land (Z.shiftr x 16) 255) 8)
               (Z.land (Z.shiftr x 24) 255)).

End MachineInt.
Import MachineInt.

(** ** Bytes and memory images *)

#[global] Instance byte_eq_dec : EqDecision byte.
Proof.
  intros a b. destruct (Byte.eqb a b) eqn:E.
  - left. now apply Byte.byte_dec_bl.
  - right. intros ->. now rewrite (Byte.byte_dec_lb eq_refl) in E.
Defined.

Definition byte_to_Z (b : byte) : Z := Z.of_N (Byte.to_N b).

Definition byte_of_Z (z : Z) : byte :=
  match Byte.of_N (Z.to_N (z mod 256)) with
  | Some b => b
  | None => x00
  end.

(** The byte order of the machine the loader runs on. *)
Inductive Endian := LittleEndian | BigEndian.

(** The [w/8] bytes of the low [w] bits of [z], least significant first. *)
Fixpoint le_bytes (n : nat) (z : Z) : list byte :=
  match n with
  | O => []
  | S n' => byte_of_Z z :: le_bytes n' (Z.shiftr z 8)
  end.

Fixpoint le_value (bs : list byte) : Z :=
  match bs with
  | [] => 0
  | b :: bs' => byte_to_Z b + 256 * le_value bs'
  end.

(** The image in memory of a [w]-bit integer, in the byte order of the host. *)
Definition store (host : Endian) (n : nat) (z : Z) : list byte :=
  match host with
  | LittleEndian => le_bytes n z
  | BigEndian => rev (le_bytes n z)
  end.

(** The unsigned integer whose image in memory is [bs]. *)
Definition load (host : Endian) (bs : list byte) : Z :=
  match host with
  | LittleEndian => le_value bs
  | BigEndian => le_value (rev bs)
  end.

(** <endian.h>: big-endian (resp. little-endian) to host order. *)
Definition be16toh (host : Endian) (x : Z) : Z :=
  match host with LittleEndian => bswap16 x | BigEndian => x end.

Definition be32toh (host : Endian) (x : Z) : Z :=
  match host with LittleEndian => bswap32 x | BigEndian => x end.

Definition le32toh (host : Endian) (x : Z) : Z :=
  match host with LittleEndian => x | BigEndian => bswap32 x end.

(** [std::vector::resize]: truncate, or pad with value-initialised chars. *)
Definition resize (v : list byte) (n : Z) : list byte :=
  take (Z.to_nat n) v ++ replicate (Z.to_nat n - length v)%nat x00.

(** Overwrite [v] from offset [off] with [bs] (a read into [v.data() + off]). *)
Definition write_at (v : list byte) (off : Z) (bs : list byte) : list byte :=
  take (Z.to_nat off) v ++ bs ++ drop (Z.to_nat off + length bs)%nat v.

(** The [len] bytes of [v] from offset [off] on. *)
Definition slice (v : list byte) (off len : Z) : list byte :=
  take (Z.to_nat len) (drop (Z.to_nat off) v).

(** [std::string::c_str] as seen by a reader of C strings. *)
Fixpoint c_str (s : list byte) : list byte :=
  match s with
  | [] => []
  | b :: s' => if Byte.eqb b x00 then [] else b :: c_str s'
  end.

(** ** Constants and types of the loader *)

Definition BUFFER_SIZE : Z := 256 * 1024.
Definition COMMAND_SIZE : Z := 4 + 2 + 2 + 4.
Definition HEADER_SIZE : Z := 2 + 1 + 1 + 4 + 2.
Definition OKAY : list byte := [x4f; x4b; x41; x59].
Definition INCR : Z := 0x52434e49.
Definition PollTimeoutMs : Z := 5000.
Definition POLLIN : Z := 1.  (* <poll.h> *)

Definition EXIT : Z := 0.
Definition BLOCK_MISSING : Z := 1.
Definition PREFETCH : Z := 2.

(** Modelled from the spec: [BlockKind] is the enumeration {DATA, HASH} and
    [Compression] is {NONE, ...}, numbered from 0 (a header with blockType 0
    and compression 0 is written as a DATA block, uncompressed); the IncFS
    headers that declare the enumerators are not part of the sources. *)
Definition INCFS_BLOCK_KIND_DATA : Z := 0.
Definition INCFS_BLOCK_KIND_HASH : Z := 1.
Definition INCFS_COMPRESSION_KIND_NONE : Z := 0.

(** The one status the loader reports. *)
Inductive DataLoaderStatus := DATA_LOADER_UNRECOVERABLE.

Record BlockHeader := {
  bh_fileIdx : Z;          (* FileIdx = int16_t *)
  bh_blockType : Z;        (* BlockType = int8_t *)
  bh_compressionType : Z;  (* CompressionType = int8_t *)
  bh_blockIdx : Z;         (* BlockIdx = int32_t *)
  bh_blockSize : Z         (* BlockSize = int16_t *)
}.

(** The default member initialisers of [BlockHeader]. *)
Definition BlockHeader_default : BlockHeader :=
  {| bh_fileIdx := -1; bh_blockType := -1; bh_compressionType := -1;
     bh_blockIdx := -1; bh_blockSize := -1 |}.

Record RequestCommand := {
  rc_magic : Z;        (* MagicType = uint32_t *)
  rc_requestType : Z;  (* RequestType = int16_t *)
  rc_fileIdx : Z;      (* FileIdx = int16_t *)
  rc_blockIdx : Z      (* BlockIdx = int32_t *)
}.

Inductive MetadataMode := STDIN | LOCAL_FILE | DATA_ONLY_STREAMING | STREAMING.

Definition MetadataMode_value (m : MetadataMode) : Z :=
  match m with
  | STDIN => 0
  | LOCAL_FILE => 1
  | DATA_ONLY_STREAMING => 2
  | STREAMING => 3
  end.

(** [IncFsFileId]: 16 raw bytes. *)
Definition FileId := list byte.
Definition FileId_size : nat := 16.
Definition FileId_zero : FileId := replicate FileId_size x00.

Record IncFsDataBlock := {
  fileFd : Z;
  pageIndex : Z;      (* IncFsBlockIndex = int32_t *)
  compression : Z;
  kind : Z;
  dataSize : Z;
  data : list byte    (* the bytes [data] points to *)
}.

Record InputDesc := {
  in_fd : Z;
  in_size : Z;        (* IncFsSize = int64_t *)
  in_kind : Z;
  in_waitOnEof : bool;
  in_streaming : bool;
  in_mode : MetadataMode
}.

(** One element of [DataLoaderInstallationFiles]. *)
Record InstallationFile := {
  file_name : list byte;
  file_size : Z;
  file_metadata : list byte
}.

(** ** The wire codec: pure part *)

Section Codec.
Variable host : Endian.

(** The object representation of the packed struct [RequestCommand]. *)
Definition RequestCommand_image (c : RequestCommand) : list byte :=
  store host 4 (rc_magic c) ++ store host 2 (rc_requestType c)
    ++ store host 2 (rc_fileIdx c) ++ store host 4 (rc_blockIdx c).

(** The initialiser of [command] in [sendRequest]. *)
Definition sendRequest_command (requestType fileIdx blockIdx : Z) : RequestCommand :=
  {| rc_magic := INCR;
     rc_requestType := int16 (be16toh host (uint16 requestType));
     rc_fileIdx := int16 (be16toh host (uint16 fileIdx));
     rc_blockIdx := int32 (be32toh host (uint32 blockIdx)) |}.

Definition readHeader (data : list byte) : BlockHeader * list byte :=
  let header := BlockHeader_default in
  if Z.of_nat (length data) <? HEADER_SIZE then (header, data)
  else
    ({| bh_fileIdx := int16 (be16toh host (load host (slice data 0 2)));
        bh_blockType := int8 (load host (slice data 2 1));
        bh_compressionType := int8 (load host (slice data 3 1));
        bh_blockIdx := int32 (be32toh host (load host (slice data 4 4)));
        bh_blockSize := int16 (be16toh host (load host (slice data 8 2))) |},
     drop (Z.to_nat HEADER_SIZE) data).

End Codec.

(** The sentinel test of the receiver, on the decoded fields. *)
Definition is_sentinel (header : BlockHeader) : bool :=
  (bh_fileIdx header =? -1) && (bh_blockType header =? 0)
    && (bh_compressionType header =? 0) && (bh_blockIdx header =? 0)
    && (bh_blockSize header =? 0).

(** The validity test of the receiver. *)
Definition is_invalid (header : BlockHeader) : bool :=
  (bh_fileIdx header <? 0) || (bh_blockSize header <=? 0)
    || (bh_blockType header <? 0) || (bh_compressionType header <? 0)
    || (bh_blockIdx header <? 0).

(** ** The FileId codec *)

(** [std::to_chars] and [std::from_chars] for base 10, after the C++
    standard; [errc_ok] stands for [std::errc{}]. *)
Inductive errc := errc_ok | invalid_argument | result_out_of_range | value_too_large.

(** [ec == std::errc()]. *)
Definition errc_is_ok (ec : errc) : bool :=
  match ec with errc_ok => true | _ => false end.

Definition minus_sign : byte := x2d.

Definition digit_char (d : Z) : byte := byte_of_Z (48 + d).

Definition is_digit (b : byte) : bool :=
  (48 <=? byte_to_Z b) && (byte_to_Z b <=? 57).

(** The decimal digits of [n >= 0], most significant first, before [acc]. *)
Fixpoint decimal_digits (fuel : nat) (n : Z) (acc : list byte) : list byte :=
  match fuel with
  | O => acc
  | S fuel' =>
      let acc' := digit_char (n mod 10) :: acc in
      if n <? 10 then acc' else decimal_digits fuel' (n / 10) acc'
  end.

Definition decimal_text (value : Z) : list byte :=
  if value <? 0
  then minus_sign :: decimal_digits (S (Z.to_nat (Z.log2 (- value)))) (- value) []
  else decimal_digits (S (Z.to_nat (Z.log2 value))) value [].

(** [to_chars(first, first + room, value)]: the text written, or
    [value_too_large] when it does not fit. *)
Definition to_chars (room : nat) (value : Z) : errc * list byte :=
  let text := decimal_text value in
  if (length text <=? room)%nat then (errc_ok, text) else (value_too_large, []).

(** The value of the longest prefix of digits of [s], continuing [acc]. *)
Fixpoint digits_value (s : list byte) (acc : Z) : Z :=
  match s with
  | b :: s' => if is_digit b then digits_value s' (10 * acc + (byte_to_Z b - 48)) else acc
  | [] => acc
  end.

(** [from_chars(first, last, value)] for [int value]: the error code and,
    when it is [errc_ok], the value stored. *)
Definition from_chars (s : list byte) : errc * Z :=
  let '(negative, body) :=
    match s with
    | b :: s' => if Byte.eqb b minus_sign then (true, s') else (false, s)
    | [] => (false, s)
    end in
  match body with
  | b :: _ =>
      if is_digit b then
        let magnitude := digits_value body 0 in
        let value := if negative then - magnitude else magnitude in
        if (INT32_MIN <=? value) && (value <=? INT32_MAX)
        then (errc_ok, value)
        else (result_out_of_range, 0)
      else (invalid_argument, 0)
  | [] => (invalid_argument, 0)
  end.

Definition convertFileIdToFileIndex (fileId : FileId) : Z :=
  (* FileId has format '\2FileIdx'. *)
  let meta := fileId in
  let mode := int8 (byte_to_Z (hd x00 meta)) in
  if negb (mode =? MetadataMode_value DATA_ONLY_STREAMING)
     && negb (mode =? MetadataMode_value STREAMING)
  then -1
  else
    let '(ec, fileIdx) := from_chars (slice meta 1 (Z.of_nat FileId_size - 1)) in
    if negb (errc_is_ok ec) || (fileIdx <? INT16_MIN) || (INT16_MAX <? fileIdx)
    then -1
    else int16 fileIdx.

Definition convertFileIndexToFileId (mode : MetadataMode) (fileIdx : Z) : FileId :=
  let fileId := FileId_zero in
  let meta := write_at fileId 0 [byte_of_Z (MetadataMode_value mode)] in
  let '(ec, text) := to_chars (FileId_size - 1) fileIdx in
  if negb (errc_is_ok ec)
  then FileId_zero
  else write_at meta 1 text.

(** ** Verity tree sizing *)

Section VerityTree.
(** [INCFS_DATA_FILE_BLOCK_SIZE], a constant of the IncFS headers. *)
Variable INCFS_DATA_FILE_BLOCK_SIZE : Z.

Definition SHA256_DIGEST_SIZE : Z := 32.
Definition digest_size : Z := SHA256_DIGEST_SIZE.
Definition hash_per_block : Z := INCFS_DATA_FILE_BLOCK_SIZE ÷ digest_size.

(** The loop of [verityTreeSizeForFile] on [IncFsSize = int64_t]; [None]
    when [fuel] iterations do not end it. *)
Fixpoint verity_levels (fuel : nat) (hash_block_count total_tree_block_count : Z)
  : option Z :=
  if 1 <? hash_block_count then
    match fuel with
    | O => None
    | S fuel' =>
        let hash_block_count' :=
          int64 (int64 (int64 (hash_block_count + hash_per_block) - 1) ÷ hash_per_block) in
        verity_levels fuel' hash_block_count'
          (int64 (total_tree_block_count + hash_block_count'))
    end
  else Some total_tree_block_count.

(** A 64-bit count reaches 1 in at most 64 divisions by 2 or more. *)
Definition verity_fuel : nat := 64.

Definition verityTreeSizeForFile (fileSize : Z) : option Z :=
  let total_tree_block_count := 0 in
  let block_count := int64 (1 + int64 (int64 (fileSize - 1) ÷ INCFS_DATA_FILE_BLOCK_SIZE)) in
  let hash_block_count := block_count in
  match verity_levels verity_fuel hash_block_count total_tree_block_count with
  | Some total => Some (int64 (total * INCFS_DATA_FILE_BLOCK_SIZE))
  | None => None
  end.

(** The sizing as the specification words it: [B 0 = ceil (S / block_size)],
    [B (i+1) = ceil (B i / (block_size / 32))], summed over the levels
    produced while [B i > 1]. *)
Definition ceil_div (a b : Z) : Z := - ((- a) / b).

(** [B i] from [B 0 = B0], each step [ceil (_ / b)]. *)
Fixpoint ceil_iter (b B0 : Z) (i : nat) : Z :=
  match i with
  | O => B0
  | S i' => ceil_div (ceil_iter b B0 i') b
  end.

(** [B 1 + ... + B k]. *)
Fixpoint sum_levels (b B0 : Z) (k : nat) : Z :=
  match k with
  | O => 0
  | S k' => sum_levels b B0 k' + ceil_iter b B0 k
  end.

Definition spec_B (fileSize : Z) (i : nat) : Z :=
  ceil_iter (INCFS_DATA_FILE_BLOCK_SIZE / 32)
    (ceil_div fileSize INCFS_DATA_FILE_BLOCK_SIZE) i.

Definition spec_tree_blocks (fileSize : Z) (k : nat) : Z :=
  sum_levels (INCFS_DATA_FILE_BLOCK_SIZE / 32)
    (ceil_div fileSize INCFS_DATA_FILE_BLOCK_SIZE) k.

End VerityTree.

(** ** The outside world *)

(** The result of one [::read]: [-1], or the bytes delivered ([[]] at EOF). *)
Inductive ReadResult := ReadFailed | ReadOk (bs : list byte).

(** The result of [poll] on the channel and the event descriptor. *)
Record PollResult := {
  poll_res : Z;
  poll_revents_fd : Z;
  poll_revents_event : Z
}.

(** The calls that leave the loader, each with its answer. *)
Inductive Event :=
| EvLookupShellCommand (args : list byte) (found : bool)
| EvGetStdIn (fd : Z)
| EvGetLocalFile (path : list byte) (fd : Z)
| EvRead (fd count : Z) (r : ReadResult)
| EvSleep (ms : Z)
| EvDup (fd newfd : Z)
| EvEventfd (fd : Z)
| EvPoll (fd event_fd : Z) (r : PollResult)
| EvReadFully (fd count : Z) (r : option (list byte))
| EvWriteFully (fd : Z) (bytes : list byte) (written : nat)
| EvOpenForSpecialOps (id : FileId) (fd : Z)
| EvWriteBlocks (blocks : list IncFsDataBlock) (res : Z)
| EvReportStatus (status : DataLoaderStatus)
| EvStartReceiver (inout : Z) (mode : MetadataMode)
| EvResetOutFd.

Definition History := list Event.

(** The environment answers a call from the history of the calls before it. *)
Record Env := {
  jni_lookupShellCommand : History -> list byte -> bool;
  jni_getStdIn : History -> Z;
  jni_getLocalFile : History -> list byte -> Z;
  sys_read : History -> Z -> Z -> ReadResult;
  sys_dup : History -> Z -> Z;
  sys_eventfd : History -> Z;
  sys_poll : History -> Z -> Z -> PollResult;
  base_ReadFully : History -> Z -> Z -> option (list byte);
  base_WriteFully : History -> Z -> list byte -> nat;
  ifs_openForSpecialOps : History -> FileId -> Z;
  ifs_writeBlocks : History -> list IncFsDataBlock -> Z;
  incfs_FileIdFromMetadata : list byte -> FileId;
  (** [android::incfs::isValidFileId], declared in the IncFS headers. *)
  incfs_isValidFileId : FileId -> bool;
  (** [onStop] on another thread has set [mStopReceiving]. *)
  stop_requested : History -> bool
}.

(** ** A monad of calls

    A computation reads the history so far and yields an outcome and the
    events it added.  [OutOfFuel] is a loop that has not ended within the
    iterations granted; [Fault] is undefined behaviour or an abort. *)

Inductive Outcome (A : Type) :=
| Ret (a : A)
| OutOfFuel
| Fault.
Arguments Ret {A} a.
Arguments OutOfFuel {A}.
Arguments Fault {A}.

Definition M (A : Type) : Type := History -> Outcome A * list Event.

Definition ret {A} (a : A) : M A := fun _ => (Ret a, []).

Definition bind {A B} (m : M A) (k : A -> M B) : M B :=
  fun h =>
    match m h with
    | (Ret a, e1) => let '(r, e2) := k a (h ++ e1) in (r, e1 ++ e2)
    | (OutOfFuel, e1) => (OutOfFuel, e1)
    | (Fault, e1) => (Fault, e1)
    end.

Definition out_of_fuel {A} : M A := fun _ => (OutOfFuel, []).
Definition fault {A} : M A := fun _ => (Fault, []).
Definition emit (e : Event) : M unit := fun _ => (Ret tt, [e]).

(** Ask the environment and record call and answer. *)
Definition call {A} (answer : History -> A) (event : A -> Event) : M A :=
  fun h => let a := answer h in (Ret a, [event a]).

(** Ask the environment without leaving a trace (a load of shared memory). *)
Definition peek {A} (answer : History -> A) : M A :=
  fun h => (Ret (answer h), []).

Declare Scope loader_scope.
Delimit Scope loader_scope with loader.
Notation "x <- m ;; k" := (bind m (fun x => k))
  (at level 20, m at level 99, k at level 200) : loader_scope.
Notation "' p <- m ;; k" := (bind m (fun x => match x with p => k end))
  (at level 20, p pattern, m at level 99, k at level 200) : loader_scope.
Notation "m ;; k" := (bind m (fun _ => k))
  (at level 100, k at level 200, right associativity) : loader_scope.
Local Open Scope loader_scope.

(** The blocks handed to [writeBlocks] in a run of events. *)
Definition submitted (evs : list Event) : list IncFsDataBlock :=
  concat (map (fun e => match e with EvWriteBlocks blocks _ => blocks | _ => [] end) evs).

(** The requests written in a run of events, each with its descriptor. *)
Definition requests (evs : list Event) : list (Z * list byte) :=
  concat (map (fun e => match e with
                        | EvWriteFully fd bytes _ => [(fd, bytes)]
                        | _ => []
                        end) evs).

Definition statuses (evs : list Event) : list DataLoaderStatus :=
  concat (map (fun e => match e with EvReportStatus s => [s] | _ => [] end) evs).

Definition opened (evs : list Event) : list FileId :=
  concat (map (fun e => match e with EvOpenForSpecialOps id _ => [id] | _ => [] end) evs).

(** ** The loader *)

Section Loader.
(** [INCFS_DATA_FILE_BLOCK_SIZE], a constant of the IncFS headers. *)
Variable INCFS_DATA_FILE_BLOCK_SIZE : Z.
Variable host : Endian.
Variable env : Env.

Definition BLOCKS_COUNT : Z := BUFFER_SIZE ÷ INCFS_DATA_FILE_BLOCK_SIZE.

(** *** Calls *)

(** [android::base::ReadFully]: all [count] bytes, or failure. *)
Definition ReadFully (fd count : Z) : M (option (list byte)) :=
  if count =? 0 then ret (Some [])
  else
    call (fun h => match base_ReadFully env h fd count with
                   | Some bs => if Z.of_nat (length bs) =? count then Some bs else None
                   | None => None
                   end)
         (EvReadFully fd count).

(** [android::base::WriteFully]: success when the descriptor took every
    byte.  The event records how many bytes it took. *)
Definition WriteFully (fd : Z) (bytes : list byte) : M bool :=
  written <- call (fun h => Nat.min (base_WriteFully env h fd bytes) (length bytes))
                  (EvWriteFully fd bytes);;
  ret (written =? length bytes)%nat.

(** [::read(fd, buf, count)]: at most [count] bytes. *)
Definition read (fd count : Z) : M ReadResult :=
  call (fun h => match sys_read env h fd count with
                 | ReadFailed => ReadFailed
                 | ReadOk bs => ReadOk (take (Z.to_nat count) bs)
                 end)
       (EvRead fd count).

Definition getLocalFile (path : list byte) : M Z :=
  call (fun h => jni_getLocalFile env h path) (EvGetLocalFile path).

Definition getStdIn : M Z :=
  call (fun h => jni_getStdIn env h) EvGetStdIn.

Definition openForSpecialOps (id : FileId) : M Z :=
  call (fun h => ifs_openForSpecialOps env h id) (EvOpenForSpecialOps id).

Definition writeBlocks (blocks : list IncFsDataBlock) : M Z :=
  call (fun h => ifs_writeBlocks env h blocks) (EvWriteBlocks blocks).

Definition dup (fd : Z) : M Z :=
  call (fun h => sys_dup env h fd) (EvDup fd).

(** [unique_fd::ok]. *)
Definition fd_ok (fd : Z) : bool := 0 <=? fd.

(** *** Wire codec *)

Definition sendRequest (fd requestType fileIdx blockIdx : Z) : M bool :=
  let command := sendRequest_command host requestType fileIdx blockIdx in
  WriteFully fd (RequestCommand_image host command).

Definition waitForDataOrSignal (fd event_fd : Z) : M Z :=
  pfds <- call (fun h => sys_poll env h fd event_fd) (EvPoll fd event_fd);;
  let res := poll_res pfds in
  if res <=? 0 then ret res
  else if poll_revents_event pfds =? POLLIN then ret event_fd
  else if poll_revents_fd pfds =? POLLIN then ret fd
  else ret (-1).

Definition readChunk (fd : Z) (data : list byte) : M (bool * list byte) :=
  r <- ReadFully fd 4;;
  match r with
  | None => ret (false, data)
  | Some raw =>
      let size := int32 (be32toh host (load host raw)) in
      if size <=? 0 then ret (false, data)
      else
        let data := resize data size in
        r <- ReadFully fd (Z.of_nat (length data));;
        match r with
        | None => ret (false, data)
        | Some bytes => ret (true, bytes)
        end
  end.

(** *** The .idsig preamble *)

(** When [ReadFully] fails, [result] is read uninitialised. *)
Definition readLEInt32 (fd : Z) : M Z :=
  r <- ReadFully fd 4;;
  match r with
  | None => fault
  | Some raw => ret (int32 (le32toh host (load host raw)))
  end.

(** A negative [size] makes the vector constructor throw. *)
Definition readBytes (fd : Z) : M (list byte) :=
  size <- readLEInt32 fd;;
  if size <? 0 then fault
  else
    r <- ReadFully fd size;;
    ret (match r with
         | Some bytes => bytes
         | None => replicate (Z.to_nat size) x00
         end).

Definition skipIdSigHeaders (fd : Z) : M Z :=
  readLEInt32 fd;;        (* version *)
  readBytes fd;;          (* hashingInfo *)
  readBytes fd;;          (* signingInfo *)
  readLEInt32 fd.         (* size of the verity tree *)

(** *** Input sources *)

(** [read<int8_t>(metadata)] on an [IncFsSpan]. *)
Definition read_int8 (metadata : list byte) : option Z * list byte :=
  match metadata with
  | [] => (None, metadata)
  | b :: rest => (Some (int8 (byte_to_Z b)), rest)
  end.

Definition idsig_suffix : list byte := [x2e; x69; x64; x73; x69; x67].

(** [verityTreeSizeForFile] as a computation: a loop that does not end
    is [OutOfFuel]. *)
Definition verityTreeSize (size : Z) : M Z :=
  match verityTreeSizeForFile INCFS_DATA_FILE_BLOCK_SIZE size with
  | Some treeSize => ret treeSize
  | None => out_of_fuel
  end.

Definition openLocalFile (size : Z) (filePath : list byte) : M (list InputDesc) :=
  let idsigPath := filePath ++ idsig_suffix in
  idsigFd <- getLocalFile (c_str idsigPath);;
  checked <-
    (if fd_ok idsigFd then
       treeSize <- verityTreeSize size;;
       actualTreeSize <- skipIdSigHeaders idsigFd;;
       if negb (treeSize =? actualTreeSize) then ret None
       else ret (Some [ {| in_fd := idsigFd; in_size := treeSize;
                           in_kind := INCFS_BLOCK_KIND_HASH; in_waitOnEof := false;
                           in_streaming := false; in_mode := STDIN |} ])
     else ret (Some []));;
  match checked with
  | None => ret []
  | Some result =>
      fileFd <- getLocalFile (c_str filePath);;
      if fd_ok fileFd then
        ret (result ++ [ {| in_fd := fileFd; in_size := size;
                            in_kind := INCFS_BLOCK_KIND_DATA; in_waitOnEof := false;
                            in_streaming := false; in_mode := STDIN |} ])
      else ret result
  end.

Definition openInputs (size : Z) (metadata : list byte) : M (list InputDesc) :=
  let '(first, metadata) := read_int8 metadata in
  let mode := default (MetadataMode_value STDIN) first in
  if mode =? MetadataMode_value LOCAL_FILE then
    (* local file and possibly signature *)
    openLocalFile size metadata
  else
    fd <- getStdIn;;
    if negb (fd_ok fd) then ret []
    else if mode =? MetadataMode_value STDIN then
      ret [ {| in_fd := fd; in_size := size; in_kind := INCFS_BLOCK_KIND_DATA;
               in_waitOnEof := true; in_streaming := false; in_mode := STDIN |} ]
    else if mode =? MetadataMode_value DATA_ONLY_STREAMING then
      (* verity tree from stdin, rest is streaming *)
      treeSize <- verityTreeSize size;;
      ret [ {| in_fd := fd; in_size := treeSize; in_kind := INCFS_BLOCK_KIND_HASH;
               in_waitOnEof := true; in_streaming := true;
               in_mode := DATA_ONLY_STREAMING |} ]
    else if mode =? MetadataMode_value STREAMING then
      ret [ {| in_fd := fd; in_size := 0; in_kind := INCFS_BLOCK_KIND_DATA;
               in_waitOnEof := false; in_streaming := true; in_mode := STREAMING |} ]
    else ret [].

(** *** The block assembler *)

Definition capacity : Z := BUFFER_SIZE.

(** The post-increment of [blockIdx], an [IncFsBlockIndex = int32_t]: the incremented
    index, or [None] where the increment overflows (undefined). *)
Definition next_blockIdx (blockIdx : Z) : option Z :=
  if blockIdx <? INT32_MAX then Some (blockIdx + 1) else None.

(** The [for] loop of [flashToIncFs], [n] iterations. *)
Fixpoint push_full_blocks (n : nat) (incfsFd kind blockIdx consumed : Z)
    (buffer : list byte) (blocks : list IncFsDataBlock)
  : option (Z * Z * list IncFsDataBlock) :=
  match n with
  | O => Some (blockIdx, consumed, blocks)
  | S n' =>
      match next_blockIdx blockIdx with
      | None => None
      | Some blockIdx' =>
          let inst := {| fileFd := incfsFd;
                         pageIndex := blockIdx;
                         compression := INCFS_COMPRESSION_KIND_NONE;
                         kind := kind;
                         dataSize := INCFS_DATA_FILE_BLOCK_SIZE;
                         data := slice buffer consumed INCFS_DATA_FILE_BLOCK_SIZE |} in
          push_full_blocks n' incfsFd kind blockIdx'
            (consumed + INCFS_DATA_FILE_BLOCK_SIZE) buffer (blocks ++ [inst])
      end
  end.

(** The state the assembler threads: [blockIdx], [buffer] and [blocks]. *)
Definition Assembler : Type := Z * list byte * list IncFsDataBlock.

Definition flashToIncFs (incfsFd kind : Z) (eof : bool) (blockIdx : Z)
    (buffer : list byte) (blocks : list IncFsDataBlock) : M (bool * Assembler) :=
  let consumed := 0 in
  let size := Z.of_nat (length buffer) in
  let fullBlocks := size / INCFS_DATA_FILE_BLOCK_SIZE in
  match push_full_blocks (Z.to_nat fullBlocks) incfsFd kind blockIdx consumed buffer blocks with
  | None => fault
  | Some (blockIdx, consumed, blocks) =>
      let remain := uint64 (size - fullBlocks * INCFS_DATA_FILE_BLOCK_SIZE) in
      '(blockIdx, consumed, blocks) <-
        (if negb (remain =? 0) && eof then
           match next_blockIdx blockIdx with
           | None => fault
           | Some blockIdx' =>
               let inst := {| fileFd := incfsFd;
                              pageIndex := blockIdx;
                              compression := INCFS_COMPRESSION_KIND_NONE;
                              kind := kind;
                              dataSize := uint16 remain;
                              data := slice buffer consumed remain |} in
               ret (blockIdx', consumed + remain, blocks ++ [inst])
           end
         else ret (blockIdx, consumed, blocks));;
      res <- writeBlocks blocks;;
      let blocks := [] in
      let buffer := drop (Z.to_nat consumed) buffer in
      if res <? 0 then ret (false, (blockIdx, buffer, blocks))
      else ret (true, (blockIdx, buffer, blocks))
  end.

(** The [while (remaining > 0)] loop of [copyToIncFs].  The flag is
    [false] when the loop is left by [return false]. *)
Fixpoint copyToIncFs_loop (fuel : nat) (incfsFd kind incomingFd : Z) (waitOnEof : bool)
    (remaining totalSize blockIdx : Z) (buffer : list byte) (blocks : list IncFsDataBlock)
  : M (bool * Assembler) :=
  if 0 <? remaining then
    match fuel with
    | O => out_of_fuel
    | S fuel' =>
        let size := Z.of_nat (length buffer) in
        if uint64 (capacity - size) <? INCFS_DATA_FILE_BLOCK_SIZE then
          '(ok, (blockIdx, buffer, blocks)) <-
            flashToIncFs incfsFd kind false blockIdx buffer blocks;;
          if negb ok then ret (false, (blockIdx, buffer, blocks))
          else copyToIncFs_loop fuel' incfsFd kind incomingFd waitOnEof
                 remaining totalSize blockIdx buffer blocks
        else
          let toRead := Z.min remaining (int64 (uint64 (capacity - size))) in
          let buffer := resize buffer (size + toRead) in
          r <- read incomingFd toRead;;
          match r with
          | ReadFailed => ret (false, (blockIdx, buffer, blocks))
          | ReadOk bytes =>
              let buffer := write_at buffer size bytes in
              let read := Z.of_nat (length bytes) in
              if read =? 0 then
                if waitOnEof then
                  (* eof of stdin, waiting... *)
                  emit (EvSleep 10);;
                  copyToIncFs_loop fuel' incfsFd kind incomingFd waitOnEof
                    remaining totalSize blockIdx buffer blocks
                else ret (true, (blockIdx, buffer, blocks))
              else
                let buffer := resize buffer (size + read) in
                copyToIncFs_loop fuel' incfsFd kind incomingFd waitOnEof
                  (remaining - read) (totalSize + read) blockIdx buffer blocks
          end
    end
  else ret (true, (blockIdx, buffer, blocks)).

Definition copyToIncFs (fuel : nat) (incfsFd size kind incomingFd : Z) (waitOnEof : bool)
    (buffer : list byte) (blocks : list IncFsDataBlock)
  : M (bool * (list byte * list IncFsDataBlock)) :=
  let remaining := size in
  let totalSize := 0 in
  let blockIdx := 0 in
  '(ok, (blockIdx, buffer, blocks)) <-
    copyToIncFs_loop fuel incfsFd kind incomingFd waitOnEof
      remaining totalSize blockIdx buffer blocks;;
  if negb ok then ret (false, (buffer, blocks))
  else
    match buffer with
    | [] => ret (true, (buffer, blocks))
    | _ :: _ =>
        '(ok, (blockIdx, buffer, blocks)) <-
          flashToIncFs incfsFd kind true blockIdx buffer blocks;;
        ret (ok, (buffer, blocks))
    end.

(** *** Streaming start *)

Definition initStreaming (inout : Z) (mode : MetadataMode) : M bool :=
  mEventFd <- call (fun h => sys_eventfd env h) EvEventfd;;
  if mEventFd <? 0 then ret false
  else
    (* Awaiting adb handshake. *)
    r <- ReadFully inout (Z.of_nat (length OKAY));;
    match r with
    | None => ret false
    | Some okay_buf =>
        if negb (bool_decide (okay_buf = OKAY)) then ret false
        else
          dup inout;;
          emit (EvStartReceiver inout mode);;
          ret true
    end.

(** *** The prepare-image driver *)

(** What [onPrepareImage] keeps across files: [streamingFd],
    [streamingMode] (unset at first), [buffer] and [blocks]. *)
Definition Prepare : Type := Z * option MetadataMode * list byte * list IncFsDataBlock.

Fixpoint copy_inputs (fuel : nat) (incfsFd : Z) (inputs : list InputDesc)
    (streamingFd : Z) (streamingMode : option MetadataMode)
    (buffer : list byte) (blocks : list IncFsDataBlock) : M (bool * Prepare) :=
  match inputs with
  | [] => ret (true, (streamingFd, streamingMode, buffer, blocks))
  | input :: inputs' =>
      '(streamingFd, streamingMode) <-
        (if in_streaming input && negb (fd_ok streamingFd) then
           newfd <- dup (in_fd input);;
           ret (newfd, Some (in_mode input))
         else ret (streamingFd, streamingMode));;
      '(ok, (buffer, blocks)) <-
        copyToIncFs fuel incfsFd (in_size input) (in_kind input) (in_fd input)
          (in_waitOnEof input) buffer blocks;;
      if negb ok then ret (false, (streamingFd, streamingMode, buffer, blocks))
      else copy_inputs fuel incfsFd inputs' streamingFd streamingMode buffer blocks
  end.

Fixpoint prepare_files (fuel : nat) (addedFiles : list InstallationFile)
    (streamingFd : Z) (streamingMode : option MetadataMode)
    (buffer : list byte) (blocks : list IncFsDataBlock) : M (bool * Prepare) :=
  match addedFiles with
  | [] => ret (true, (streamingFd, streamingMode, buffer, blocks))
  | file :: addedFiles' =>
      inputs <- openInputs (file_size file) (file_metadata file);;
      match inputs with
      | [] => ret (false, (streamingFd, streamingMode, buffer, blocks))
      | _ :: _ =>
          let fileId := incfs_FileIdFromMetadata env (file_metadata file) in
          incfsFd <- openForSpecialOps fileId;;
          if incfsFd <? 0 then ret (false, (streamingFd, streamingMode, buffer, blocks))
          else
            '(ok, (streamingFd, streamingMode, buffer, blocks)) <-
              copy_inputs fuel incfsFd inputs streamingFd streamingMode buffer blocks;;
            if negb ok then ret (false, (streamingFd, streamingMode, buffer, blocks))
            else prepare_files fuel addedFiles' streamingFd streamingMode buffer blocks
      end
  end.

Definition onPrepareImage (fuel : nat) (mArgs : list byte)
    (addedFiles : list InstallationFile) : M bool :=
  shellCommand <- call (fun h => jni_lookupShellCommand env h (c_str mArgs))
                       (EvLookupShellCommand (c_str mArgs));;
  if negb shellCommand then ret false
  else
    '(ok, (streamingFd, streamingMode, _, _)) <-
      prepare_files fuel addedFiles (-1) None [] [];;
    if negb ok then ret false
    else if fd_ok streamingFd then
      match streamingMode with
      | Some mode => initStreaming streamingFd mode
      | None => fault
      end
    else ret true.

(** *** The receiver *)

(** The locals of [receiver] and the flag [mStopReceiving] as this
    thread has written it. *)
Record Receiver := {
  rs_data : list byte;
  rs_instructions : list IncFsDataBlock;
  rs_writeFds : gmap Z Z;
  rs_stop : bool
}.

Definition Receiver_init : Receiver :=
  {| rs_data := []; rs_instructions := []; rs_writeFds := ∅; rs_stop := false |}.

Definition set_stop (st : Receiver) : Receiver :=
  {| rs_data := rs_data st; rs_instructions := rs_instructions st;
     rs_writeFds := rs_writeFds st; rs_stop := true |}.

Definition set_data (data : list byte) (st : Receiver) : Receiver :=
  {| rs_data := data; rs_instructions := rs_instructions st;
     rs_writeFds := rs_writeFds st; rs_stop := rs_stop st |}.

Definition set_instructions (instructions : list IncFsDataBlock) (st : Receiver) : Receiver :=
  {| rs_data := rs_data st; rs_instructions := instructions;
     rs_writeFds := rs_writeFds st; rs_stop := rs_stop st |}.

Definition set_writeFd (fileIdx fd : Z) (st : Receiver) : Receiver :=
  {| rs_data := rs_data st; rs_instructions := rs_instructions st;
     rs_writeFds := <[fileIdx := fd]> (rs_writeFds st); rs_stop := rs_stop st |}.

Definition writeInstructions (instructions : list IncFsDataBlock)
  : M (list IncFsDataBlock) :=
  writeBlocks instructions;;
  ret [].

(** The walk over one chunk: [while (!remainingData.empty())]. *)
Fixpoint receiver_walk (fuel : nat) (inout : Z) (mode : MetadataMode)
    (st : Receiver) (remainingData : list byte) : M Receiver :=
  match remainingData with
  | [] => ret st
  | _ :: _ =>
      match fuel with
      | O => out_of_fuel
      | S fuel' =>
          let '(header, remainingData) := readHeader host remainingData in
          if is_sentinel header then
            sendRequest inout EXIT (-1) (-1);;
            ret (set_stop st)
          else if is_invalid header then
            ret (set_stop st)
          else
            let fileIdx := bh_fileIdx header in
            let fileId := convertFileIndexToFileId mode fileIdx in
            if negb (incfs_isValidFileId env fileId) then
              receiver_walk fuel' inout mode st remainingData
            else
              let writeFd := default (-1) (rs_writeFds st !! fileIdx) in
              writeFd <- (if writeFd <? 0 then openForSpecialOps fileId else ret writeFd);;
              let st := set_writeFd fileIdx writeFd st in
              if writeFd <? 0 then ret st
              else
                let inst := {| fileFd := writeFd;
                               pageIndex := int32 (bh_blockIdx header);
                               compression := bh_compressionType header;
                               kind := bh_blockType header;
                               dataSize := uint16 (bh_blockSize header);
                               data := slice remainingData 0 (bh_blockSize header) |} in
                let st := set_instructions (rs_instructions st ++ [inst]) st in
                (* subspan past the end is undefined *)
                if Z.of_nat (length remainingData) <? bh_blockSize header then fault
                else receiver_walk fuel' inout mode st
                       (drop (Z.to_nat (bh_blockSize header)) remainingData)
      end
  end.

(** From a chunk that has been read to the end of the iteration. *)
Definition receiver_chunk (inout : Z) (mode : MetadataMode) (st : Receiver)
    (remainingData : list byte) : M Receiver :=
  st <- receiver_walk (length remainingData) inout mode st remainingData;;
  instructions <- writeInstructions (rs_instructions st);;
  ret (set_instructions instructions st).

(** [while (!mStopReceiving)]. *)
Fixpoint receiver_loop (fuel : nat) (inout mEventFd : Z) (mode : MetadataMode)
    (st : Receiver) : M Receiver :=
  stopped <- peek (stop_requested env);;
  if rs_stop st || stopped then ret st
  else
    match fuel with
    | O => out_of_fuel
    | S fuel' =>
        res <- waitForDataOrSignal inout mEventFd;;
        if res =? 0 then receiver_loop fuel' inout mEventFd mode st
        else if res <? 0 then
          emit (EvReportStatus DATA_LOADER_UNRECOVERABLE);;
          ret st
        else if res =? mEventFd then
          sendRequest inout EXIT (-1) (-1);;
          ret st
        else
          '(ok, data) <- readChunk inout (rs_data st);;
          let st := set_data data st in
          if negb ok then
            emit (EvReportStatus DATA_LOADER_UNRECOVERABLE);;
            ret st
          else
            st <- receiver_chunk inout mode st data;;
            receiver_loop fuel' inout mEventFd mode st
    end.

(** What follows the loop: the last drain and the reset of [mOutFd]. *)
Definition receiver_exit (st : Receiver) : M unit :=
  writeInstructions (rs_instructions st);;
  emit EvResetOutFd.

Definition receiver (fuel : nat) (inout mEventFd : Z) (mode : MetadataMode) : M unit :=
  st <- receiver_loop fuel inout mEventFd mode Receiver_init;;
  receiver_exit st.

End Loader.

(** The rest of the receiver's run from a point in the walk over a chunk:
    the walk goes on with [remainingData], the iteration ends, the loop is
    re-entered and the receiver leaves. *)
Definition receiver_from_walk (host : Endian) (env : Env) (walk_fuel fuel : nat)
    (inout mEventFd : Z) (mode : MetadataMode) (st : Receiver)
    (remainingData : list byte) : M unit :=
  st <- receiver_walk host env walk_fuel inout mode st remainingData;;
  instructions <- writeInstructions env (rs_instructions st);;
  st <- receiver_loop host env fuel inout mEventFd mode (set_instructions instructions st);;
  receiver_exit env st.

(** ** Scripted environments

    An environment that answers the n-th call of a kind with the n-th
    entry of a script; used to run the loader on concrete inputs. *)

Definition count_calls (is_call : Event -> bool) (h : History) : nat :=
  length (List.filter is_call h).

Definition is_EvRead (e : Event) : bool :=
  match e with EvRead _ _ _ => true | _ => false end.
Definition is_EvReadFully (e : Event) : bool :=
  match e with EvReadFully _ _ _ => true | _ => false end.
Definition is_EvWriteBlocks (e : Event) : bool :=
  match e with EvWriteBlocks _ _ => true | _ => false end.

Definition data_ready : PollResult :=
  {| poll_res := 1; poll_revents_fd := POLLIN; poll_revents_event := 0 |}.

Definition script_env (localFiles : list byte -> Z) (reads : list ReadResult)
    (fully : list (option (list byte))) (writes : list Z) : Env :=
  {| jni_lookupShellCommand := fun _ _ => true;
     jni_getStdIn := fun _ => 3;
     jni_getLocalFile := fun _ path => localFiles path;
     sys_read := fun h _ _ => nth (count_calls is_EvRead h) reads (ReadOk []);
     sys_dup := fun _ fd => fd + 100;
     sys_eventfd := fun _ => 50;
     sys_poll := fun _ _ _ => data_ready;
     base_ReadFully := fun h _ _ => nth (count_calls is_EvReadFully h) fully None;
     base_WriteFully := fun _ _ bytes => length bytes;
     ifs_openForSpecialOps := fun _ _ => 7;
     ifs_writeBlocks :=
       fun h blocks => nth (count_calls is_EvWriteBlocks h) writes (Z.of_nat (length blocks));
     incfs_FileIdFromMetadata := fun metadata => take FileId_size metadata;
     incfs_isValidFileId := fun id => negb (bool_decide (id = FileId_zero));
     stop_requested := fun _ => false |}.

(** Concrete inputs. *)

(** A sidecar for a file of 8192 bytes: version 1, empty hashing and
    signing info, and a declared tree size of 99 (the tree has 4096). *)
Definition idsig_99 : list (option (list byte)) :=
  [Some [x01; x00; x00; x00]; Some [x00; x00; x00; x00];
   Some [x00; x00; x00; x00]; Some [x63; x00; x00; x00]].

Definition local_file_a : InstallationFile :=
  {| file_name := [x61]; file_size := 8192; file_metadata := [x01; x61] |}.

(** A stream of three bytes more than two blocks of 4096, read in two parts. *)
Definition two_blocks_and_three : list ReadResult :=
  [ReadOk (replicate 5000 x2a); ReadOk (replicate 3195 x2b)].

(** A chunk that is the sentinel alone, and one whose header has
    [fileIdx = -2]. *)
Definition sentinel_chunk : list byte :=
  [xff; xff; x00; x00; x00; x00; x00; x00; x00; x00].



(** ** Predicates of the statements *)

(** What ends a run of digits: the end of the input or a non-digit. *)
Definition ends_digits (rest : list byte) : Prop :=
  match rest with
  | [] => True
  | r :: _ => is_digit r = false
  end.

(** A block of the full size, and a short one. *)
Definition full_block (block_size : Z) (b : IncFsDataBlock) : Prop :=
  dataSize b = block_size.

Definition short_block (block_size : Z) (b : IncFsDataBlock) : Prop :=
  0 < dataSize b < block_size.

(** What a run of the assembler has submitted from [blockIdx] on. *)
Definition run_ok (blockIdx : Z) (r : Outcome (bool * Assembler)) (evs : list Event) : Prop :=
  pageIndex <$> submitted evs = seqZ blockIdx (Z.of_nat (length (submitted evs)))
  /\ (forall ok blockIdx' buffer' blocks',
        r = Ret (ok, (blockIdx', buffer', blocks')) ->
        blockIdx' = blockIdx + Z.of_nat (length (submitted evs)) /\ blocks' = []).

(** A run of events that only looks up local files and reads descriptors. *)
Definition only_reads (evs : list Event) : Prop :=
  Forall (fun e => match e with
                   | EvGetLocalFile _ _ | EvReadFully _ _ _ => True
                   | _ => False
                   end) evs.

(** ** What the assembler reads and writes *)

(** The bytes one call of [::read] adds to the buffer: the bytes
    delivered, or, when none is (end of input, or an error), the [count]
    value-initialised bytes of the [resize] before the call, which nothing
    takes away. *)
Definition read_contribution (e : Event) : list byte :=
  match e with
  | EvRead _ count ReadFailed => replicate (Z.to_nat count) x00
  | EvRead _ count (ReadOk bs) =>
      match bs with
      | [] => replicate (Z.to_nat count) x00
      | _ :: _ => bs
      end
  | _ => []
  end.

Definition bytes_in (evs : list Event) : list byte :=
  concat (map read_contribution evs).

(** The payloads of the blocks submitted, end to end. *)
Definition bytes_out (evs : list Event) : list byte :=
  concat (data <$> submitted evs).

(** The bytes the calls of [::read] delivered, end to end. *)
Definition bytes_delivered (evs : list Event) : list byte :=
  concat (map (fun e => match e with
                        | EvRead _ _ (ReadOk bs) => bs
                        | _ => []
                        end) evs).

(** Every call of [::read] in the run delivered at least one byte. *)
Definition every_read_delivers (evs : list Event) : Prop :=
  Forall (fun e => match e with
                   | EvRead _ _ ReadFailed | EvRead _ _ (ReadOk []) => False
                   | _ => True
                   end) evs.

(** The number of bytes the reads of a run delivered. *)
Definition delivered (evs : list Event) : Z :=
  fold_right (fun e acc => match e with
                           | EvRead _ _ (ReadOk bs) => Z.of_nat (length bs) + acc
                           | _ => acc
                           end) 0 evs.

(** A run of events that moves no payload: no [::read], no [writeBlocks]. *)
Definition no_transfer (evs : list Event) : Prop :=
  Forall (fun e => match e with
                   | EvRead _ _ _ | EvWriteBlocks _ _ => False
                   | _ => True
                   end) evs.

(** A stream of three bytes that is not ready at the first read. *)
Definition stalled_then_three : list ReadResult :=
  [ReadOk []; ReadOk [x61; x62; x63]].


(** ** The callbacks of IncFS *)

(** An entry of [PendingReads]: the file and the block a reader waits for. *)
Record PendingRead := {
  pr_id : FileId;
  pr_block : Z
}.

Section Callbacks.
Variable host : Endian.
Variable env : Env.

(** The [for] loop of [onPendingReads], over [mRequestedFiles]. *)
Fixpoint onPendingReads_loop (mOutFd : Z) (pendingReads : list PendingRead)
    (mRequestedFiles : gset Z) : M (gset Z) :=
  match pendingReads with
  | [] => ret mRequestedFiles
  | pendingRead :: pendingReads' =>
      let fileId := pr_id pendingRead in
      let blockIdx := int32 (pr_block pendingRead) in
      let fileIdx := convertFileIdToFileIndex fileId in
      if fileIdx <? 0 then
        onPendingReads_loop mOutFd pendingReads' mRequestedFiles
      else
        (* insert(fileIdx).second *)
        let inserted := negb (bool_decide (fileIdx ∈ mRequestedFiles)) in
        let mRequestedFiles := {[fileIdx]} ∪ mRequestedFiles in
        mRequestedFiles <-
          (if inserted then
             sent <- sendRequest host env mOutFd PREFETCH fileIdx blockIdx;;
             if negb sent then ret (mRequestedFiles ∖ {[fileIdx]})
             else ret mRequestedFiles
           else ret mRequestedFiles);;
        sendRequest host env mOutFd BLOCK_MISSING fileIdx blockIdx;;
        onPendingReads_loop mOutFd pendingReads' mRequestedFiles
  end.

(** [mIfs] stands for [mIfs != nullptr]; [CHECK] aborts. *)
Definition onPendingReads (mOutFd : Z) (mIfs : bool) (pendingReads : list PendingRead)
    (mRequestedFiles : gset Z) : M (gset Z) :=
  if mOutFd <? 0 then ret mRequestedFiles
  else if negb mIfs then fault
  else onPendingReads_loop mOutFd pendingReads mRequestedFiles.

End Callbacks.

(** The request type and the file index in the bytes of a request, as
    its reader takes them (network byte order). *)
Definition request_type (bytes : list byte) : Z :=
  256 * byte_to_Z (nth 4 bytes x00) + byte_to_Z (nth 5 bytes x00).

Definition request_fileIdx (bytes : list byte) : Z :=
  256 * byte_to_Z (nth 6 bytes x00) + byte_to_Z (nth 7 bytes x00).

(** A PREFETCH for [fileIdx] that went out in full. *)
Definition is_prefetch_sent (fileIdx : Z) (e : Event) : bool :=
  match e with
  | EvWriteFully _ bytes written =>
      (request_type bytes =? PREFETCH) && (request_fileIdx bytes =? fileIdx)
        && (written =? length bytes)%nat
  | _ => false
  end.

(** A PREFETCH for [fileIdx], sent in full or not. *)
Definition is_prefetch (fileIdx : Z) (e : Event) : bool :=
  match e with
  | EvWriteFully _ bytes _ =>
      (request_type bytes =? PREFETCH) && (request_fileIdx bytes =? fileIdx)
  | _ => false
  end.



(** Two pending reads of the file with index 3, blocks 5 and 6. *)
Definition two_pending_reads : list PendingRead :=
  [ {| pr_id := convertFileIndexToFileId STREAMING 3; pr_block := 5 |};
    {| pr_id := convertFileIndexToFileId STREAMING 3; pr_block := 6 |} ].


(** ** Read tracing *)

(** An entry of [PageReads]. *)
Record PageRead := {
  pg_id : FileId;
  pg_block : Z;
  pg_bootClockTsUs : Z
}.

Record TracedRead := {
  tr_timestampUs : Z;
  tr_fileId : FileId;
  tr_firstBlockIdx : Z;
  tr_count : Z
}.

(** [TracedRead last = {}]. *)
Definition TracedRead_zero : TracedRead :=
  {| tr_timestampUs := 0; tr_fileId := FileId_zero; tr_firstBlockIdx := 0; tr_count := 0 |}.

(** What reaches the trace buffer. *)
Inductive TraceEvent :=
| ATRACE_BEGIN (name : list byte)
| ATRACE_END.

(** "page_read: index=", " count=" and " file=". *)
Definition page_read_index : list byte :=
  [x70; x61; x67; x65; x5f; x72; x65; x61; x64; x3a; x20;
   x69; x6e; x64; x65; x78; x3d].
Definition page_read_count : list byte := [x20; x63; x6f; x75; x6e; x74; x3d].
Definition page_read_file : list byte := [x20; x66; x69; x6c; x65; x3d].

Definition traceRead (read : TracedRead) : list TraceEvent :=
  if tr_count read =? 0 then []
  else
    let fileIdx := convertFileIdToFileIndex (tr_fileId read) in
    let str := page_read_index ++ decimal_text (tr_firstBlockIdx read)
                 ++ page_read_count ++ decimal_text (tr_count read)
                 ++ page_read_file ++ decimal_text fileIdx in
    [ATRACE_BEGIN (c_str str); ATRACE_END].

(** The [for] loop of [onPageReads] and the call after it: the values of
    [last] that [traceRead] is called with, in order. *)
Fixpoint onPageReads_loop (pageReads : list PageRead) (last : TracedRead)
  : list TracedRead :=
  match pageReads with
  | [] => [last]
  | read :: pageReads' =>
      if negb (bool_decide (pg_id read = tr_fileId last))
         || negb (uint32 (pg_block read)
                  =? uint32 (tr_firstBlockIdx last + tr_count last))
      then
        last :: onPageReads_loop pageReads'
                  {| tr_timestampUs := uint64 (pg_bootClockTsUs read);
                     tr_fileId := pg_id read;
                     tr_firstBlockIdx := uint32 (pg_block read);
                     tr_count := 1 |}
      else
        onPageReads_loop pageReads'
          {| tr_timestampUs := tr_timestampUs last;
             tr_fileId := tr_fileId last;
             tr_firstBlockIdx := tr_firstBlockIdx last;
             tr_count := uint32 (tr_count last + 1) |}
  end.

(** [trace] is the answer of [atrace_is_tag_enabled]. *)
Definition onPageReads (trace : bool) (pageReads : list PageRead) : list TraceEvent :=
  if negb trace then []
  else flat_map traceRead (onPageReads_loop pageReads TracedRead_zero).

(** The blocks a traced read stands for. *)
Definition traced_blocks (read : TracedRead) : list (FileId * Z) :=
  (fun i => (tr_fileId read, uint32 (tr_firstBlockIdx read + i)))
    <$> seqZ 0 (tr_count read).

(** ** Read logs *)

(** [updateReadLogsState] on [mReadLogsEnabled]: its new value and the
    [readLogsEnabled] of the calls of [setParams]. *)
Definition updateReadLogsState (enabled mReadLogsEnabled : bool) : bool * list bool :=
  let previous := mReadLogsEnabled in        (* exchange *)
  let mReadLogsEnabled := enabled in
  if negb (Bool.eqb enabled previous) then (mReadLogsEnabled, [enabled])
  else (mReadLogsEnabled, []).

(** Calls of [updateReadLogsState] one after the other. *)
Fixpoint updateReadLogsState_calls (calls : list bool) (mReadLogsEnabled : bool)
  : bool * list bool :=
  match calls with
  | [] => (mReadLogsEnabled, [])
  | enabled :: calls' =>
      let '(mReadLogsEnabled, params) := updateReadLogsState enabled mReadLogsEnabled in
      let '(mReadLogsEnabled, params') := updateReadLogsState_calls calls' mReadLogsEnabled in
      (mReadLogsEnabled, params ++ params')
  end.

(** No two neighbours of a list are equal. *)
Fixpoint alternates (previous : bool) (params : list bool) : Prop :=
  match params with
  | [] => True
  | p :: params' => p <> previous /\ alternates p params'
  end.

(** Page reads of blocks 4, 5 and 9 of the file with index 3. *)
Definition three_page_reads : list PageRead :=
  [ {| pg_id := convertFileIndexToFileId STREAMING 3; pg_block := 4; pg_bootClockTsUs := 10 |};
    {| pg_id := convertFileIndexToFileId STREAMING 3; pg_block := 5; pg_bootClockTsUs := 11 |};
    {| pg_id := convertFileIndexToFileId STREAMING 3; pg_block := 9; pg_bootClockTsUs := 12 |} ].


(** ** Chunks as the server frames them *)

(** A block of a chunk: the fields of its header and its payload. *)
Record Block := {
  bk_fileIdx : Z;
  bk_blockType : Z;
  bk_compressionType : Z;
  bk_blockIdx : Z;
  bk_data : list byte
}.

(** The bytes of a block in a chunk: the header of ten bytes, its fields
    in network byte order, and the payload, whose length the header gives. *)
Definition frame (b : Block) : list byte :=
  store BigEndian 2 (bk_fileIdx b)
    ++ [byte_of_Z (bk_blockType b); byte_of_Z (bk_compressionType b)]
    ++ store BigEndian 4 (bk_blockIdx b)
    ++ store BigEndian 2 (Z.of_nat (length (bk_data b)))
    ++ bk_data b.

(** The blocks the receiver takes: no field negative, a payload of 1 to
    32767 bytes. *)
Definition valid_block (b : Block) : Prop :=
  0 <= bk_fileIdx b <= INT16_MAX
  /\ 0 <= bk_blockType b <= 127
  /\ 0 <= bk_compressionType b <= 127
  /\ 0 <= bk_blockIdx b <= INT32_MAX
  /\ 0 < Z.of_nat (length (bk_data b)) <= INT16_MAX.

(** The instruction for a block, with the descriptor that [writeFds]
    holds for its file. *)
Definition instruction_of (writeFds : gmap Z Z) (b : Block) : IncFsDataBlock :=
  {| fileFd := default (-1) (writeFds !! bk_fileIdx b);
     pageIndex := bk_blockIdx b;
     compression := bk_compressionType b;
     kind := bk_blockType b;
     dataSize := Z.of_nat (length (bk_data b));
     data := bk_data b |}.

(** Every descriptor that [writeFds] holds is open. *)
Definition writeFds_open (writeFds : gmap Z Z) : Prop :=
  forall fileIdx fd, writeFds !! fileIdx = Some fd -> 0 <= fd.

(** Two blocks of file 3 and one of file 4. *)
Definition three_blocks : list Block :=
  [ {| bk_fileIdx := 3; bk_blockType := 0; bk_compressionType := 0; bk_blockIdx := 0;
       bk_data := [x61; x62] |};
    {| bk_fileIdx := 4; bk_blockType := 1; bk_compressionType := 0; bk_blockIdx := 7;
       bk_data := [x63] |};
    {| bk_fileIdx := 3; bk_blockType := 0; bk_compressionType := 1; bk_blockIdx := 1;
       bk_data := [x64; x65; x66] |} ].

(** A run of events that only opens files of IncFS, each for a file
    index that [writeFds] does not hold. *)
Definition opens_new (mode : MetadataMode) (writeFds : gmap Z Z) (evs : list Event) : Prop :=
  Forall (fun e => exists fileIdx fd,
                     e = EvOpenForSpecialOps (convertFileIndexToFileId mode fileIdx) fd
                     /\ 0 <= fileIdx <= INT16_MAX
                     /\ writeFds !! fileIdx = None) evs.

(** An environment in which IncFS knows no file. *)
Definition no_file_env : Env :=
  let env := script_env (fun _ => -1) [] [] [] in
  {| jni_lookupShellCommand := jni_lookupShellCommand env;
     jni_getStdIn := jni_getStdIn env;
     jni_getLocalFile := jni_getLocalFile env;
     sys_read := sys_read env;
     sys_dup := sys_dup env;
     sys_eventfd := sys_eventfd env;
     sys_poll := sys_poll env;
     base_ReadFully := base_ReadFully env;
     base_WriteFully := base_WriteFully env;
     ifs_openForSpecialOps := ifs_openForSpecialOps env;
     ifs_writeBlocks := ifs_writeBlocks env;
     incfs_FileIdFromMetadata := incfs_FileIdFromMetadata env;
     incfs_isValidFileId := fun _ => false;
     stop_requested := stop_requested env |}.

(** A block whose payload is the ten bytes of the sentinel. *)
Definition block_of_sentinel : Block :=
  {| bk_fileIdx := 3; bk_blockType := 0; bk_compressionType := 0; bk_blockIdx := 0;
     bk_data := sentinel_chunk |}.

(** An environment in which [poll] answers [r]. *)
Definition poll_env (r : PollResult) : Env :=
  let env := script_env (fun _ => -1) [] [] [] in
  {| jni_lookupShellCommand := jni_lookupShellCommand env;
     jni_getStdIn := jni_getStdIn env;
     jni_getLocalFile := jni_getLocalFile env;
     sys_read := sys_read env;
     sys_dup := sys_dup env;
     sys_eventfd := sys_eventfd env;
     sys_poll := fun _ _ _ => r;
     base_ReadFully := base_ReadFully env;
     base_WriteFully := base_WriteFully env;
     ifs_openForSpecialOps := ifs_openForSpecialOps env;
     ifs_writeBlocks := ifs_writeBlocks env;
     incfs_FileIdFromMetadata := incfs_FileIdFromMetadata env;
     incfs_isValidFileId := incfs_isValidFileId env;
     stop_requested := stop_requested env |}.

(** Both descriptors readable; and data with a hang-up (POLLIN | POLLHUP). *)
Definition stop_signalled : PollResult :=
  {| poll_res := 2; poll_revents_fd := POLLIN; poll_revents_event := POLLIN |}.

Definition hung_up : PollResult :=
  {| poll_res := 1; poll_revents_fd := 17; poll_revents_event := 0 |}.

(** A sidecar for a file of 8192 bytes that declares the tree size 4096. *)
Definition idsig_4096 : list (option (list byte)) :=
  [Some [x01; x00; x00; x00]; Some [x00; x00; x00; x00];
   Some [x00; x00; x00; x00]; Some [x00; x10; x00; x00]].

(** Only the sidecar of the file "a" can be opened. *)
Definition only_idsig (path : list byte) : Z :=
  if bool_decide (path = c_str ([x61] ++ idsig_suffix)) then 5 else -1.


(** ** A channel as a stream of bytes *)

(** The number of bytes the calls of [ReadFully] in a history have taken. *)
Definition consumed (h : History) : nat :=
  fold_right (fun e acc => match e with
                           | EvReadFully _ _ (Some bs) => (length bs + acc)%nat
                           | _ => acc
                           end) 0%nat h.

(** An environment in which [ReadFully] takes the next bytes of
    [stream], on whatever descriptor, and fails when fewer than asked for
    are left; [poll] finds data on the channel, every write succeeds, and
    IncFS knows and opens every file. *)
Definition stream_env (stream : list byte) : Env :=
  let env := script_env (fun _ => 5) [] [] [] in
  {| jni_lookupShellCommand := jni_lookupShellCommand env;
     jni_getStdIn := jni_getStdIn env;
     jni_getLocalFile := jni_getLocalFile env;
     sys_read := sys_read env;
     sys_dup := sys_dup env;
     sys_eventfd := sys_eventfd env;
     sys_poll := sys_poll env;
     base_ReadFully := fun h _ count => Some (take (Z.to_nat count) (drop (consumed h) stream));
     base_WriteFully := base_WriteFully env;
     ifs_openForSpecialOps := ifs_openForSpecialOps env;
     ifs_writeBlocks := ifs_writeBlocks env;
     incfs_FileIdFromMetadata := incfs_FileIdFromMetadata env;
     incfs_isValidFileId := fun _ => true;
     stop_requested := stop_requested env |}.

(** The preamble of a signature file: the version, the hashing info and
    the signing info, each behind its length, and the size of the verity
    tree; the integers are 32 bits, little-endian. *)
Definition idsig_preamble (version : Z) (hashingInfo signingInfo : list byte)
    (treeSize : Z) : list byte :=
  store LittleEndian 4 version
    ++ store LittleEndian 4 (Z.of_nat (length hashingInfo)) ++ hashingInfo
    ++ store LittleEndian 4 (Z.of_nat (length signingInfo)) ++ signingInfo
    ++ store LittleEndian 4 treeSize.

(** A chunk on the channel: the length of the payload, 32 bits in
    network byte order, and the payload. *)
Definition chunk_of (payload : list byte) : list byte :=
  store BigEndian 4 (Z.of_nat (length payload)) ++ payload.


(** ** A chunk that ends in a fragment *)




(** A chunk whose only header announces five bytes of payload and that
    holds two. *)
Definition overrun_chunk : list byte :=
  [x00; x03; x00; x00; x00; x00; x00; x00; x00; x05; x61; x62].

(** ** Properties *)

(** *** Machine integers and bytes *)

Lemma int64_id z : - 2 ^ 63 <= z < 2 ^ 63 -> int64 z = z.
Proof. unfold int64, to_signed. intros H. rewrite Z.mod_small; lia. Qed.

Lemma int32_id z : in_int32 z -> int32 z = z.
Proof.
  unfold in_int32, INT32_MIN, INT32_MAX, int32, to_signed. intros H.
  rewrite Z.mod_small; lia.
Qed.

Lemma int16_id z : in_int16 z -> int16 z = z.
Proof.
  unfold in_int16, INT16_MIN, INT16_MAX, int16, to_signed. intros H.
  rewrite Z.mod_small; lia.
Qed.

Lemma byte_to_Z_range b : 0 <= byte_to_Z b < 256.
Proof.
  unfold byte_to_Z. pose proof (Byte.to_N_bounded b) as H. lia.
Qed.

Lemma byte_to_of_Z z : byte_to_Z (byte_of_Z z) = z mod 256.
Proof.
  unfold byte_to_Z, byte_of_Z.
  assert (Hr : 0 <= z mod 256 < 256) by (apply Z.mod_pos_bound; lia).
  destruct (Byte.of_N (Z.to_N (z mod 256))) as [b|] eqn:E.
  - apply Byte.to_of_N in E. rewrite E. lia.
  - apply Byte.of_N_None_iff in E. lia.
Qed.

Lemma byte_of_Z_mod a b : a mod 256 = b mod 256 -> byte_of_Z a = byte_of_Z b.
Proof. unfold byte_of_Z. now intros ->. Qed.

(** *** The monad *)

Lemma bind_inv {A B} (m : M A) (k : A -> M B) h r evs :
  bind m k h = (r, evs) ->
  (exists a e1 e2, m h = (Ret a, e1) /\ k a (h ++ e1) = (r, e2) /\ evs = e1 ++ e2)
  \/ (m h = (OutOfFuel, evs) /\ r = OutOfFuel)
  \/ (m h = (Fault, evs) /\ r = Fault).
Proof.
  unfold bind. destruct (m h) as [[a| |] e1].
  - destruct (k a (h ++ e1)) as [r' e2] eqn:Ek. intros E. inversion E; subst.
    left. now exists a, e1, e2.
  - intros E. inversion E; subst. right. left. now split.
  - intros E. inversion E; subst. right. right. now split.
Qed.

Lemma bind_ret {A B} (a : A) (k : A -> M B) h : bind (ret a) k h = k a h.
Proof. unfold bind, ret. rewrite app_nil_r. now destruct (k a h). Qed.

Lemma bind_fault {A B} (k : A -> M B) h : bind fault k h = (Fault, []).
Proof. reflexivity. Qed.

Lemma bind_call {A B} (answer : History -> A) (event : A -> Event) (k : A -> M B) h :
  bind (call answer event) k h
  = (fst (k (answer h) (h ++ [event (answer h)])),
     event (answer h) :: snd (k (answer h) (h ++ [event (answer h)]))).
Proof.
  unfold bind, call. now destruct (k (answer h) (h ++ [event (answer h)])).
Qed.

Lemma call_inv {A} (answer : History -> A) (event : A -> Event) h r evs :
  call answer event h = (r, evs) -> r = Ret (answer h) /\ evs = [event (answer h)].
Proof. unfold call. intros E. now inversion E. Qed.

Lemma ret_inv {A} (a : A) h r evs : ret a h = (r, evs) -> r = Ret a /\ evs = [].
Proof. unfold ret. intros E. now inversion E. Qed.

Lemma bind_run {A B} (m : M A) (k : A -> M B) h a e1 r e2 :
  m h = (Ret a, e1) -> k a (h ++ e1) = (r, e2) -> bind m k h = (r, e1 ++ e2).
Proof. unfold bind. intros -> ->. reflexivity. Qed.

Lemma bind_assoc {A B C} (m : M A) (k1 : A -> M B) (k2 : B -> M C) h :
  bind (bind m k1) k2 h = bind m (fun a => bind (k1 a) k2) h.
Proof.
  unfold bind. destruct (m h) as [[a| |] e1]; [|reflexivity|reflexivity].
  destruct (k1 a (h ++ e1)) as [[b| |] e2]; [|reflexivity|reflexivity].
  rewrite <- app_assoc.
  destruct (k2 b (h ++ e1 ++ e2)) as [r e3]. now rewrite app_assoc.
Qed.

Lemma bind_ext {A B} (m : M A) (k1 k2 : A -> M B) h :
  (forall a h', k1 a h' = k2 a h') -> bind m k1 h = bind m k2 h.
Proof.
  intros Hk. unfold bind. destruct (m h) as [[a| |] e1]; [|reflexivity|reflexivity].
  now rewrite Hk.
Qed.

Lemma bind_peek {A B} (answer : History -> A) (k : A -> M B) h :
  bind (peek answer) k h = k (answer h) h.
Proof. unfold bind, peek. rewrite app_nil_r. now destruct (k (answer h) h). Qed.

Lemma submitted_app e1 e2 : submitted (e1 ++ e2) = submitted e1 ++ submitted e2.
Proof. unfold submitted. now rewrite map_app, concat_app. Qed.

Lemma opened_app e1 e2 : opened (e1 ++ e2) = opened e1 ++ opened e2.
Proof. unfold opened. now rewrite map_app, concat_app. Qed.

(** *** Verity tree sizing *)

Lemma ceil_div_pos a b : 0 < b -> ceil_div a b = (a + b - 1) / b.
Proof.
  intros Hb. unfold ceil_div.
  pose proof (Z.div_mod (a + b - 1) b ltac:(lia)) as E.
  pose proof (Z.mod_pos_bound (a + b - 1) b Hb) as R.
  symmetry. rewrite <- (Z.opp_involutive ((a + b - 1) / b)). f_equal.
  apply (Z.div_unique (- a) b (- ((a + b - 1) / b)) (b - 1 - (a + b - 1) mod b)); lia.
Qed.

Lemma ceil_iter_shift b B0 i :
  ceil_iter b B0 (S i) = ceil_iter b (ceil_div B0 b) i.
Proof. induction i as [|i IH]; [reflexivity|]. simpl in *. now rewrite IH. Qed.

Lemma sum_levels_shift b B0 k :
  sum_levels b B0 (S k) = ceil_div B0 b + sum_levels b (ceil_div B0 b) k.
Proof.
  induction k as [|k IH]; [simpl; lia|].
  change (sum_levels b B0 (S (S k)))
    with (sum_levels b B0 (S k) + ceil_iter b B0 (S (S k))).
  rewrite IH, (ceil_iter_shift b B0 (S k)). simpl. lia.
Qed.

Lemma ceil_step_halves b h :
  3 <= b -> 2 <= h -> 1 <= (h + b - 1) / b /\ 2 * ((h + b - 1) / b) <= h.
Proof.
  intros Hb Hh.
  replace (h + b - 1) with ((h - 1) + 1 * b) by lia.
  rewrite Z.div_add by lia.
  assert (0 <= (h - 1) / b) by (apply Z.div_pos; lia).
  assert ((h - 1) / b <= (h - 1) / 3) by (apply Z.div_le_compat_l; lia).
  generalize dependent ((h - 1) / b). intros q Hq0 Hq3.
  Z.to_euclidean_division_equations. lia.
Qed.

Lemma verity_levels_done BS fuel h total :
  h <= 1 -> verity_levels BS fuel h total = Some total.
Proof.
  intros Hh. destruct fuel; simpl; destruct (Z.ltb_spec 1 h); (reflexivity || lia).
Qed.

Section VerityTreeProofs.
Variable INCFS_DATA_FILE_BLOCK_SIZE : Z.
Hypothesis block_size_range : 96 <= INCFS_DATA_FILE_BLOCK_SIZE <= INT32_MAX.

Let b := hash_per_block INCFS_DATA_FILE_BLOCK_SIZE.

Lemma hash_per_block_div : b = INCFS_DATA_FILE_BLOCK_SIZE / 32.
Proof.
  unfold b, hash_per_block, digest_size, SHA256_DIGEST_SIZE.
  apply Z.quot_div_nonneg; lia.
Qed.

Lemma hash_per_block_range : 3 <= b <= INT32_MAX.
Proof.
  rewrite hash_per_block_div. unfold INT32_MAX in *.
  split.
  - apply Z.div_le_lower_bound; lia.
  - apply Z.div_le_upper_bound; lia.
Qed.

(** The loop adds the levels [B 1 .. B k] of the sequence that starts at
    [hash_block_count]; they sum to less than [hash_block_count], so no
    addition overflows. *)
Lemma verity_levels_spec fuel :
  forall h total,
    1 <= h -> h <= 2 ^ Z.of_nat fuel -> 0 <= total -> total + h < 2 ^ 62 ->
    exists k,
      verity_levels INCFS_DATA_FILE_BLOCK_SIZE fuel h total
        = Some (total + sum_levels b h k)
      /\ (forall i, (i < k)%nat -> 1 < ceil_iter b h i)
      /\ ceil_iter b h k <= 1
      /\ 0 <= sum_levels b h k <= h - 1.
Proof.
  pose proof hash_per_block_range as Hb. unfold INT32_MAX in Hb.
  induction fuel as [|fuel IH]; intros h total Hh Hfuel Htotal Hsum.
  - exists 0%nat. simpl in *.
    assert (h = 1) by lia. subst h. simpl.
    repeat split; try lia. f_equal; lia.
  - destruct (Z.ltb_spec 1 h) as [Hgt|Hle].
    + pose proof (ceil_step_halves b h ltac:(lia) ltac:(lia)) as [Hlo Hhalf].
      set (h' := (h + b - 1) / b) in *.
      assert (Estep : int64 (int64 (int64 (h + b) - 1) ÷ b) = h').
      { rewrite (int64_id (h + b)) by lia.
        rewrite (int64_id (h + b - 1)) by lia.
        rewrite Z.quot_div_nonneg by lia.
        apply int64_id. fold h'. lia. }
      assert (Hfuel' : h' <= 2 ^ Z.of_nat fuel).
      { rewrite Nat2Z.inj_succ, Z.pow_succ_r in Hfuel by lia. lia. }
      destruct (IH h' (total + h') Hlo Hfuel' ltac:(lia) ltac:(lia))
        as (k & Erun & Hlevels & Hlast & Hbound).
      exists (S k).
      assert (Eceil : ceil_div h b = h') by (apply ceil_div_pos; lia).
      rewrite sum_levels_shift, Eceil.
      split; [|split; [|split]].
      * simpl. destruct (Z.ltb_spec 1 h); [|lia].
        fold b. rewrite Estep, (int64_id (total + h')) by lia.
        rewrite Erun. f_equal; lia.
      * intros [|i] Hi; [simpl; lia|].
        rewrite ceil_iter_shift, Eceil. apply Hlevels. lia.
      * rewrite ceil_iter_shift, Eceil. exact Hlast.
      * lia.
    + exists 0%nat. assert (h = 1) by lia. subst h.
      simpl. repeat split; try lia. f_equal; lia.
Qed.

(** C3: for every file size [S >= 0], [verityTreeSizeForFile S] is the
    sum of the levels [B 1 .. B k] times the block size, where
    [B 0 = ceil (S / block_size)], [B (i+1) = ceil (B i / (block_size / 32))]
    and [k] is where the iteration "while [B i > 1]" stops. *)
Theorem verityTreeSizeForFile_spec (fileSize : Z) :
  0 <= fileSize <= INT64_MAX ->
  exists k,
    (forall i, (i < k)%nat -> 1 < spec_B INCFS_DATA_FILE_BLOCK_SIZE fileSize i)
    /\ spec_B INCFS_DATA_FILE_BLOCK_SIZE fileSize k <= 1
    /\ verityTreeSizeForFile INCFS_DATA_FILE_BLOCK_SIZE fileSize
       = Some (spec_tree_blocks INCFS_DATA_FILE_BLOCK_SIZE fileSize k
               * INCFS_DATA_FILE_BLOCK_SIZE).
Proof.
  intros HS. unfold INT64_MAX in HS. unfold INT32_MAX in block_size_range.
  unfold spec_B, spec_tree_blocks, verityTreeSizeForFile.
  rewrite <- hash_per_block_div.
  set (BS := INCFS_DATA_FILE_BLOCK_SIZE) in *.
  destruct (Z.eq_dec fileSize 0) as [->|Hpos].
  - exists 0%nat. cbn [ceil_iter sum_levels].
    assert (E0 : ceil_div 0 BS = 0) by (unfold ceil_div; simpl; now rewrite Zdiv_0_l).
    rewrite E0. split; [intros; lia|]. split; [lia|].
    assert (Eq : int64 (0 - 1) ÷ BS = 0).
    { rewrite int64_id by lia. change (0 - 1) with (- (1)).
      rewrite Z.quot_opp_l, Z.quot_small by lia. reflexivity. }
    rewrite Eq. change (int64 (1 + int64 0)) with 1.
    rewrite verity_levels_done by lia. reflexivity.
  - assert (Ediv : (fileSize - 1) / BS < 2 ^ 57).
    { apply Z.div_lt_upper_bound; lia. }
    assert (0 <= (fileSize - 1) / BS) by (apply Z.div_pos; lia).
    assert (Ecount : int64 (1 + int64 (int64 (fileSize - 1) ÷ BS))
                     = ceil_div fileSize BS).
    { rewrite (int64_id (fileSize - 1)) by lia.
      rewrite Z.quot_div_nonneg by lia.
      rewrite (int64_id ((fileSize - 1) / BS)) by lia.
      rewrite int64_id by lia.
      rewrite ceil_div_pos by lia.
      replace (fileSize + BS - 1) with ((fileSize - 1) + 1 * BS) by lia.
      rewrite Z.div_add by lia. lia. }
    rewrite Ecount.
    assert (Ec : ceil_div fileSize BS = 1 + (fileSize - 1) / BS).
    { rewrite ceil_div_pos by lia.
      replace (fileSize + BS - 1) with ((fileSize - 1) + 1 * BS) by lia.
      rewrite Z.div_add by lia. lia. }
    destruct (verity_levels_spec verity_fuel (ceil_div fileSize BS) 0)
      as (k & Erun & Hlevels & Hlast & Hbound).
    + lia.
    + unfold verity_fuel. change (2 ^ Z.of_nat 64) with (2 ^ 64). lia.
    + lia.
    + lia.
    + exists k. split; [exact Hlevels|]. split; [exact Hlast|].
      fold BS in Erun. rewrite Erun. f_equal.
      rewrite Z.add_0_l. apply int64_id.
      assert (sum_levels b (ceil_div fileSize BS) k * BS <= (fileSize - 1) / BS * BS)
        by (apply Z.mul_le_mono_nonneg_r; lia).
      pose proof (Z.mul_div_le (fileSize - 1) BS ltac:(lia)).
      split; [|lia].
      assert (0 <= sum_levels b (ceil_div fileSize BS) k * BS)
        by (apply Z.mul_nonneg_nonneg; lia).
      lia.
Qed.

End VerityTreeProofs.

(** *** The decimal text of an index *)

Lemma digit_char_spec d :
  0 <= d < 10 ->
  is_digit (digit_char d) = true /\ byte_to_Z (digit_char d) - 48 = d.
Proof.
  intros Hd. unfold is_digit, digit_char. rewrite byte_to_of_Z.
  rewrite Z.mod_small by lia. split; [|lia].
  apply andb_true_intro. split; apply Z.leb_le; lia.
Qed.

Lemma digit_not_minus b : is_digit b = true -> Byte.eqb b minus_sign = false.
Proof.
  intros Hd. destruct (Byte.eqb b minus_sign) eqn:E; [|reflexivity].
  apply Byte.byte_dec_bl in E. subst b. discriminate Hd.
Qed.

Lemma digits_value_end rest v : ends_digits rest -> digits_value rest v = v.
Proof. destruct rest as [|r rest]; simpl; [reflexivity|]. now intros ->. Qed.

Lemma decimal_digits_spec fuel :
  forall n acc,
    0 <= n < 10 ^ Z.of_nat (S fuel) ->
    exists d ds,
      decimal_digits (S fuel) n acc = (d :: ds) ++ acc
      /\ is_digit d = true
      /\ (forall v rest,
            digits_value ((d :: ds) ++ rest) v
            = digits_value rest (v * 10 ^ Z.of_nat (length (d :: ds)) + n))
      /\ (forall m, (0 < m)%nat -> n < 10 ^ Z.of_nat m -> (length (d :: ds) <= m)%nat).
Proof.
  induction fuel as [|fuel IH]; intros n acc Hn.
  - change (10 ^ Z.of_nat 1) with 10 in Hn.
    destruct (digit_char_spec (n mod 10)) as [Hdig Hval];
      [apply Z.mod_pos_bound; lia|].
    rewrite Z.mod_small in Hdig, Hval by lia.
    exists (digit_char n), []. simpl.
    destruct (Z.ltb_spec n 10); [|lia].
    rewrite Z.mod_small by lia.
    split; [reflexivity|]. split; [exact Hdig|]. split.
    + intros v rest. rewrite Hdig, Hval. f_equal. lia.
    + intros m Hm _. simpl. lia.
  - destruct (digit_char_spec (n mod 10)) as [Hdig Hval];
      [apply Z.mod_pos_bound; lia|].
    change (decimal_digits (S (S fuel)) n acc)
      with (let acc' := digit_char (n mod 10) :: acc in
            if n <? 10 then acc' else decimal_digits (S fuel) (n / 10) acc').
    cbv zeta.
    destruct (Z.ltb_spec n 10) as [Hlt|Hge].
    + rewrite Z.mod_small in * by lia.
      exists (digit_char n), []. simpl.
      split; [reflexivity|]. split; [exact Hdig|]. split.
      * intros v rest. rewrite Hdig, Hval. f_equal. lia.
      * intros m Hm _. simpl. lia.
    + assert (Hdiv : 0 <= n / 10 < 10 ^ Z.of_nat (S fuel)).
      { split; [apply Z.div_pos; lia|].
        apply Z.div_lt_upper_bound; [lia|].
        rewrite (Nat2Z.inj_succ (S fuel)), Z.pow_succ_r in Hn by lia. lia. }
      destruct (IH (n / 10) (digit_char (n mod 10) :: acc) Hdiv)
        as (d & ds & Erun & Hd & Hvalue & Hlen).
      exists d, (ds ++ [digit_char (n mod 10)]).
      split; [|split; [exact Hd|split]].
      * rewrite Erun. simpl. now rewrite <- app_assoc.
      * intros v rest.
        replace ((d :: ds ++ [digit_char (n mod 10)]) ++ rest)
          with ((d :: ds) ++ digit_char (n mod 10) :: rest)
          by (simpl; now rewrite <- app_assoc).
        rewrite Hvalue. simpl digits_value. rewrite Hdig, Hval. f_equal.
        rewrite length_app. cbn [length].
        replace (Z.of_nat (S (length ds + 1)))
          with (Z.succ (Z.of_nat (S (length ds)))) by lia.
        rewrite Z.pow_succ_r by lia.
        pose proof (Z.div_mod n 10 ltac:(lia)). lia.
      * intros [|[|m]] Hm Hbound; [lia|change (10 ^ Z.of_nat 1) with 10 in Hbound; lia|].
        assert (n / 10 < 10 ^ Z.of_nat (S m)).
        { apply Z.div_lt_upper_bound; [lia|].
          rewrite (Nat2Z.inj_succ (S m)), Z.pow_succ_r in Hbound by lia. lia. }
        specialize (Hlen (S m) ltac:(lia) ltac:(lia)).
        simpl in *. rewrite length_app. simpl. lia.
Qed.

Lemma log2_decimal_bound n : 0 <= n -> n < 10 ^ Z.of_nat (S (Z.to_nat (Z.log2 n))).
Proof.
  intros Hn. rewrite Nat2Z.inj_succ, Z2Nat.id by apply Z.log2_nonneg.
  destruct (Z.eq_dec n 0) as [->|Hpos]; [reflexivity|].
  pose proof (Z.log2_spec n ltac:(lia)) as [_ Hlt].
  pose proof (Z.log2_nonneg n).
  assert (2 ^ Z.succ (Z.log2 n) <= 10 ^ Z.succ (Z.log2 n))
    by (apply Z.pow_le_mono_l; lia).
  lia.
Qed.

(** The text of a 16-bit index: an optional sign and at most five digits,
    which [from_chars] reads back. *)
Lemma decimal_text_spec value :
  in_int16 value ->
  (length (decimal_text value) <= 6)%nat
  /\ forall rest, ends_digits rest ->
       from_chars (decimal_text value ++ rest) = (errc_ok, value).
Proof.
  unfold in_int16, INT16_MIN, INT16_MAX. intros Hv. unfold decimal_text.
  destruct (Z.ltb_spec value 0) as [Hneg|Hpos].
  - destruct (decimal_digits_spec (Z.to_nat (Z.log2 (- value))) (- value) [])
      as (d & ds & Erun & Hd & Hvalue & Hlen);
      [split; [lia|apply log2_decimal_bound; lia]|].
    rewrite Erun, app_nil_r. split.
    + specialize (Hlen 5%nat ltac:(lia)).
      change (10 ^ Z.of_nat 5) with 100000 in Hlen.
      specialize (Hlen ltac:(lia)). simpl in *. lia.
    + intros rest Hrest. unfold from_chars.
      change ((minus_sign :: d :: ds) ++ rest) with (minus_sign :: (d :: ds) ++ rest).
      assert (Em : Byte.eqb minus_sign minus_sign = true) by reflexivity.
      cbv iota beta. rewrite Em. cbv iota beta.
      change ((d :: ds) ++ rest) with (d :: ds ++ rest). cbv iota beta. rewrite Hd.
      change (d :: ds ++ rest) with ((d :: ds) ++ rest).
      rewrite Hvalue, digits_value_end by exact Hrest.
      rewrite Z.mul_0_l, Z.add_0_l, Z.opp_involutive.
      unfold INT32_MIN, INT32_MAX.
      destruct (Z.leb_spec (-2147483648) value); [|lia].
      destruct (Z.leb_spec value 2147483647); [|lia].
      reflexivity.
  - destruct (decimal_digits_spec (Z.to_nat (Z.log2 value)) value [])
      as (d & ds & Erun & Hd & Hvalue & Hlen);
      [split; [lia|apply log2_decimal_bound; lia]|].
    rewrite Erun, app_nil_r. split.
    + specialize (Hlen 5%nat ltac:(lia)).
      change (10 ^ Z.of_nat 5) with 100000 in Hlen.
      specialize (Hlen ltac:(lia)). simpl in *. lia.
    + intros rest Hrest. unfold from_chars.
      change ((d :: ds) ++ rest) with (d :: ds ++ rest). cbv iota beta.
      rewrite (digit_not_minus d Hd). cbv iota beta. rewrite Hd.
      change (d :: ds ++ rest) with ((d :: ds) ++ rest).
      rewrite Hvalue, digits_value_end by exact Hrest.
      rewrite Z.mul_0_l, Z.add_0_l.
      unfold INT32_MIN, INT32_MAX.
      destruct (Z.leb_spec (-2147483648) value); [|lia].
      destruct (Z.leb_spec value 2147483647); [|lia].
      reflexivity.
Qed.

(** *** The FileId codec *)

Lemma ends_digits_zeros n : ends_digits (replicate n x00).
Proof. destruct n; simpl; [exact I|reflexivity]. Qed.

(** The id of a 16-bit index: the mode, the text, zero padding. *)
Lemma convertFileIndexToFileId_image mode fileIdx :
  in_int16 fileIdx ->
  to_chars (FileId_size - 1) fileIdx = (errc_ok, decimal_text fileIdx)
  /\ convertFileIndexToFileId mode fileIdx
     = byte_of_Z (MetadataMode_value mode)
         :: decimal_text fileIdx
         ++ replicate (FileId_size - 1 - length (decimal_text fileIdx)) x00.
Proof.
  intros Hx. destruct (decimal_text_spec fileIdx Hx) as [Hlen _].
  assert (Eto : to_chars (FileId_size - 1) fileIdx = (errc_ok, decimal_text fileIdx)).
  { unfold to_chars. destruct (Nat.leb_spec (length (decimal_text fileIdx)) (FileId_size - 1));
      [reflexivity|]. unfold FileId_size in *. lia. }
  split; [exact Eto|].
  unfold convertFileIndexToFileId. rewrite Eto. cbn [errc_is_ok negb].
  change (write_at FileId_zero 0 [byte_of_Z (MetadataMode_value mode)])
    with (byte_of_Z (MetadataMode_value mode) :: replicate (FileId_size - 1) x00).
  unfold write_at. change (Z.to_nat 1) with 1%nat.
  change (take 1 (byte_of_Z (MetadataMode_value mode) :: replicate (FileId_size - 1) x00))
    with [byte_of_Z (MetadataMode_value mode)].
  change (drop (1 + length (decimal_text fileIdx))
            (byte_of_Z (MetadataMode_value mode) :: replicate (FileId_size - 1) x00))
    with (drop (length (decimal_text fileIdx)) (replicate (FileId_size - 1) x00)).
  rewrite drop_replicate. reflexivity.
Qed.

(** C10: for every mode and every 16-bit index, [to_chars] succeeds in
    [convertFileIndexToFileId] (the text has at most 6 characters and 15
    fit), so the result is never the empty id of the error branch: it is
    16 bytes long and starts with the mode. *)
Theorem convertFileIndexToFileId_total (mode : MetadataMode) (fileIdx : Z) :
  in_int16 fileIdx ->
  fst (to_chars (FileId_size - 1) fileIdx) = errc_ok
  /\ (length (decimal_text fileIdx) <= 6)%nat
  /\ hd x00 (convertFileIndexToFileId mode fileIdx) = byte_of_Z (MetadataMode_value mode)
  /\ length (convertFileIndexToFileId mode fileIdx) = FileId_size
  /\ (mode <> STDIN -> convertFileIndexToFileId mode fileIdx <> FileId_zero).
Proof.
  intros Hx.
  destruct (convertFileIndexToFileId_image mode fileIdx Hx) as [Eto Eimg].
  destruct (decimal_text_spec fileIdx Hx) as [Hlen _].
  rewrite Eto, Eimg. split; [reflexivity|]. split; [exact Hlen|].
  split; [reflexivity|]. split.
  - cbn [length]. rewrite length_app, length_replicate. unfold FileId_size. lia.
  - intros Hmode. unfold FileId_zero, FileId_size. cbn [replicate]. intros E.
    injection E as E _. destruct mode; try discriminate E. now apply Hmode.
Qed.

(** C4: for the two streaming modes and every 16-bit index, decoding the
    id that encodes the index gives the index back. *)
Theorem FileId_round_trip (mode : MetadataMode) (fileIdx : Z) :
  mode = DATA_ONLY_STREAMING \/ mode = STREAMING ->
  in_int16 fileIdx ->
  convertFileIdToFileIndex (convertFileIndexToFileId mode fileIdx) = fileIdx.
Proof.
  intros Hmode Hx.
  destruct (convertFileIndexToFileId_image mode fileIdx Hx) as [_ Eimg].
  destruct (decimal_text_spec fileIdx Hx) as [Hlen Hparse].
  rewrite Eimg. unfold convertFileIdToFileIndex. cbn [hd].
  assert (Emode : negb (int8 (byte_to_Z (byte_of_Z (MetadataMode_value mode)))
                          =? MetadataMode_value DATA_ONLY_STREAMING)
                  && negb (int8 (byte_to_Z (byte_of_Z (MetadataMode_value mode)))
                             =? MetadataMode_value STREAMING) = false)
    by (destruct Hmode as [-> | ->]; reflexivity).
  rewrite Emode.
  assert (Eslice : slice (byte_of_Z (MetadataMode_value mode)
                            :: decimal_text fileIdx
                            ++ replicate (FileId_size - 1 - length (decimal_text fileIdx)) x00)
                         1 (Z.of_nat FileId_size - 1)
                   = decimal_text fileIdx
                     ++ replicate (FileId_size - 1 - length (decimal_text fileIdx)) x00).
  { unfold slice. change (Z.to_nat 1) with 1%nat. cbn [drop].
    apply take_ge. rewrite length_app, length_replicate.
    unfold FileId_size in *. lia. }
  rewrite Eslice, (Hparse _ (ends_digits_zeros _)). cbn [errc_is_ok negb orb].
  unfold in_int16 in Hx.
  destruct (Z.ltb_spec fileIdx INT16_MIN); [lia|].
  destruct (Z.ltb_spec INT16_MAX fileIdx); [lia|].
  cbn [orb]. apply int16_id. exact Hx.
Qed.

(** *** Byte order *)

Lemma land_shiftl_mod a b n : 0 <= n -> Z.land (a * 2 ^ n) (b mod 2 ^ n) = 0.
Proof.
  intros Hn. apply Z.bits_inj'. intros m Hm.
  rewrite Z.land_spec, Z.bits_0.
  destruct (Z.lt_ge_cases m n).
  - rewrite Z.mul_pow2_bits_low by lia. reflexivity.
  - rewrite Z.mod_pow2_bits_high by lia. apply andb_false_r.
Qed.

Lemma lor_disjoint hi lo n :
  0 <= n -> 0 <= lo < 2 ^ n -> Z.lor (hi * 2 ^ n) lo = hi * 2 ^ n + lo.
Proof.
  intros Hn Hlo. rewrite <- (Z.mod_small lo (2 ^ n)) by exact Hlo.
  rewrite <- Z.lxor_lor by (apply land_shiftl_mod; exact Hn).
  symmetry. apply Z.add_nocarry_lxor. apply land_shiftl_mod; exact Hn.
Qed.

Lemma land_255 x : Z.land x 255 = x mod 2 ^ 8.
Proof. change 255 with (Z.ones 8). apply Z.land_ones. lia. Qed.

Lemma bswap16_arith x :
  bswap16 x = (x mod 256) * 256 + (x / 256) mod 256.
Proof.
  unfold bswap16. rewrite !land_255, Z.shiftr_div_pow2, Z.shiftl_mul_pow2 by lia.
  pose proof (Z.mod_pos_bound (x / 2 ^ 8) (2 ^ 8) ltac:(lia)).
  rewrite lor_disjoint by lia. reflexivity.
Qed.

Lemma bswap32_arith x :
  bswap32 x = (x mod 256) * 16777216 + ((x / 256) mod 256) * 65536
              + ((x / 65536) mod 256) * 256 + (x / 16777216) mod 256.
Proof.
  unfold bswap32. rewrite !land_255, !Z.shiftr_div_pow2, !Z.shiftl_mul_pow2 by lia.
  pose proof (Z.mod_pos_bound x (2 ^ 8) ltac:(lia)).
  pose proof (Z.mod_pos_bound (x / 2 ^ 8) (2 ^ 8) ltac:(lia)).
  pose proof (Z.mod_pos_bound (x / 2 ^ 16) (2 ^ 8) ltac:(lia)).
  pose proof (Z.mod_pos_bound (x / 2 ^ 24) (2 ^ 8) ltac:(lia)).
  rewrite (lor_disjoint ((x / 2 ^ 16) mod 2 ^ 8) ((x / 2 ^ 24) mod 2 ^ 8) 8) by lia.
  rewrite (lor_disjoint (x mod 2 ^ 8) ((x / 2 ^ 8) mod 2 ^ 8 * 2 ^ 16) 24) by lia.
  replace (x mod 2 ^ 8 * 2 ^ 24 + (x / 2 ^ 8) mod 2 ^ 8 * 2 ^ 16)
    with ((x mod 2 ^ 8 * 2 ^ 8 + (x / 2 ^ 8) mod 2 ^ 8) * 2 ^ 16) by lia.
  rewrite lor_disjoint by lia.
  change (2 ^ 8) with 256. change (2 ^ 16) with 65536. change (2 ^ 24) with 16777216.
  lia.
Qed.

Lemma le_bytes_2 v : le_bytes 2 v = [byte_of_Z v; byte_of_Z (v / 256)].
Proof. simpl. rewrite Z.shiftr_div_pow2 by lia. reflexivity. Qed.

Lemma le_bytes_4 v :
  le_bytes 4 v = [byte_of_Z v; byte_of_Z (v / 256); byte_of_Z (v / 65536);
                  byte_of_Z (v / 16777216)].
Proof.
  simpl. rewrite !Z.shiftr_div_pow2 by lia. change (2 ^ 8) with 256.
  rewrite !Z.div_div by lia. reflexivity.
Qed.

(** On a little-endian host the image of [be16toh x] is [x] most
    significant byte first. *)
Lemma store16_swapped x :
  store LittleEndian 2 (int16 (be16toh LittleEndian (uint16 x)))
  = [byte_of_Z (x / 256); byte_of_Z x].
Proof.
  unfold store, be16toh. rewrite le_bytes_2, bswap16_arith.
  unfold int16, uint16, to_signed, to_unsigned.
  change (2 ^ 16) with 65536. change (2 ^ (16 - 1)) with 32768.
  f_equal; [|f_equal]; apply byte_of_Z_mod;
    Z.to_euclidean_division_equations; lia.
Qed.

Lemma int32_congr v :
  0 <= v < 4294967296 -> exists c, int32 v = v - 4294967296 * c.
Proof.
  intros H. exists ((v + 2147483648) / 4294967296).
  unfold int32, to_signed.
  change (2 ^ 32) with 4294967296. change (2 ^ (32 - 1)) with 2147483648.
  Z.to_euclidean_division_equations; lia.
Qed.

Lemma bswap32_range u : 0 <= bswap32 u < 4294967296.
Proof. rewrite bswap32_arith. Z.to_euclidean_division_equations; lia. Qed.

Lemma store32_swapped x :
  store LittleEndian 4 (int32 (be32toh LittleEndian (uint32 x)))
  = [byte_of_Z (x / 16777216); byte_of_Z (x / 65536); byte_of_Z (x / 256); byte_of_Z x].
Proof.
  unfold store, be32toh. rewrite le_bytes_4.
  destruct (int32_congr (bswap32 (uint32 x)) (bswap32_range _)) as [c ->].
  rewrite bswap32_arith. unfold uint32, to_unsigned.
  change (2 ^ 32) with 4294967296.
  set (u := x mod 4294967296).
  set (B := u mod 256 * 16777216 + (u / 256) mod 256 * 65536
            + (u / 65536) mod 256 * 256 + (u / 16777216) mod 256).
  f_equal; [|f_equal; [|f_equal; [|f_equal]]]; apply byte_of_Z_mod.
  - replace (B - 4294967296 * c) with (B + (- (16777216 * c)) * 256) by lia.
    rewrite Z.mod_add by lia.
    subst B u. Z.to_euclidean_division_equations; lia.
  - replace (B - 4294967296 * c) with (B + (- (16777216 * c)) * 256) by lia.
    rewrite Z.div_add by lia.
    replace (B / 256 + - (16777216 * c)) with (B / 256 + (- (65536 * c)) * 256) by lia.
    rewrite Z.mod_add by lia.
    subst B u. Z.to_euclidean_division_equations; lia.
  - replace (B - 4294967296 * c) with (B + (- (65536 * c)) * 65536) by lia.
    rewrite Z.div_add by lia.
    replace (B / 65536 + - (65536 * c)) with (B / 65536 + (- (256 * c)) * 256) by lia.
    rewrite Z.mod_add by lia.
    subst B u. Z.to_euclidean_division_equations; lia.
  - replace (B - 4294967296 * c) with (B + (- (256 * c)) * 16777216) by lia.
    rewrite Z.div_add by lia.
    replace (B / 16777216 + - (256 * c)) with (B / 16777216 + (- c) * 256) by lia.
    rewrite Z.mod_add by lia.
    subst B u. Z.to_euclidean_division_equations; lia.
Qed.

(** *** Requests *)

(** The twelve bytes of a request on a little-endian host. *)
Lemma RequestCommand_image_le requestType fileIdx blockIdx :
  RequestCommand_image LittleEndian
    (sendRequest_command LittleEndian requestType fileIdx blockIdx)
  = [x49; x4e; x43; x52;
     byte_of_Z (requestType / 256); byte_of_Z requestType;
     byte_of_Z (fileIdx / 256); byte_of_Z fileIdx;
     byte_of_Z (blockIdx / 16777216); byte_of_Z (blockIdx / 65536);
     byte_of_Z (blockIdx / 256); byte_of_Z blockIdx].
Proof.
  unfold RequestCommand_image, sendRequest_command.
  cbn [rc_magic rc_requestType rc_fileIdx rc_blockIdx].
  rewrite !store16_swapped, store32_swapped. reflexivity.
Qed.

(** C6: on a little-endian host [sendRequest] hands [WriteFully] exactly
    twelve bytes in one call: 'I','N','C','R', then the images of the
    fields, which are the arguments passed through [be16toh] and
    [be32toh], that is byte-swapped: each argument appears most significant
    byte first.  The call succeeds exactly when the descriptor took all
    twelve bytes. *)
Theorem sendRequest_wire (env : Env) (fd requestType fileIdx blockIdx : Z) (h : History) :
  let command := sendRequest_command LittleEndian requestType fileIdx blockIdx in
  let bytes := RequestCommand_image LittleEndian command in
  let written := Nat.min (base_WriteFully env h fd bytes) (length bytes) in
  Z.of_nat (length bytes) = COMMAND_SIZE
  /\ take 4 bytes = [x49; x4e; x43; x52]
  /\ store LittleEndian 4 INCR = [x49; x4e; x43; x52]
  /\ rc_requestType command = int16 (bswap16 (uint16 requestType))
  /\ rc_fileIdx command = int16 (bswap16 (uint16 fileIdx))
  /\ rc_blockIdx command = int32 (bswap32 (uint32 blockIdx))
  /\ drop 4 bytes
     = [byte_of_Z (requestType / 256); byte_of_Z requestType;
        byte_of_Z (fileIdx / 256); byte_of_Z fileIdx;
        byte_of_Z (blockIdx / 16777216); byte_of_Z (blockIdx / 65536);
        byte_of_Z (blockIdx / 256); byte_of_Z blockIdx]
  /\ sendRequest LittleEndian env fd requestType fileIdx blockIdx h
     = (Ret (written =? 12)%nat, [EvWriteFully fd bytes written]).
Proof.
  cbv zeta. unfold sendRequest. rewrite RequestCommand_image_le.
  repeat split; reflexivity.
Qed.

(** The EXIT request of the receiver, with the default arguments -1. *)
Example exit_request_le :
  RequestCommand_image LittleEndian (sendRequest_command LittleEndian EXIT (-1) (-1))
  = [x49; x4e; x43; x52; x00; x00; xff; xff; xff; xff; xff; xff].
Proof. reflexivity. Qed.

(** On a big-endian host [be16toh] and [be32toh] do nothing and the fields
    are the same bytes; only the magic changes. *)
Example prefetch_request_be :
  RequestCommand_image BigEndian (sendRequest_command BigEndian PREFETCH 258 66051)
  = [x52; x43; x4e; x49; x00; x02; x01; x02; x00; x01; x02; x03].
Proof. reflexivity. Qed.

(** *** The receiver *)

Lemma readHeader_short host data :
  (length data < 10)%nat -> readHeader host data = (BlockHeader_default, data).
Proof.
  intros Hlen. unfold readHeader, HEADER_SIZE.
  destruct (Z.ltb_spec (Z.of_nat (length data)) (2 + 1 + 1 + 4 + 2)); [reflexivity|lia].
Qed.

Lemma readHeader_consumes host data header rest :
  readHeader host data = (header, rest) ->
  (10 <= length data)%nat ->
  rest = drop 10 data.
Proof.
  unfold readHeader, HEADER_SIZE. intros E Hlen.
  destruct (Z.ltb_spec (Z.of_nat (length data)) (2 + 1 + 1 + 4 + 2)); [lia|].
  now inversion E.
Qed.


(** Once the flag is set the loop is left at its next test. *)
Lemma receiver_loop_stopped host env fuel inout mEventFd mode st h :
  rs_stop st = true ->
  receiver_loop host env fuel inout mEventFd mode st h = (Ret st, []).
Proof.
  intros Hstop. destruct fuel; simpl; unfold bind, peek; rewrite Hstop; reflexivity.
Qed.

(** The walk over a chunk decodes a header.  *)
Lemma receiver_walk_step host env fuel inout mode st remainingData :
  remainingData <> [] ->
  receiver_walk host env (S fuel) inout mode st remainingData
  = (let '(header, remainingData) := readHeader host remainingData in
     if is_sentinel header then
       sendRequest host env inout EXIT (-1) (-1);;
       ret (set_stop st)
     else if is_invalid header then
       ret (set_stop st)
     else
       let fileIdx := bh_fileIdx header in
       let fileId := convertFileIndexToFileId mode fileIdx in
       if negb (incfs_isValidFileId env fileId) then
         receiver_walk host env fuel inout mode st remainingData
       else
         let writeFd := default (-1) (rs_writeFds st !! fileIdx) in
         writeFd <- (if writeFd <? 0 then openForSpecialOps env fileId else ret writeFd);;
         let st := set_writeFd fileIdx writeFd st in
         if writeFd <? 0 then ret st
         else
           let inst := {| fileFd := writeFd;
                          pageIndex := int32 (bh_blockIdx header);
                          compression := bh_compressionType header;
                          kind := bh_blockType header;
                          dataSize := uint16 (bh_blockSize header);
                          data := slice remainingData 0 (bh_blockSize header) |} in
           let st := set_instructions (rs_instructions st ++ [inst]) st in
           if Z.of_nat (length remainingData) <? bh_blockSize header then fault
           else receiver_walk host env fuel inout mode st
                  (drop (Z.to_nat (bh_blockSize header)) remainingData))%loader.
Proof.
  intros Hne. destruct remainingData as [|b data']; [contradiction|]. reflexivity.
Qed.

(** What the receiver does from a header that ends the walk with the flag
    set, [evs] being what the walk itself emitted. *)
Lemma receiver_from_walk_stop host env walk_fuel fuel inout mEventFd mode st
    remainingData h evs :
  receiver_walk host env walk_fuel inout mode st remainingData h
    = (Ret (set_stop st), evs) ->
  receiver_from_walk host env walk_fuel fuel inout mEventFd mode st remainingData h
  = (Ret tt,
     evs ++ [EvWriteBlocks (rs_instructions st)
               (ifs_writeBlocks env (h ++ evs) (rs_instructions st));
             EvWriteBlocks []
               (ifs_writeBlocks env
                  ((h ++ evs) ++ [EvWriteBlocks (rs_instructions st)
                                    (ifs_writeBlocks env (h ++ evs) (rs_instructions st))])
                  []);
             EvResetOutFd]).
Proof.
  intros Ewalk. unfold receiver_from_walk, bind at 1. rewrite Ewalk.
  unfold writeInstructions, writeBlocks, receiver_exit, bind, call, ret, emit.
  cbn [rs_instructions set_stop].
  rewrite receiver_loop_stopped by reflexivity.
  cbn [rs_instructions set_instructions app].
  rewrite !app_nil_r, <- !app_assoc. reflexivity.
Qed.

(** The loop reaches the walk: when the flag is clear, [poll] reports data
    on the channel and a chunk is read, the rest of the receiver's run is
    [receiver_from_walk] on that chunk. *)
Lemma receiver_loop_chunk host env fuel inout mEventFd mode st h e_poll e_chunk
    chunk r evs :
  rs_stop st = false ->
  stop_requested env h = false ->
  0 < inout -> inout <> mEventFd ->
  waitForDataOrSignal env inout mEventFd h = (Ret inout, e_poll) ->
  readChunk host env inout (rs_data st) (h ++ e_poll) = (Ret (true, chunk), e_chunk) ->
  receiver_from_walk host env (length chunk) fuel inout mEventFd mode
    (set_data chunk st) chunk ((h ++ e_poll) ++ e_chunk) = (r, evs) ->
  bind (receiver_loop host env (S fuel) inout mEventFd mode st) (receiver_exit env) h
  = (r, e_poll ++ e_chunk ++ evs).
Proof.
  intros Hstop Hreq Hpos Hne Epoll Echunk Erun.
  cbn [receiver_loop]. rewrite bind_assoc, bind_peek, Hstop, Hreq. cbn [orb].
  rewrite bind_assoc. eapply bind_run; [exact Epoll|].
  destruct (Z.eqb_spec inout 0); [lia|].
  destruct (Z.ltb_spec inout 0); [lia|].
  destruct (Z.eqb_spec inout mEventFd); [contradiction|].
  rewrite bind_assoc. eapply bind_run; [exact Echunk|].
  cbn [negb]. unfold receiver_chunk. rewrite !bind_assoc.
  rewrite <- Erun. unfold receiver_from_walk.
  apply bind_ext. intros st1 h1.
  rewrite bind_assoc. apply bind_ext. intros instructions h2.
  rewrite bind_ret. reflexivity.
Qed.

(** The other way a chunk can fail: when the chunk cannot be read, the
    receiver reports DATA_LOADER_UNRECOVERABLE and leaves the loop; it
    does not set the stop flag. *)
Lemma receiver_loop_read_failure host env fuel inout mEventFd mode st h e_poll e_chunk
    data :
  rs_stop st = false ->
  stop_requested env h = false ->
  0 < inout -> inout <> mEventFd ->
  waitForDataOrSignal env inout mEventFd h = (Ret inout, e_poll) ->
  readChunk host env inout (rs_data st) (h ++ e_poll) = (Ret (false, data), e_chunk) ->
  receiver_loop host env (S fuel) inout mEventFd mode st h
  = (Ret (set_data data st),
     e_poll ++ e_chunk ++ [EvReportStatus DATA_LOADER_UNRECOVERABLE])
  /\ rs_stop (set_data data st) = false.
Proof.
  intros Hstop Hreq Hpos Hne Epoll Echunk. split; [|exact Hstop].
  cbn [receiver_loop]. rewrite bind_peek, Hstop, Hreq. cbn [orb].
  eapply bind_run; [exact Epoll|].
  destruct (Z.eqb_spec inout 0); [lia|].
  destruct (Z.ltb_spec inout 0); [lia|].
  destruct (Z.eqb_spec inout mEventFd); [contradiction|].
  eapply bind_run; [exact Echunk|]. reflexivity.
Qed.

(** The walk ends within as many steps as the chunk has bytes. *)
Lemma receiver_walk_ends host env inout mode fuel :
  forall st remainingData h,
    (length remainingData <= fuel)%nat ->
    fst (receiver_walk host env fuel inout mode st remainingData h) <> OutOfFuel.
Proof.
  induction fuel as [|fuel IH]; intros st remainingData h Hlen.
  - destruct remainingData; [discriminate|simpl in Hlen; lia].
  - destruct remainingData as [|b data']; [discriminate|].
    rewrite receiver_walk_step by discriminate.
    destruct (Nat.lt_ge_cases (length (b :: data')) 10) as [Hs|Hl].
    { rewrite readHeader_short by exact Hs. discriminate. }
    destruct (readHeader host (b :: data')) as [header rest] eqn:Eh.
    assert (Hrest : (length rest <= fuel)%nat).
    { rewrite (readHeader_consumes _ _ _ _ Eh Hl), length_drop. simpl in *. lia. }
    destruct (is_sentinel header).
    { unfold bind, sendRequest, WriteFully, bind, call, ret. discriminate. }
    destruct (is_invalid header); [discriminate|].
    cbv zeta.
    destruct (negb (incfs_isValidFileId env (convertFileIndexToFileId mode (bh_fileIdx header)))).
    { apply IH. exact Hrest. }
    unfold bind.
    destruct (default (-1) (rs_writeFds st !! bh_fileIdx header) <? 0).
    + unfold openForSpecialOps, call.
      destruct (_ <? 0); [discriminate|].
      destruct (_ <? bh_blockSize header); [discriminate|].
      match goal with
      | |- context [receiver_walk host env fuel inout mode ?s ?d ?hh] =>
          specialize (IH s d hh); destruct (receiver_walk host env fuel inout mode s d hh)
      end.
      simpl in *. intros E. apply IH; [|now rewrite E].
      rewrite length_drop. lia.
    + unfold ret.
      destruct (_ <? 0); [discriminate|].
      destruct (_ <? bh_blockSize header); [discriminate|].
      match goal with
      | |- context [receiver_walk host env fuel inout mode ?s ?d ?hh] =>
          specialize (IH s d hh); destruct (receiver_walk host env fuel inout mode s d hh)
      end.
      simpl in *. intros E. apply IH; [|now rewrite E].
      rewrite length_drop. lia.
Qed.

(** C9: on fewer than ten bytes [readHeader] returns the default header,
    every field -1, and leaves the span as it is; that header is not the
    sentinel and is invalid, so a trailing fragment shorter than a header
    ends the walk at once with the stop flag set: the walk neither goes on
    nor faults, and it emits nothing. *)
Theorem readHeader_short_fragment (host : Endian) (data : list byte) :
  (length data < 10)%nat ->
  readHeader host data = (BlockHeader_default, data)
  /\ BlockHeader_default
     = {| bh_fileIdx := -1; bh_blockType := -1; bh_compressionType := -1;
          bh_blockIdx := -1; bh_blockSize := -1 |}
  /\ is_sentinel BlockHeader_default = false
  /\ is_invalid BlockHeader_default = true
  /\ (data <> [] ->
      forall env walk_fuel inout mode st h,
        receiver_walk host env (S walk_fuel) inout mode st data h
        = (Ret (set_stop st), [])).
Proof.
  intros Hlen. pose proof (readHeader_short host data Hlen) as Eh.
  split; [exact Eh|]. split; [reflexivity|]. split; [reflexivity|].
  split; [reflexivity|].
  intros Hne env walk_fuel inout mode st h.
  rewrite receiver_walk_step by exact Hne. rewrite Eh. reflexivity.
Qed.

(** *** The block assembler *)

Section AssemblerProofs.
Variable INCFS_DATA_FILE_BLOCK_SIZE : Z.
Variable env : Env.
Hypothesis block_size_range : 0 < INCFS_DATA_FILE_BLOCK_SIZE <= 65536.

Let BS := INCFS_DATA_FILE_BLOCK_SIZE.


Lemma push_full_blocks_spec incfsFd kind buffer n :
  forall blockIdx consumed blocks blockIdx' consumed' blocks',
    push_full_blocks BS n incfsFd kind blockIdx consumed buffer blocks
      = Some (blockIdx', consumed', blocks') ->
    exists new,
      blocks' = blocks ++ new
      /\ blockIdx' = blockIdx + Z.of_nat n
      /\ consumed' = consumed + Z.of_nat n * BS
      /\ Forall (full_block BS) new
      /\ pageIndex <$> new = seqZ blockIdx (Z.of_nat n).
Proof.
  induction n as [|n IH]; intros blockIdx consumed blocks blockIdx' consumed' blocks' E.
  - simpl in E. inversion E; subst. exists []. rewrite app_nil_r.
    repeat split; try lia. constructor.
  - simpl in E. unfold next_blockIdx in E.
    destruct (blockIdx <? INT32_MAX); [|discriminate].
    apply IH in E. destruct E as (new & -> & -> & -> & Hfull & Hpages).
    eexists (_ :: new). rewrite <- app_assoc. split; [reflexivity|].
    split; [lia|]. split; [lia|]. split.
    + constructor; [reflexivity|exact Hfull].
    + rewrite fmap_cons, Hpages. cbn [pageIndex].
      rewrite (seqZ_cons blockIdx (Z.of_nat (S n))) by lia.
      f_equal. f_equal; lia.
Qed.

(** One flush, entered with no block pending: it submits full blocks
    and, only when [eof] is set, at most one short block after them; the
    page indices continue from [blockIdx]. *)
Lemma flashToIncFs_spec incfsFd kind eof blockIdx buffer h r evs :
  flashToIncFs BS env incfsFd kind eof blockIdx buffer [] h = (r, evs) ->
  exists fulls short,
    submitted evs = fulls ++ short
    /\ Forall (full_block BS) fulls
    /\ (short = [] \/ (eof = true /\ exists b, short = [b] /\ short_block BS b))
    /\ pageIndex <$> submitted evs
       = seqZ blockIdx (Z.of_nat (length (submitted evs)))
    /\ (forall ok blockIdx' buffer' blocks',
          r = Ret (ok, (blockIdx', buffer', blocks')) ->
          blockIdx' = blockIdx + Z.of_nat (length (submitted evs))
          /\ blocks' = []).
Proof.
  unfold flashToIncFs. intros E.
  set (size := Z.of_nat (length buffer)) in *.
  destruct (push_full_blocks BS (Z.to_nat (size / BS)) incfsFd kind blockIdx 0 buffer [])
    as [[[blockIdx1 consumed1] blocks1]|] eqn:Epush.
  2:{ inversion E; subst. exists [], [].
      split; [reflexivity|]. split; [constructor|]. split; [now left|].
      split; [reflexivity|]. intros; discriminate. }
  apply push_full_blocks_spec in Epush.
  destruct Epush as (new & -> & -> & -> & Hfull & Hpages).
  rewrite app_nil_l in *.
  assert (Hlen : Z.of_nat (length new) = Z.of_nat (Z.to_nat (size / BS))).
  { rewrite <- (length_fmap pageIndex new), Hpages, length_seqZ, Nat2Z.id. reflexivity. }
  rewrite <- Hlen in *.
  assert (Hremain : 0 <= size - size / BS * BS < BS).
  { pose proof (Z.mod_pos_bound size BS ltac:(unfold BS; lia)).
    pose proof (Z.div_mod size BS ltac:(unfold BS; lia)). lia. }
  assert (Eu64 : uint64 (size - size / BS * BS) = size - size / BS * BS).
  { unfold uint64, to_unsigned. apply Z.mod_small. unfold BS in *. lia. }
  rewrite Eu64 in E.
  set (remain := size - size / BS * BS) in *.
  destruct (negb (remain =? 0) && eof) eqn:Eshort.
  - apply andb_true_iff in Eshort. destruct Eshort as [Hnz ->].
    apply negb_true_iff, Z.eqb_neq in Hnz.
    unfold next_blockIdx in E.
    destruct (blockIdx + Z.of_nat (length new) <? INT32_MAX).
    2:{ rewrite bind_fault in E. inversion E; subst. exists [], [].
        split; [reflexivity|]. split; [constructor|]. split; [now left|].
        split; [reflexivity|]. intros; discriminate. }
    rewrite bind_ret in E. unfold writeBlocks in E. rewrite bind_call in E.
    set (short := {| fileFd := incfsFd; pageIndex := blockIdx + Z.of_nat (length new);
                     compression := INCFS_COMPRESSION_KIND_NONE; kind := kind;
                     dataSize := uint16 remain;
                     data := slice buffer (0 + Z.of_nat (length new) * BS) remain |}) in *.
    injection E as Er Eevs. subst evs r.
    exists new, [short].
    assert (Esub : forall tl : Outcome (bool * Assembler) * list Event, snd tl = [] ->
              submitted (EvWriteBlocks (new ++ [short])
                           (ifs_writeBlocks env h (new ++ [short])) :: snd tl)
              = new ++ [short]).
    { intros tl ->. unfold submitted. simpl. now rewrite app_nil_r. }
    rewrite Esub by (destruct (_ <? 0); reflexivity).
    split; [reflexivity|]. split; [exact Hfull|]. split.
    { right. split; [reflexivity|]. exists short. split; [reflexivity|].
      unfold short_block, short. cbn [dataSize]. unfold uint16, to_unsigned.
      rewrite Z.mod_small by (unfold BS in *; lia). lia. }
    rewrite length_app, Nat2Z.inj_add. cbn [length].
    split.
    { rewrite fmap_app, Hpages, seqZ_app by lia. reflexivity. }
    intros ok b' buf' bl' Er.
    destruct (_ <? 0); inversion Er; subst; split; (reflexivity || lia).
  - rewrite bind_ret in E. unfold writeBlocks in E. rewrite bind_call in E.
    injection E as Er Eevs. subst evs r.
    exists new, [].
    assert (Esub : forall tl : Outcome (bool * Assembler) * list Event, snd tl = [] ->
              submitted (EvWriteBlocks new (ifs_writeBlocks env h new) :: snd tl) = new).
    { intros tl ->. unfold submitted. simpl. now rewrite app_nil_r. }
    rewrite Esub by (destruct (_ <? 0); reflexivity).
    rewrite app_nil_r.
    split; [reflexivity|]. split; [exact Hfull|]. split; [now left|].
    split; [exact Hpages|].
    intros ok b' buf' bl' Er.
    destruct (_ <? 0); inversion Er; subst; split; (reflexivity || lia).
Qed.


Lemma copyToIncFs_loop_step fuel incfsFd kind incomingFd waitOnEof
    remaining totalSize blockIdx buffer blocks :
  copyToIncFs_loop BS env (S fuel) incfsFd kind incomingFd waitOnEof
    remaining totalSize blockIdx buffer blocks
  = (if 0 <? remaining then
       let size := Z.of_nat (length buffer) in
       if uint64 (capacity - size) <? BS then
         '(ok, (blockIdx, buffer, blocks)) <-
           flashToIncFs BS env incfsFd kind false blockIdx buffer blocks;;
         if negb ok then ret (false, (blockIdx, buffer, blocks))
         else copyToIncFs_loop BS env fuel incfsFd kind incomingFd waitOnEof
                remaining totalSize blockIdx buffer blocks
       else
         let toRead := Z.min remaining (int64 (uint64 (capacity - size))) in
         let buffer := resize buffer (size + toRead) in
         r <- read env incomingFd toRead;;
         match r with
         | ReadFailed => ret (false, (blockIdx, buffer, blocks))
         | ReadOk bytes =>
             let buffer := write_at buffer size bytes in
             let read := Z.of_nat (length bytes) in
             if read =? 0 then
               if waitOnEof then
                 emit (EvSleep 10);;
                 copyToIncFs_loop BS env fuel incfsFd kind incomingFd waitOnEof
                   remaining totalSize blockIdx buffer blocks
               else ret (true, (blockIdx, buffer, blocks))
             else
               let buffer := resize buffer (size + read) in
               copyToIncFs_loop BS env fuel incfsFd kind incomingFd waitOnEof
                 (remaining - read) (totalSize + read) blockIdx buffer blocks
         end
     else ret (true, (blockIdx, buffer, blocks)))%loader.
Proof. reflexivity. Qed.

Lemma run_ok_nil blockIdx ok buffer :
  run_ok blockIdx (Ret (ok, (blockIdx, buffer, []))) [].
Proof.
  split; [reflexivity|]. intros ? ? ? ? E. inversion E; subst. simpl. split; [lia|reflexivity].
Qed.

Lemma run_ok_skip blockIdx r e evs :
  submitted [e] = [] -> run_ok blockIdx r evs -> run_ok blockIdx r (e :: evs).
Proof.
  intros He. unfold run_ok. change (e :: evs) with ([e] ++ evs).
  rewrite submitted_app, He. exact id.
Qed.

Lemma run_ok_app blockIdx blockIdx1 r e1 e2 :
  pageIndex <$> submitted e1 = seqZ blockIdx (Z.of_nat (length (submitted e1))) ->
  blockIdx1 = blockIdx + Z.of_nat (length (submitted e1)) ->
  run_ok blockIdx1 r e2 ->
  run_ok blockIdx r (e1 ++ e2).
Proof.
  intros H1 -> [H2 H3]. unfold run_ok.
  rewrite submitted_app, fmap_app, length_app, Nat2Z.inj_add, H1, H2, seqZ_app by lia.
  split; [reflexivity|].
  intros ok b' buf' bl' E. destruct (H3 _ _ _ _ E) as [-> ->]. split; [lia|reflexivity].
Qed.

Lemma skip_event blockIdx r e evs :
  submitted [e] = [] ->
  Forall (full_block BS) (submitted evs) /\ run_ok blockIdx r evs ->
  Forall (full_block BS) (submitted ([e] ++ evs)) /\ run_ok blockIdx r ([e] ++ evs).
Proof.
  intros He [H1 H2]. split.
  - now rewrite submitted_app, He.
  - apply run_ok_skip; assumption.
Qed.

Lemma copyToIncFs_loop_spec incfsFd kind incomingFd waitOnEof fuel :
  forall remaining totalSize blockIdx buffer h r evs,
    copyToIncFs_loop BS env fuel incfsFd kind incomingFd waitOnEof
      remaining totalSize blockIdx buffer [] h = (r, evs) ->
    Forall (full_block BS) (submitted evs) /\ run_ok blockIdx r evs.
Proof.
  induction fuel as [|fuel IH]; intros remaining totalSize blockIdx buffer h r evs E.
  - simpl in E. destruct (0 <? remaining); inversion E; subst.
    + split; [constructor|]. split; [reflexivity|]. intros; discriminate.
    + split; [constructor|]. apply run_ok_nil.
  - rewrite copyToIncFs_loop_step in E.
    destruct (0 <? remaining).
    2:{ inversion E; subst. split; [constructor|]. apply run_ok_nil. }
    cbv zeta in E.
    destruct (uint64 (capacity - Z.of_nat (length buffer)) <? BS).
    + apply bind_inv in E.
      destruct E as [(a & e1 & e2 & Eflash & Ek & ->) | [[Eflash ->] | [Eflash ->]]].
      * destruct (flashToIncFs_spec _ _ _ _ _ _ _ _ Eflash)
          as (fulls & short & Esub & Hfull & Hshort & Hpages & Hret).
        destruct Hshort as [-> | [? _]]; [|discriminate].
        rewrite app_nil_r in Esub.
        destruct a as [ok [[blockIdx1 buffer1] blocks1]].
        destruct (Hret _ _ _ _ eq_refl) as [-> ->].
        destruct ok; cbn [negb] in Ek.
        -- apply IH in Ek. destruct Ek as [Hfull2 Hrun2].
           split.
           ++ rewrite submitted_app, Esub. apply Forall_app. now split.
           ++ eapply run_ok_app; [exact Hpages|reflexivity|exact Hrun2].
        -- apply ret_inv in Ek. destruct Ek as [-> ->].
           split.
           ++ rewrite app_nil_r, Esub. exact Hfull.
           ++ eapply run_ok_app; [exact Hpages|reflexivity|]. apply run_ok_nil.
      * destruct (flashToIncFs_spec _ _ _ _ _ _ _ _ Eflash)
          as (fulls & short & Esub & Hfull & Hshort & Hpages & Hret).
        destruct Hshort as [-> | [? _]]; [|discriminate].
        rewrite app_nil_r in Esub. rewrite Esub. split; [exact Hfull|].
        split; [exact Hpages|]. intros; discriminate.
      * destruct (flashToIncFs_spec _ _ _ _ _ _ _ _ Eflash)
          as (fulls & short & Esub & Hfull & Hshort & Hpages & Hret).
        destruct Hshort as [-> | [? _]]; [|discriminate].
        rewrite app_nil_r in Esub. rewrite Esub. split; [exact Hfull|].
        split; [exact Hpages|]. intros; discriminate.
    + apply bind_inv in E.
      destruct E as [(a & e1 & e2 & Eread & Ek & ->) | [[Eread ->] | [Eread ->]]];
        apply call_inv in Eread; destruct Eread as [Ea Ee]; try discriminate.
      injection Ea as ->. subst e1.
      apply skip_event; [reflexivity|].
      destruct (sys_read env h incomingFd _) as [|bs].
      * apply ret_inv in Ek. destruct Ek as [-> ->]. split; [constructor|]. apply run_ok_nil.
      * cbv zeta in Ek.
        destruct (Z.of_nat (length (take _ bs)) =? 0).
        -- destruct waitOnEof.
           ++ apply bind_inv in Ek.
              destruct Ek as [(a & e1 & e3 & Eemit & Ek & ->) | [[Eemit ->] | [Eemit ->]]];
                try discriminate.
              unfold emit in Eemit. injection Eemit as <- <-.
              apply skip_event; [reflexivity|]. apply IH in Ek. exact Ek.
           ++ apply ret_inv in Ek. destruct Ek as [-> ->].
              split; [constructor|]. apply run_ok_nil.
        -- apply IH in Ek. exact Ek.
Qed.

(** A flush that is not the last one submits full blocks only. *)
Lemma flashToIncFs_not_eof incfsFd kind blockIdx buffer h r evs :
  flashToIncFs BS env incfsFd kind false blockIdx buffer [] h = (r, evs) ->
  Forall (full_block BS) (submitted evs).
Proof.
  intros E. destruct (flashToIncFs_spec _ _ _ _ _ _ _ _ E)
    as (fulls & short & Esub & Hfull & Hshort & _).
  destruct Hshort as [-> | [? _]]; [|discriminate].
  now rewrite Esub, app_nil_r.
Qed.

(** The shape of a run of [copyToIncFs]: the events of the loop, then
    those of the flush with [eof] set, if there is one. *)
Lemma copyToIncFs_shape fuel incfsFd size kind incomingFd waitOnEof buffer h r evs :
  copyToIncFs BS env fuel incfsFd size kind incomingFd waitOnEof buffer [] h = (r, evs) ->
  exists evs_loop evs_eof r_loop,
    evs = evs_loop ++ evs_eof
    /\ copyToIncFs_loop BS env fuel incfsFd kind incomingFd waitOnEof size 0 0 buffer [] h
       = (r_loop, evs_loop)
    /\ (evs_eof = []
        \/ exists blockIdx buffer' r_eof,
             r_loop = Ret (true, (blockIdx, buffer', []))
             /\ flashToIncFs BS env incfsFd kind true blockIdx buffer' [] (h ++ evs_loop)
                = (r_eof, evs_eof))
    /\ (forall ok buffer' blocks', r = Ret (ok, (buffer', blocks')) -> blocks' = []).
Proof.
  unfold copyToIncFs. intros E. apply bind_inv in E.
  destruct E as [(a & e1 & e2 & Eloop & Ek & ->) | [[Eloop ->] | [Eloop ->]]].
  - destruct a as [ok [[blockIdx1 buffer1] blocks1]].
    destruct (copyToIncFs_loop_spec _ _ _ _ _ _ _ _ _ _ _ _ Eloop) as [_ [_ Hret]].
    destruct (Hret _ _ _ _ eq_refl) as [_ ->].
    exists e1, e2, (Ret (ok, (blockIdx1, buffer1, []))).
    split; [reflexivity|]. split; [exact Eloop|].
    destruct ok; cbn [negb] in Ek.
    + destruct buffer1 as [|b buffer1].
      * apply ret_inv in Ek. destruct Ek as [-> ->].
        split; [now left|]. intros ? ? ? Er. now inversion Er.
      * split.
        -- right. apply bind_inv in Ek.
           destruct Ek as [(a & e3 & e4 & Eflash & Ek & ->) | [[Eflash ->] | [Eflash ->]]].
           ++ destruct a as [ok2 [[blockIdx2 buffer2] blocks2]].
              apply ret_inv in Ek. destruct Ek as [-> ->]. rewrite app_nil_r.
              eauto.
           ++ eauto.
           ++ eauto.
        -- intros ok' buffer' blocks' ->. apply bind_inv in Ek.
           destruct Ek as [(a & e3 & e4 & Eflash & Ek & ->) | [[Eflash E'] | [Eflash E']]];
             try discriminate.
           destruct a as [ok2 [[blockIdx2 buffer2] blocks2]].
           apply ret_inv in Ek. destruct Ek as [Er ->]. inversion Er; subst.
           destruct (flashToIncFs_spec _ _ _ _ _ _ _ _ Eflash)
             as (_ & _ & _ & _ & _ & _ & Hret2).
           now destruct (Hret2 _ _ _ _ eq_refl).
    + apply ret_inv in Ek. destruct Ek as [-> ->].
      split; [now left|]. intros ? ? ? Er. now inversion Er.
  - exists evs, [], OutOfFuel. rewrite app_nil_r.
    split; [reflexivity|]. split; [exact Eloop|]. split; [now left|]. intros; discriminate.
  - exists evs, [], Fault. rewrite app_nil_r.
    split; [reflexivity|]. split; [exact Eloop|]. split; [now left|]. intros; discriminate.
Qed.

(** C1: in a run of [copyToIncFs] on one input, every block submitted
    has [dataSize] equal to the block size, but at most one, which is
    shorter than a block and not empty; that block is the last one
    submitted, and it comes from the flush with [eof] set, which follows
    the loop.  A flush without [eof] submits full blocks only. *)
Theorem block_size_invariant (fuel : nat) (incfsFd size kind incomingFd : Z)
    (waitOnEof : bool) (buffer : list byte) (h : History)
    (r : Outcome (bool * (list byte * list IncFsDataBlock))) (evs : list Event) :
  copyToIncFs BS env fuel incfsFd size kind incomingFd waitOnEof buffer [] h = (r, evs) ->
  (exists fulls short,
     submitted evs = fulls ++ short
     /\ Forall (full_block BS) fulls
     /\ (short = []
         \/ exists b,
              short = [b] /\ short_block BS b
              /\ exists evs_loop evs_eof blockIdx buffer' r_eof,
                   evs = evs_loop ++ evs_eof
                   /\ Forall (full_block BS) (submitted evs_loop)
                   /\ flashToIncFs BS env incfsFd kind true blockIdx buffer' []
                        (h ++ evs_loop) = (r_eof, evs_eof)
                   /\ last (submitted evs_eof) = Some b))
  /\ (forall blockIdx buffer' h' r' evs',
        flashToIncFs BS env incfsFd kind false blockIdx buffer' [] h' = (r', evs') ->
        Forall (full_block BS) (submitted evs')).
Proof.
  intros E. split; [|intros; eapply flashToIncFs_not_eof; eassumption].
  destruct (copyToIncFs_shape _ _ _ _ _ _ _ _ _ _ E)
    as (evs_loop & evs_eof & r_loop & -> & Eloop & Heof & _).
  destruct (copyToIncFs_loop_spec _ _ _ _ _ _ _ _ _ _ _ _ Eloop) as [Hloop _].
  destruct Heof as [-> | (blockIdx & buffer' & r_eof & -> & Eflash)].
  - exists (submitted evs_loop), []. rewrite !app_nil_r.
    split; [reflexivity|]. split; [exact Hloop|]. now left.
  - destruct (flashToIncFs_spec _ _ _ _ _ _ _ _ Eflash)
      as (fulls & short & Esub & Hfull & Hshort & _).
    exists (submitted evs_loop ++ fulls), short.
    rewrite submitted_app, Esub, app_assoc.
    split; [reflexivity|]. split; [apply Forall_app; now split|].
    destruct Hshort as [-> | [_ (b & -> & Hb)]]; [now left|].
    right. exists b. split; [reflexivity|]. split; [exact Hb|].
    exists evs_loop, evs_eof, blockIdx, buffer', r_eof.
    split; [reflexivity|]. split; [exact Hloop|]. split; [exact Eflash|].
    rewrite Esub. apply last_snoc.
Qed.

(** C2: in a run of [copyToIncFs] on one input, the page indices of the
    blocks submitted, over all flushes in order, are 0, 1, 2, ...: the
    k-th block has index k, whatever the reads return and wherever the
    flushes fall. *)
Theorem page_indices_consecutive (fuel : nat) (incfsFd size kind incomingFd : Z)
    (waitOnEof : bool) (buffer : list byte) (h : History)
    (r : Outcome (bool * (list byte * list IncFsDataBlock))) (evs : list Event) :
  copyToIncFs BS env fuel incfsFd size kind incomingFd waitOnEof buffer [] h = (r, evs) ->
  pageIndex <$> submitted evs = seqZ 0 (Z.of_nat (length (submitted evs)))
  /\ forall k b, submitted evs !! k = Some b -> pageIndex b = Z.of_nat k.
Proof.
  intros E.
  assert (Hseq : pageIndex <$> submitted evs = seqZ 0 (Z.of_nat (length (submitted evs)))).
  { destruct (copyToIncFs_shape _ _ _ _ _ _ _ _ _ _ E)
      as (evs_loop & evs_eof & r_loop & -> & Eloop & Heof & _).
    destruct (copyToIncFs_loop_spec _ _ _ _ _ _ _ _ _ _ _ _ Eloop) as [_ [Hpages Hret]].
    destruct Heof as [-> | (blockIdx & buffer' & r_eof & -> & Eflash)].
    - now rewrite app_nil_r.
    - destruct (Hret _ _ _ _ eq_refl) as [-> _].
      destruct (flashToIncFs_spec _ _ _ _ _ _ _ _ Eflash)
        as (_ & _ & _ & _ & _ & Hpages2 & _).
      rewrite submitted_app, fmap_app, length_app, Nat2Z.inj_add, Hpages, Hpages2.
      rewrite seqZ_app by lia. reflexivity. }
  split; [exact Hseq|].
  intros k b Hk.
  assert (Hk' : (pageIndex <$> submitted evs) !! k = Some (pageIndex b))
    by (rewrite list_lookup_fmap, Hk; reflexivity).
  rewrite Hseq in Hk'. apply lookup_seqZ in Hk'. lia.
Qed.

End AssemblerProofs.

(** *** The prepare-image driver *)

Section PrepareProofs.
Variable INCFS_DATA_FILE_BLOCK_SIZE : Z.
Variable host : Endian.
Variable env : Env.

Let BS := INCFS_DATA_FILE_BLOCK_SIZE.

Lemma ReadFully_reads fd count h r evs :
  ReadFully env fd count h = (r, evs) -> only_reads evs.
Proof.
  unfold ReadFully. destruct (count =? 0); intros E.
  - apply ret_inv in E. destruct E as [_ ->]. constructor.
  - apply call_inv in E. destruct E as [_ ->]. repeat constructor.
Qed.

Lemma readLEInt32_reads fd h r evs :
  readLEInt32 host env fd h = (r, evs) -> only_reads evs.
Proof.
  unfold readLEInt32. intros E. apply bind_inv in E.
  destruct E as [(a & e1 & e2 & Em & Ek & ->) | [[Em ->] | [Em ->]]];
    apply ReadFully_reads in Em; try exact Em.
  apply Forall_app. split; [exact Em|].
  destruct a; inversion Ek; subst; constructor.
Qed.

Lemma readBytes_reads fd h r evs :
  readBytes host env fd h = (r, evs) -> only_reads evs.
Proof.
  unfold readBytes. intros E. apply bind_inv in E.
  destruct E as [(a & e1 & e2 & Em & Ek & ->) | [[Em ->] | [Em ->]]];
    apply readLEInt32_reads in Em; try exact Em.
  apply Forall_app. split; [exact Em|].
  destruct (a <? 0); [inversion Ek; subst; constructor|].
  apply bind_inv in Ek.
  destruct Ek as [(a' & e3 & e4 & Em' & Ek & ->) | [[Em' ->] | [Em' ->]]];
    apply ReadFully_reads in Em'; try exact Em'.
  apply Forall_app. split; [exact Em'|].
  apply ret_inv in Ek. destruct Ek as [_ ->]. constructor.
Qed.

Lemma skipIdSigHeaders_reads fd h r evs :
  skipIdSigHeaders host env fd h = (r, evs) -> only_reads evs.
Proof.
  unfold skipIdSigHeaders. intros E. apply bind_inv in E.
  destruct E as [(a & e1 & e2 & Em & Ek & ->) | [[Em ->] | [Em ->]]];
    apply readLEInt32_reads in Em; try exact Em.
  apply Forall_app. split; [exact Em|]. clear Em.
  apply bind_inv in Ek.
  destruct Ek as [(a' & e3 & e4 & Em & Ek & ->) | [[Em ->] | [Em ->]]];
    apply readBytes_reads in Em; try exact Em.
  apply Forall_app. split; [exact Em|]. clear Em.
  apply bind_inv in Ek.
  destruct Ek as [(a'' & e5 & e6 & Em & Ek & ->) | [[Em ->] | [Em ->]]];
    apply readBytes_reads in Em; try exact Em.
  apply Forall_app. split; [exact Em|]. clear Em.
  eapply readLEInt32_reads. exact Ek.
Qed.

Lemma only_reads_quiet evs : only_reads evs -> opened evs = [] /\ submitted evs = [].
Proof.
  induction 1 as [|e evs He _ [IH1 IH2]]; [now split|].
  change (e :: evs) with ([e] ++ evs). rewrite opened_app, submitted_app, IH1, IH2.
  destruct e; try contradiction; now split.
Qed.

(** The files before the one that fails are processed as if they were
    alone. *)
Lemma prepare_files_app fuel pre :
  forall files streamingFd streamingMode buffer blocks h
         streamingFd' streamingMode' buffer' blocks' e1 r e2,
    prepare_files BS host env fuel pre streamingFd streamingMode buffer blocks h
      = (Ret (true, (streamingFd', streamingMode', buffer', blocks')), e1) ->
    prepare_files BS host env fuel files streamingFd' streamingMode' buffer' blocks'
      (h ++ e1) = (r, e2) ->
    prepare_files BS host env fuel (pre ++ files) streamingFd streamingMode buffer blocks h
      = (r, e1 ++ e2).
Proof.
  induction pre as [|file pre IH];
    intros files sF sM buf bl h sF' sM' buf' bl' e1 r e2 Epre Efiles.
  - simpl in Epre. apply ret_inv in Epre. destruct Epre as [Er ->].
    inversion Er; subst. rewrite app_nil_r in Efiles. exact Efiles.
  - cbn [prepare_files app] in *.
    apply bind_inv in Epre.
    destruct Epre as [(inputs & ea & eb & Eopen & Ek & ->) | [[_ ?] | [_ ?]]];
      try discriminate.
    rewrite <- (app_assoc ea eb e2). eapply bind_run; [exact Eopen|].
    destruct inputs as [|input inputs].
    { apply ret_inv in Ek. destruct Ek as [? _]. discriminate. }
    apply bind_inv in Ek.
    destruct Ek as [(incfsFd & ec & ed & Efd & Ek & ->) | [[_ ?] | [_ ?]]];
      try discriminate.
    rewrite <- (app_assoc ec ed e2). eapply bind_run; [exact Efd|].
    destruct (incfsFd <? 0).
    { apply ret_inv in Ek. destruct Ek as [? _]. discriminate. }
    apply bind_inv in Ek.
    destruct Ek as [(a & ee & ef & Ecopy & Ek & ->) | [[_ ?] | [_ ?]]];
      try discriminate.
    rewrite <- (app_assoc ee ef e2). eapply bind_run; [exact Ecopy|].
    destruct a as [ok [[[sF1 sM1] buf1] bl1]].
    destruct ok; cbn [negb] in *.
    2:{ apply ret_inv in Ek. destruct Ek as [? _]. discriminate. }
    eapply IH; [exact Ek|].
    rewrite <- !app_assoc. exact Efiles.
Qed.

(** C8: when the loop of [onPrepareImage] reaches a LOCAL_FILE whose
    .idsig is present and declares a tree size other than
    [verityTreeSizeForFile] of the declared file size, [openInputs]
    returns no input and [onPrepareImage] returns false at once: from the
    point the file is reached the only calls are the lookup of the
    sidecar and the reads of its preamble, so the file of the filesystem
    is not opened and no block is written. *)
Theorem idsig_mismatch_aborts (fuel : nat) (mArgs : list byte)
    (pre : list InstallationFile) (file : InstallationFile) (rest : list InstallationFile)
    (h0 : History) (e_pre : list Event)
    (streamingFd : Z) (streamingMode : option MetadataMode)
    (buffer : list byte) (blocks : list IncFsDataBlock)
    (path : list byte) (treeSize actualTreeSize : Z) (evs_idsig : list Event) :
  let lookup := EvLookupShellCommand (c_str mArgs) true in
  jni_lookupShellCommand env h0 (c_str mArgs) = true ->
  prepare_files BS host env fuel pre (-1) None [] [] (h0 ++ [lookup])
    = (Ret (true, (streamingFd, streamingMode, buffer, blocks)), e_pre) ->
  let h := (h0 ++ [lookup]) ++ e_pre in
  file_metadata file = byte_of_Z (MetadataMode_value LOCAL_FILE) :: path ->
  let idsigPath := c_str (path ++ idsig_suffix) in
  let idsigFd := jni_getLocalFile env h idsigPath in
  fd_ok idsigFd = true ->
  verityTreeSizeForFile BS (file_size file) = Some treeSize ->
  skipIdSigHeaders host env idsigFd (h ++ [EvGetLocalFile idsigPath idsigFd])
    = (Ret actualTreeSize, evs_idsig) ->
  treeSize <> actualTreeSize ->
  let evs := EvGetLocalFile idsigPath idsigFd :: evs_idsig in
  openInputs BS host env (file_size file) (file_metadata file) h = (Ret [], evs)
  /\ onPrepareImage BS host env fuel mArgs (pre ++ file :: rest) h0
     = (Ret false, lookup :: e_pre ++ evs)
  /\ opened evs = []
  /\ submitted evs = [].
Proof.
  intros lookup Hshell Epre h Hmeta idsigPath idsigFd Hfd Htree Eskip Hne evs.
  assert (Eopen : openInputs BS host env (file_size file) (file_metadata file) h
                  = (Ret [], evs)).
  { unfold openInputs. rewrite Hmeta. cbn [read_int8].
    change (default (MetadataMode_value STDIN)
              (Some (int8 (byte_to_Z (byte_of_Z (MetadataMode_value LOCAL_FILE))))))
      with (MetadataMode_value LOCAL_FILE).
    rewrite Z.eqb_refl. unfold openLocalFile.
    replace evs with ([EvGetLocalFile idsigPath idsigFd] ++ evs_idsig ++ [])
      by (unfold evs; now rewrite app_nil_r).
    eapply bind_run; [reflexivity|].
    fold idsigPath. fold idsigFd. rewrite Hfd.
    eapply (bind_run _ _ _ None).
    2: reflexivity.
    unfold verityTreeSize. fold BS. rewrite Htree, bind_ret.
    rewrite <- (app_nil_r evs_idsig). eapply bind_run; [exact Eskip|].
    destruct (Z.eqb_spec treeSize actualTreeSize); [contradiction|]. reflexivity. }
  split; [exact Eopen|].
  split.
  - unfold onPrepareImage.
    replace (lookup :: e_pre ++ evs) with ([lookup] ++ (e_pre ++ evs) ++ [])
      by now rewrite app_nil_r.
    eapply bind_run.
    { unfold call. rewrite Hshell. reflexivity. }
    cbn [negb].
    eapply (bind_run _ _ _ (false, (streamingFd, streamingMode, buffer, blocks))).
    2: reflexivity.
    eapply prepare_files_app; [exact Epre|].
    cbn [prepare_files]. rewrite <- (app_nil_r evs).
    eapply bind_run; [exact Eopen|]. reflexivity.
  - apply only_reads_quiet. constructor; [reflexivity|].
    eapply skipIdSigHeaders_reads. exact Eskip.
Qed.

End PrepareProofs.

Section DriverInvariant.
Variable INCFS_DATA_FILE_BLOCK_SIZE : Z.
Variable host : Endian.
Variable env : Env.
Hypothesis block_size_range : 0 < INCFS_DATA_FILE_BLOCK_SIZE <= 65536.

Let BS := INCFS_DATA_FILE_BLOCK_SIZE.

(** [copyToIncFs] leaves no block pending. *)
Lemma copyToIncFs_blocks_empty fuel incfsFd size kind incomingFd waitOnEof buffer h
    ok buffer' blocks' evs :
  copyToIncFs BS env fuel incfsFd size kind incomingFd waitOnEof buffer [] h
    = (Ret (ok, (buffer', blocks')), evs) ->
  blocks' = [].
Proof.
  intros E.
  destruct (copyToIncFs_shape _ env block_size_range _ _ _ _ _ _ _ _ _ _ E)
    as (_ & _ & _ & _ & _ & _ & Hret).
  eapply Hret. reflexivity.
Qed.

(** So every call of [copyToIncFs] by the driver, which starts with no
    block pending, is entered with no block pending. *)
Lemma copy_inputs_blocks_empty fuel incfsFd inputs :
  forall streamingFd streamingMode buffer h ok streamingFd' streamingMode' buffer' blocks' evs,
    copy_inputs BS env fuel incfsFd inputs streamingFd streamingMode buffer [] h
      = (Ret (ok, (streamingFd', streamingMode', buffer', blocks')), evs) ->
    blocks' = [].
Proof.
  induction inputs as [|input inputs IH];
    intros sF sM buffer h ok sF' sM' buffer' blocks' evs E.
  - cbn [copy_inputs] in E. apply ret_inv in E. destruct E as [E _]. now inversion E.
  - cbn [copy_inputs] in E. apply bind_inv in E.
    destruct E as [([sF1 sM1] & e1 & e2 & _ & Ek & ->) | [[_ ?] | [_ ?]]];
      try discriminate.
    apply bind_inv in Ek.
    destruct Ek as [([ok1 [buf1 bl1]] & e3 & e4 & Ecopy & Ek & ->) | [[_ ?] | [_ ?]]];
      try discriminate.
    apply copyToIncFs_blocks_empty in Ecopy. subst bl1.
    destruct ok1; cbn [negb] in Ek.
    + eapply IH. exact Ek.
    + apply ret_inv in Ek. destruct Ek as [Ek _]. now inversion Ek.
Qed.

Lemma prepare_files_blocks_empty fuel addedFiles :
  forall streamingFd streamingMode buffer h ok streamingFd' streamingMode' buffer' blocks' evs,
    prepare_files BS host env fuel addedFiles streamingFd streamingMode buffer [] h
      = (Ret (ok, (streamingFd', streamingMode', buffer', blocks')), evs) ->
    blocks' = [].
Proof.
  induction addedFiles as [|file addedFiles IH];
    intros sF sM buffer h ok sF' sM' buffer' blocks' evs E.
  - cbn [prepare_files] in E. apply ret_inv in E. destruct E as [E _]. now inversion E.
  - cbn [prepare_files] in E. apply bind_inv in E.
    destruct E as [(inputs & e1 & e2 & _ & Ek & ->) | [[_ ?] | [_ ?]]];
      try discriminate.
    destruct inputs as [|input inputs].
    { apply ret_inv in Ek. destruct Ek as [Ek _]. now inversion Ek. }
    apply bind_inv in Ek.
    destruct Ek as [(incfsFd & e3 & e4 & _ & Ek & ->) | [[_ ?] | [_ ?]]];
      try discriminate.
    destruct (incfsFd <? 0).
    { apply ret_inv in Ek. destruct Ek as [Ek _]. now inversion Ek. }
    apply bind_inv in Ek.
    destruct Ek as [([ok1 [[[sF1 sM1] buf1] bl1]] & e5 & e6 & Ecopy & Ek & ->)
                   | [[_ ?] | [_ ?]]];
      try discriminate.
    apply copy_inputs_blocks_empty in Ecopy. subst bl1.
    destruct ok1; cbn [negb] in Ek.
    + eapply IH. exact Ek.
    + apply ret_inv in Ek. destruct Ek as [Ek _]. now inversion Ek.
Qed.

End DriverInvariant.

(** *** The theorems at concrete inputs *)

Lemma block_size_invariant_witness :
  let env := script_env (fun _ => -1) two_blocks_and_three [] [] in
  let run := copyToIncFs 4096 env 10 7 8195 INCFS_BLOCK_KIND_DATA 3 false [] [] [] in
  (length (submitted (snd run)) = 3%nat)
  /\ ((exists fulls short,
         submitted (snd run) = fulls ++ short
         /\ Forall (full_block 4096) fulls
         /\ (short = []
             \/ exists b,
                  short = [b] /\ short_block 4096 b
                  /\ exists evs_loop evs_eof blockIdx buffer' r_eof,
                       snd run = evs_loop ++ evs_eof
                       /\ Forall (full_block 4096) (submitted evs_loop)
                       /\ flashToIncFs 4096 env 7 INCFS_BLOCK_KIND_DATA true blockIdx buffer' []
                            ([] ++ evs_loop) = (r_eof, evs_eof)
                       /\ last (submitted evs_eof) = Some b))
      /\ (forall blockIdx buffer' h' r' evs',
            flashToIncFs 4096 env 7 INCFS_BLOCK_KIND_DATA false blockIdx buffer' [] h'
              = (r', evs') ->
            Forall (full_block 4096) (submitted evs'))).
Proof.
  intros env run. split; [vm_compute; reflexivity|].
  apply (block_size_invariant 4096 env ltac:(lia) 10 7 8195 INCFS_BLOCK_KIND_DATA 3 false
           [] [] (fst run) (snd run)).
  vm_compute. reflexivity.
Defined.

Lemma page_indices_consecutive_witness :
  let env := script_env (fun _ => -1) two_blocks_and_three [] [] in
  let run := copyToIncFs 4096 env 10 7 8195 INCFS_BLOCK_KIND_DATA 3 false [] [] [] in
  pageIndex <$> submitted (snd run) = [0; 1; 2]
  /\ (pageIndex <$> submitted (snd run) = seqZ 0 (Z.of_nat (length (submitted (snd run))))
      /\ forall k b, submitted (snd run) !! k = Some b -> pageIndex b = Z.of_nat k).
Proof.
  intros env run. split; [vm_compute; reflexivity|].
  apply (page_indices_consecutive 4096 env ltac:(lia) 10 7 8195 INCFS_BLOCK_KIND_DATA 3 false
           [] [] (fst run) (snd run)).
  vm_compute. reflexivity.
Defined.

Lemma verityTreeSizeForFile_spec_witness :
  verityTreeSizeForFile 4096 (4096 * 129) = Some 12288
  /\ exists k,
       (forall i, (i < k)%nat -> 1 < spec_B 4096 (4096 * 129) i)
       /\ spec_B 4096 (4096 * 129) k <= 1
       /\ verityTreeSizeForFile 4096 (4096 * 129)
          = Some (spec_tree_blocks 4096 (4096 * 129) k * 4096).
Proof.
  split; [vm_compute; reflexivity|].
  apply (verityTreeSizeForFile_spec 4096); unfold INT32_MAX, INT64_MAX; lia.
Defined.

Lemma FileId_round_trip_witness :
  convertFileIdToFileIndex (convertFileIndexToFileId STREAMING (-32768)) = -32768.
Proof.
  apply (FileId_round_trip STREAMING (-32768)).
  - right. reflexivity.
  - unfold in_int16, INT16_MIN, INT16_MAX. lia.
Defined.

Lemma convertFileIndexToFileId_total_witness :
  fst (to_chars (FileId_size - 1) (-32768)) = errc_ok
  /\ (length (decimal_text (-32768)) <= 6)%nat
  /\ hd x00 (convertFileIndexToFileId LOCAL_FILE (-32768))
     = byte_of_Z (MetadataMode_value LOCAL_FILE)
  /\ length (convertFileIndexToFileId LOCAL_FILE (-32768)) = FileId_size
  /\ (LOCAL_FILE <> STDIN ->
      convertFileIndexToFileId LOCAL_FILE (-32768) <> FileId_zero).
Proof.
  apply (convertFileIndexToFileId_total LOCAL_FILE (-32768)).
  unfold in_int16, INT16_MIN, INT16_MAX. lia.
Defined.


Lemma readHeader_short_fragment_witness :
  readHeader LittleEndian [x00; x07; x00] = (BlockHeader_default, [x00; x07; x00])
  /\ BlockHeader_default
     = {| bh_fileIdx := -1; bh_blockType := -1; bh_compressionType := -1;
          bh_blockIdx := -1; bh_blockSize := -1 |}
  /\ is_sentinel BlockHeader_default = false
  /\ is_invalid BlockHeader_default = true
  /\ ([x00; x07; x00] <> [] ->
      forall env walk_fuel inout mode st h,
        receiver_walk LittleEndian env (S walk_fuel) inout mode st [x00; x07; x00] h
        = (Ret (set_stop st), [])).
Proof.
  apply (readHeader_short_fragment LittleEndian [x00; x07; x00]). simpl. lia.
Defined.

Lemma idsig_mismatch_aborts_witness :
  let env := script_env (fun _ => 5) [] idsig_99 [] in
  let lookup := EvLookupShellCommand [] true in
  let idsigPath := c_str ([x61] ++ idsig_suffix) in
  let evs := EvGetLocalFile idsigPath 5
               :: [EvReadFully 5 4 (Some [x01; x00; x00; x00]);
                   EvReadFully 5 4 (Some [x00; x00; x00; x00]);
                   EvReadFully 5 4 (Some [x00; x00; x00; x00]);
                   EvReadFully 5 4 (Some [x63; x00; x00; x00])] in
  openInputs 4096 LittleEndian env (file_size local_file_a) (file_metadata local_file_a)
    (([] ++ [lookup]) ++ []) = (Ret [], evs)
  /\ onPrepareImage 4096 LittleEndian env 10 [] ([] ++ local_file_a :: []) []
     = (Ret false, lookup :: [] ++ evs)
  /\ opened evs = []
  /\ submitted evs = [].
Proof.
  intros env lookup idsigPath evs.
  apply (idsig_mismatch_aborts 4096 LittleEndian env 10 [] [] local_file_a [] [] []
           (-1) None [] [] [x61] 4096 99
           [EvReadFully 5 4 (Some [x01; x00; x00; x00]);
            EvReadFully 5 4 (Some [x00; x00; x00; x00]);
            EvReadFully 5 4 (Some [x00; x00; x00; x00]);
            EvReadFully 5 4 (Some [x63; x00; x00; x00])]);
    try reflexivity.
  lia.
Defined.

(** ** Further properties *)

(** *** Buffers *)

Lemma resize_grow (v : list byte) (n : Z) :
  0 <= n -> resize v (Z.of_nat (length v) + n) = v ++ replicate (Z.to_nat n) x00.
Proof.
  intros Hn. unfold resize.
  replace (Z.to_nat (Z.of_nat (length v) + n)) with (length v + Z.to_nat n)%nat by lia.
  rewrite take_ge by lia. f_equal. f_equal. lia.
Qed.

Lemma resize_shrink (v w : list byte) :
  resize (v ++ w) (Z.of_nat (length v)) = v.
Proof.
  unfold resize. rewrite Nat2Z.id, take_app_length, length_app.
  replace (length v - (length v + length w))%nat with 0%nat by lia. apply app_nil_r.
Qed.

Lemma write_at_end (v w bs : list byte) :
  write_at (v ++ w) (Z.of_nat (length v)) bs = v ++ bs ++ drop (length bs) w.
Proof.
  unfold write_at. rewrite Nat2Z.id, take_app_length. f_equal. f_equal.
  rewrite drop_app_ge by lia. f_equal. lia.
Qed.

Lemma slice_slice (v : list byte) (off a b : Z) :
  0 <= off -> 0 <= a -> 0 <= b ->
  slice v off a ++ slice v (off + a) b = slice v off (a + b).
Proof.
  intros Hoff Ha Hb. unfold slice.
  replace (Z.to_nat (off + a)) with (Z.to_nat off + Z.to_nat a)%nat by lia.
  rewrite <- drop_drop, take_take_drop. f_equal. lia.
Qed.

Lemma bytes_in_app e1 e2 : bytes_in (e1 ++ e2) = bytes_in e1 ++ bytes_in e2.
Proof. unfold bytes_in. now rewrite map_app, concat_app. Qed.

Lemma bytes_out_app e1 e2 : bytes_out (e1 ++ e2) = bytes_out e1 ++ bytes_out e2.
Proof. unfold bytes_out. now rewrite submitted_app, fmap_app, concat_app. Qed.

Lemma delivered_app e1 e2 : delivered (e1 ++ e2) = delivered e1 + delivered e2.
Proof.
  induction e1 as [|e e1 IH]; [reflexivity|].
  cbn [app delivered fold_right]. fold (delivered (e1 ++ e2)). fold (delivered e1).
  rewrite IH. destruct e; try reflexivity. destruct r; lia.
Qed.

(** *** The assembler keeps the bytes it reads *)

Section AssemblerData.
Variable INCFS_DATA_FILE_BLOCK_SIZE : Z.
Variable env : Env.
Hypothesis block_size_range : 0 < INCFS_DATA_FILE_BLOCK_SIZE <= 65536.

Let BS := INCFS_DATA_FILE_BLOCK_SIZE.

Lemma push_full_blocks_data incfsFd kind buffer n :
  forall blockIdx consumed blocks blockIdx' consumed' blocks',
    0 <= consumed ->
    consumed + Z.of_nat n * BS <= Z.of_nat (length buffer) ->
    push_full_blocks BS n incfsFd kind blockIdx consumed buffer blocks
      = Some (blockIdx', consumed', blocks') ->
    exists new,
      blocks' = blocks ++ new
      /\ concat (data <$> new) = slice buffer consumed (Z.of_nat n * BS)
      /\ Forall (fun b => dataSize b = Z.of_nat (length (data b))) new.
Proof.
  induction n as [|n IH]; intros blockIdx consumed blocks blockIdx' consumed' blocks' Hc Hlen E.
  - simpl in E. inversion E; subst. exists []. rewrite app_nil_r.
    repeat split; constructor.
  - simpl in E. unfold next_blockIdx in E.
    destruct (blockIdx <? INT32_MAX); [|discriminate].
    apply IH in E; [|unfold BS in *; lia|unfold BS in *; lia].
    destruct E as (new & -> & Hdata & Hsize).
    eexists (_ :: new). rewrite <- app_assoc. split; [reflexivity|].
    split.
    + rewrite fmap_cons. cbn [concat data]. rewrite Hdata.
      rewrite slice_slice by (unfold BS in *; lia). f_equal. lia.
    + constructor; [|exact Hsize]. cbn [dataSize data]. unfold slice.
      rewrite length_take, length_drop. unfold BS in *. lia.
Qed.

(** One flush hands on a prefix of the buffer and keeps the rest; with
    [eof] set it keeps nothing, without it less than a block. *)
Lemma flashToIncFs_data incfsFd kind eof blockIdx buffer h r evs :
  flashToIncFs BS env incfsFd kind eof blockIdx buffer [] h = (r, evs) ->
  exists pending,
    bytes_out evs ++ pending = buffer
    /\ bytes_in evs = []
    /\ delivered evs = 0
    /\ Forall (fun b => dataSize b = Z.of_nat (length (data b))) (submitted evs)
    /\ (forall ok blockIdx' buffer' blocks',
          r = Ret (ok, (blockIdx', buffer', blocks')) ->
          buffer' = pending
          /\ (eof = true -> pending = [])
          /\ Z.of_nat (length pending) < BS).
Proof.
  unfold flashToIncFs. intros E.
  set (size := Z.of_nat (length buffer)) in *.
  assert (Hdiv : 0 <= size / BS /\ size / BS * BS <= size /\ size - size / BS * BS < BS).
  { pose proof (Z.mod_pos_bound size BS ltac:(unfold BS; lia)).
    pose proof (Z.div_mod size BS ltac:(unfold BS; lia)).
    assert (0 <= size / BS) by (apply Z.div_pos; unfold BS, size; lia). lia. }
  destruct (push_full_blocks BS (Z.to_nat (size / BS)) incfsFd kind blockIdx 0 buffer [])
    as [[[blockIdx1 consumed1] blocks1]|] eqn:Epush.
  2:{ inversion E; subst. exists buffer. split; [reflexivity|]. split; [reflexivity|].
      split; [reflexivity|]. split; [constructor|]. intros; discriminate. }
  pose proof Epush as Espec.
  apply push_full_blocks_spec in Espec.
  destruct Espec as (new' & _ & _ & Hcons & _).
  apply push_full_blocks_data in Epush; [|lia|rewrite Z2Nat.id by lia; fold size; lia].
  destruct Epush as (new & -> & Hdata & Hsize).
  rewrite Z2Nat.id in Hcons, Hdata by lia. rewrite Z.add_0_l in Hcons. subst consumed1.
  rewrite app_nil_l in *.
  assert (Eu64 : uint64 (size - size / BS * BS) = size - size / BS * BS).
  { unfold uint64, to_unsigned. apply Z.mod_small. unfold BS in *. lia. }
  rewrite Eu64 in E.
  set (remain := size - size / BS * BS) in *.
  assert (Etake : slice buffer 0 (size / BS * BS) = take (Z.to_nat (size / BS * BS)) buffer)
    by reflexivity.
  destruct (negb (remain =? 0) && eof) eqn:Eshort.
  - apply andb_true_iff in Eshort. destruct Eshort as [Hnz ->].
    apply negb_true_iff, Z.eqb_neq in Hnz.
    unfold next_blockIdx in E.
    destruct (blockIdx1 <? INT32_MAX).
    2:{ rewrite bind_fault in E. inversion E; subst. exists buffer.
        split; [reflexivity|]. split; [reflexivity|].
        split; [reflexivity|]. split; [constructor|]. intros; discriminate. }
    rewrite bind_ret in E. unfold writeBlocks in E. rewrite bind_call in E.
    set (short := {| fileFd := incfsFd; pageIndex := blockIdx1;
                     compression := INCFS_COMPRESSION_KIND_NONE; kind := kind;
                     dataSize := uint16 remain;
                     data := slice buffer (size / BS * BS) remain |}) in *.
    injection E as Er Eevs. subst evs r.
    assert (Etl : forall tl : Outcome (bool * Assembler) * list Event, snd tl = [] ->
              EvWriteBlocks (new ++ [short]) (ifs_writeBlocks env h (new ++ [short])) :: snd tl
              = [EvWriteBlocks (new ++ [short]) (ifs_writeBlocks env h (new ++ [short]))]).
    { now intros tl ->. }
    rewrite Etl by (destruct (_ <? 0); reflexivity).
    assert (Eall : slice buffer 0 (size / BS * BS) ++ slice buffer (size / BS * BS) remain
                   = buffer).
    { rewrite <- (Z.add_0_l (size / BS * BS)) at 2. rewrite slice_slice by lia.
      unfold slice. rewrite drop_0. apply take_ge. unfold remain, size. lia. }
    exists []. rewrite app_nil_r.
    split.
    { unfold bytes_out, submitted. cbn [map concat]. rewrite app_nil_r, fmap_app, concat_app.
      cbn [fmap list_fmap concat data short]. rewrite app_nil_r, Hdata. exact Eall. }
    split; [reflexivity|]. split; [reflexivity|].
    split.
    { unfold submitted. cbn [map concat]. rewrite app_nil_r.
      apply Forall_app. split; [exact Hsize|]. constructor; [|constructor].
      cbn [dataSize data short]. unfold uint16, to_unsigned.
      rewrite Z.mod_small by (unfold BS in *; lia).
      unfold slice. rewrite length_take, length_drop. unfold remain, size in *. lia. }
    intros ok b' buf' bl' Er.
    assert (Edrop : drop (Z.to_nat (size / BS * BS + remain)) buffer = []).
    { apply drop_ge. unfold remain, size. lia. }
    destruct (_ <? 0); inversion Er; subst; rewrite Edrop;
      (split; [reflexivity|split; [reflexivity|simpl; unfold BS; lia]]).
  - rewrite bind_ret in E. unfold writeBlocks in E. rewrite bind_call in E.
    injection E as Er Eevs. subst evs r.
    assert (Etl : forall tl : Outcome (bool * Assembler) * list Event, snd tl = [] ->
              EvWriteBlocks new (ifs_writeBlocks env h new) :: snd tl
              = [EvWriteBlocks new (ifs_writeBlocks env h new)]).
    { now intros tl ->. }
    rewrite Etl by (destruct (_ <? 0); reflexivity).
    exists (drop (Z.to_nat (size / BS * BS)) buffer).
    split.
    { unfold bytes_out, submitted. cbn [map concat]. rewrite app_nil_r, Hdata, Etake.
      apply take_drop. }
    split; [reflexivity|]. split; [reflexivity|].
    split.
    { unfold submitted. cbn [map concat]. rewrite app_nil_r. exact Hsize. }
    intros ok b' buf' bl' Er.
    assert (Hrest : Z.of_nat (length (drop (Z.to_nat (size / BS * BS)) buffer)) = remain).
    { rewrite length_drop. unfold remain, size in *. lia. }
    assert (Heof : eof = true -> drop (Z.to_nat (size / BS * BS)) buffer = []).
    { intros ->. rewrite andb_true_r in Eshort. apply negb_false_iff, Z.eqb_eq in Eshort.
      apply nil_length_inv. lia. }
    destruct (_ <? 0); inversion Er; subst;
      (split; [reflexivity|split; [exact Heof|lia]]).
Qed.

(** The loop of [copyToIncFs]: what has been submitted and what is
    pending are, end to end, the buffer at entry and what the reads
    added; the reads deliver no more than [remaining] bytes, and all of
    them when the loop waits at the end of input. *)
Lemma copyToIncFs_loop_data incfsFd kind incomingFd waitOnEof fuel :
  forall remaining totalSize blockIdx buffer h r evs,
    Z.of_nat (length buffer) <= capacity ->
    copyToIncFs_loop BS env fuel incfsFd kind incomingFd waitOnEof
      remaining totalSize blockIdx buffer [] h = (r, evs) ->
    exists pending,
      bytes_out evs ++ pending = buffer ++ bytes_in evs
      /\ Z.of_nat (length pending) <= capacity
      /\ Forall (fun b => dataSize b = Z.of_nat (length (data b))) (submitted evs)
      /\ 0 <= delivered evs <= Z.max 0 remaining
      /\ (forall ok blockIdx' buffer' blocks',
            r = Ret (ok, (blockIdx', buffer', blocks')) ->
            buffer' = pending
            /\ (ok = true -> waitOnEof = true -> delivered evs = Z.max 0 remaining)).
Proof.
  induction fuel as [|fuel IH]; intros remaining totalSize blockIdx buffer h r evs Hcap E.
  - simpl in E. destruct (0 <? remaining) eqn:Hr; inversion E; subst;
      exists buffer; rewrite app_nil_r;
      (split; [reflexivity|]); (split; [exact Hcap|]); (split; [constructor|]);
      (split; [simpl; lia|]); intros ok b' buf' bl' Er; [discriminate|].
    inversion Er; subst. split; [reflexivity|]. intros _ _. simpl.
    apply Z.ltb_ge in Hr. lia.
  - rewrite copyToIncFs_loop_step in E.
    destruct (0 <? remaining) eqn:Hr.
    2:{ inversion E; subst. exists buffer. rewrite app_nil_r.
        split; [reflexivity|]. split; [exact Hcap|]. split; [constructor|].
        split; [simpl; lia|]. intros ok b' buf' bl' Er.
        inversion Er; subst. split; [reflexivity|]. intros _ _. simpl.
        apply Z.ltb_ge in Hr. lia. }
    apply Z.ltb_lt in Hr. cbv zeta in E.
    set (size := Z.of_nat (length buffer)) in *.
    assert (Efree : uint64 (capacity - size) = capacity - size).
    { unfold uint64, to_unsigned. apply Z.mod_small. unfold capacity, BUFFER_SIZE in *. lia. }
    rewrite Efree in E.
    destruct (capacity - size <? BS) eqn:Hfull.
    + apply bind_inv in E.
      destruct E as [(a & e1 & e2 & Eflash & Ek & ->) | [[Eflash ->] | [Eflash ->]]];
        destruct (flashToIncFs_data _ _ _ _ _ _ _ _ Eflash)
          as (pending1 & Hout1 & Hin1 & Hdel1 & Hsize1 & Hret1).
      * destruct a as [ok [[blockIdx1 buffer1] blocks1]].
        destruct (Hret1 _ _ _ _ eq_refl) as (-> & _ & Hlt).
        assert (blocks1 = []) as ->.
        { destruct (flashToIncFs_spec _ env block_size_range _ _ _ _ _ _ _ _ Eflash)
            as (_ & _ & _ & _ & _ & _ & Hb). now destruct (Hb _ _ _ _ eq_refl). }
        destruct ok; cbn [negb] in Ek.
        -- apply IH in Ek; [|unfold capacity, BUFFER_SIZE, BS in *; lia].
           destruct Ek as (pending & Hout & Hcap2 & Hsize & Hdel & Hret).
           exists pending.
           rewrite bytes_out_app, bytes_in_app, delivered_app, submitted_app, Hin1, Hdel1.
           split.
           { rewrite <- app_assoc, Hout, app_assoc, Hout1. reflexivity. }
           split; [exact Hcap2|]. split; [apply Forall_app; now split|].
           split; [lia|]. exact Hret.
        -- apply ret_inv in Ek. destruct Ek as [-> ->]. rewrite app_nil_r.
           exists pending1. rewrite Hin1, Hdel1, app_nil_r.
           split; [exact Hout1|].
           split; [unfold capacity, BUFFER_SIZE, BS in *; lia|].
           split; [exact Hsize1|]. split; [lia|].
           intros ok b' buf' bl' Er. inversion Er; subst. split; [reflexivity|].
           discriminate.
      * exists pending1. rewrite Hin1, Hdel1, app_nil_r.
        split; [exact Hout1|].
        split; [pose proof (f_equal (@length byte) Hout1) as Hl;
                rewrite length_app in Hl; unfold size in *; lia|].
        split; [exact Hsize1|]. split; [lia|]. intros; discriminate.
      * exists pending1. rewrite Hin1, Hdel1, app_nil_r.
        split; [exact Hout1|].
        split; [pose proof (f_equal (@length byte) Hout1) as Hl;
                rewrite length_app in Hl; unfold size in *; lia|].
        split; [exact Hsize1|]. split; [lia|]. intros; discriminate.
    + apply Z.ltb_ge in Hfull.
      rewrite int64_id in E by (unfold capacity, BUFFER_SIZE in *; lia).
      set (toRead := Z.min remaining (capacity - size)) in *.
      assert (HtoRead : 0 < toRead <= remaining /\ size + toRead <= capacity)
        by (unfold toRead, BS in *; lia).
      assert (Egrow : resize buffer (size + toRead) = buffer ++ replicate (Z.to_nat toRead) x00)
        by (apply resize_grow; lia).
      rewrite Egrow in E.
      apply bind_inv in E.
      destruct E as [(a & e1 & e2 & Eread & Ek & ->) | [[Eread ->] | [Eread ->]]];
        apply call_inv in Eread; destruct Eread as [Ea Ee]; try discriminate.
      injection Ea as ->. subst e1.
      destruct (sys_read env h incomingFd toRead) as [|bs].
      * apply ret_inv in Ek. destruct Ek as [-> ->].
        exists (buffer ++ replicate (Z.to_nat toRead) x00).
        split; [unfold bytes_in; simpl; now rewrite app_nil_r|].
        split; [rewrite length_app, length_replicate; fold size; lia|].
        split; [constructor|]. split; [simpl; lia|].
        intros ok b' buf' bl' Er. inversion Er; subst. split; [reflexivity|discriminate].
      * cbv zeta in Ek.
        assert (Hlen : Z.of_nat (length (take (Z.to_nat toRead) bs)) <= toRead)
          by (rewrite length_take; lia).
        destruct (take (Z.to_nat toRead) bs) as [|b bytes] eqn:Etake.
        -- change (Z.of_nat (length (@nil byte)) =? 0) with true in Ek. cbv iota in Ek.
           unfold size in Ek. rewrite write_at_end in Ek.
           cbn [length app] in Ek. rewrite drop_0 in Ek.
           destruct waitOnEof.
           ++ apply bind_inv in Ek.
              destruct Ek as [(a & e1 & e3 & Eemit & Ek & ->) | [[Eemit ->] | [Eemit ->]]];
                try discriminate.
              unfold emit in Eemit. injection Eemit as <- <-.
              apply IH in Ek; [|rewrite length_app, length_replicate; fold size; lia].
              destruct Ek as (pending & Hout & Hcap2 & Hsize & Hdel & Hret).
              exists pending. cbn [app].
              change (bytes_out (EvRead incomingFd toRead (ReadOk []) :: EvSleep 10 :: e3))
                with (bytes_out e3).
              change (bytes_in (EvRead incomingFd toRead (ReadOk []) :: EvSleep 10 :: e3))
                with (replicate (Z.to_nat toRead) x00 ++ bytes_in e3).
              change (submitted (EvRead incomingFd toRead (ReadOk []) :: EvSleep 10 :: e3))
                with (submitted e3).
              change (delivered (EvRead incomingFd toRead (ReadOk []) :: EvSleep 10 :: e3))
                with (0 + delivered e3).
              rewrite Z.add_0_l, app_assoc.
              split; [exact Hout|]. split; [exact Hcap2|]. split; [exact Hsize|].
              split; [exact Hdel|]. exact Hret.
           ++ apply ret_inv in Ek. destruct Ek as [-> ->].
              exists (buffer ++ replicate (Z.to_nat toRead) x00).
              split; [unfold bytes_in; simpl; now rewrite app_nil_r|].
              split; [rewrite length_app, length_replicate; fold size; lia|].
              split; [constructor|]. split; [simpl; lia|].
              intros ok b' buf' bl' Er. inversion Er; subst. split; [reflexivity|discriminate].
        -- set (bytes' := b :: bytes) in *.
           assert (Hpos : 0 < Z.of_nat (length bytes')) by (unfold bytes'; simpl; lia).
           destruct (Z.eqb_spec (Z.of_nat (length bytes')) 0) as [?|_]; [lia|].
           unfold size in Ek. rewrite write_at_end in Ek.
           rewrite app_assoc, <- Nat2Z.inj_add, <- length_app, resize_shrink in Ek.
           apply IH in Ek; [|rewrite length_app, Nat2Z.inj_add; fold size; lia].
           destruct Ek as (pending & Hout & Hcap2 & Hsize & Hdel & Hret).
           exists pending. cbn [app].
           change (bytes_out (EvRead incomingFd toRead (ReadOk bytes') :: e2))
             with (bytes_out e2).
           change (bytes_in (EvRead incomingFd toRead (ReadOk bytes') :: e2))
             with (bytes' ++ bytes_in e2).
           change (submitted (EvRead incomingFd toRead (ReadOk bytes') :: e2))
             with (submitted e2).
           change (delivered (EvRead incomingFd toRead (ReadOk bytes') :: e2))
             with (Z.of_nat (length bytes') + delivered e2).
           rewrite app_assoc.
           split; [exact Hout|]. split; [exact Hcap2|]. split; [exact Hsize|].
           split; [lia|].
           intros ok b' buf' bl' Er. destruct (Hret _ _ _ _ Er) as [-> Hall].
           split; [reflexivity|]. intros Hok Hw. specialize (Hall Hok Hw). lia.
Qed.

Lemma copyToIncFs_data fuel incfsFd size kind incomingFd waitOnEof buffer h r evs :
  Z.of_nat (length buffer) <= capacity ->
  copyToIncFs BS env fuel incfsFd size kind incomingFd waitOnEof buffer [] h = (r, evs) ->
  exists pending,
    bytes_out evs ++ pending = buffer ++ bytes_in evs
    /\ Forall (fun b => dataSize b = Z.of_nat (length (data b))) (submitted evs)
    /\ 0 <= delivered evs <= Z.max 0 size
    /\ (forall ok buffer' blocks',
          r = Ret (ok, (buffer', blocks')) ->
          buffer' = pending
          /\ blocks' = []
          /\ (ok = true -> pending = [])
          /\ (ok = true -> waitOnEof = true -> delivered evs = Z.max 0 size)).
Proof.
  intros Hcap E.
  destruct (copyToIncFs_shape _ env block_size_range _ _ _ _ _ _ _ _ _ _ E)
    as (_ & _ & _ & _ & _ & _ & Hblocks).
  unfold copyToIncFs in E. apply bind_inv in E.
  destruct E as [(a & e1 & e2 & Eloop & Ek & ->) | [[Eloop ->] | [Eloop ->]]];
    destruct (copyToIncFs_loop_data _ _ _ _ _ _ _ _ _ _ _ _ Hcap Eloop)
      as (pending1 & Hout1 & Hcap1 & Hsize1 & Hdel1 & Hret1).
  2,3: exists pending1; split; [exact Hout1|]; split; [exact Hsize1|];
       split; [exact Hdel1|]; intros; discriminate.
  destruct a as [ok [[blockIdx1 buffer1] blocks1]].
  destruct (Hret1 _ _ _ _ eq_refl) as [-> Hall].
  assert (blocks1 = []) as ->.
  { destruct (copyToIncFs_loop_spec _ env block_size_range _ _ _ _ _ _ _ _ _ _ _ _ Eloop)
      as [_ [_ Hb]]. now destruct (Hb _ _ _ _ eq_refl). }
  destruct ok; cbn [negb] in Ek.
  - destruct pending1 as [|b pending1].
    + apply ret_inv in Ek. destruct Ek as [-> ->]. rewrite app_nil_r.
      exists []. split; [exact Hout1|]. split; [exact Hsize1|]. split; [exact Hdel1|].
      intros ok b' bl' Er. inversion Er; subst. repeat split; auto.
    + apply bind_inv in Ek.
      destruct Ek as [(a & e3 & e4 & Eflash & Ek & ->) | [[Eflash ->] | [Eflash ->]]];
        destruct (flashToIncFs_data _ _ _ _ _ _ _ _ Eflash)
          as (pending2 & Hout2 & Hin2 & Hdel2 & Hsize2 & Hret2).
      * destruct a as [ok2 [[blockIdx2 buffer2] blocks2]].
        apply ret_inv in Ek. destruct Ek as [-> ->]. rewrite app_nil_r.
        destruct (Hret2 _ _ _ _ eq_refl) as (-> & Hnil & _).
        specialize (Hnil eq_refl). subst pending2. rewrite app_nil_r in Hout2.
        exists [].
        rewrite bytes_out_app, bytes_in_app, delivered_app, submitted_app, Hin2, Hdel2, Hout2.
        rewrite !app_nil_r, Z.add_0_r.
        split; [exact Hout1|]. split; [apply Forall_app; now split|].
        split; [exact Hdel1|].
        intros ok b' bl' Er. specialize (Hblocks _ _ _ Er). inversion Er; subst.
        repeat split; auto.
      * exists pending2.
        rewrite bytes_out_app, bytes_in_app, delivered_app, submitted_app, Hin2, Hdel2.
        rewrite !app_nil_r, Z.add_0_r, <- app_assoc, Hout2.
        split; [exact Hout1|]. split; [apply Forall_app; now split|].
        split; [exact Hdel1|]. intros; discriminate.
      * exists pending2.
        rewrite bytes_out_app, bytes_in_app, delivered_app, submitted_app, Hin2, Hdel2.
        rewrite !app_nil_r, Z.add_0_r, <- app_assoc, Hout2.
        split; [exact Hout1|]. split; [apply Forall_app; now split|].
        split; [exact Hdel1|]. intros; discriminate.
  - apply ret_inv in Ek. destruct Ek as [-> ->]. rewrite app_nil_r.
    exists pending1. split; [exact Hout1|]. split; [exact Hsize1|]. split; [exact Hdel1|].
    intros ok b' bl' Er. inversion Er; subst. repeat split; auto; discriminate.
Qed.

(** Whatever the reads return and wherever the flushes fall, the payloads
    of the blocks [copyToIncFs] submits, end to end and followed by what it
    leaves in the buffer, are the buffer at entry followed by what the reads
    added, in order; every block carries as many bytes as its [dataSize]
    says; and after a return of true the buffer is empty.  A read that
    delivers nothing adds the zero bytes of the [resize] before it. *)
Theorem copyToIncFs_conserves_bytes (fuel : nat) (incfsFd size kind incomingFd : Z)
    (waitOnEof : bool) (buffer : list byte) (h : History)
    (r : Outcome (bool * (list byte * list IncFsDataBlock))) (evs : list Event) :
  Z.of_nat (length buffer) <= capacity ->
  copyToIncFs BS env fuel incfsFd size kind incomingFd waitOnEof buffer [] h = (r, evs) ->
  exists pending,
    bytes_out evs ++ pending = buffer ++ bytes_in evs
    /\ Forall (fun b => dataSize b = Z.of_nat (length (data b))) (submitted evs)
    /\ (forall ok buffer' blocks',
          r = Ret (ok, (buffer', blocks')) ->
          buffer' = pending /\ (ok = true -> buffer' = [])).
Proof.
  intros Hcap E.
  destruct (copyToIncFs_data _ _ _ _ _ _ _ _ _ _ Hcap E)
    as (pending & Hout & Hsize & _ & Hret).
  exists pending. split; [exact Hout|]. split; [exact Hsize|].
  intros ok buffer' blocks' Er. destruct (Hret _ _ _ Er) as (-> & _ & Hnil & _).
  split; [reflexivity|exact Hnil].
Qed.

(** The reads of [copyToIncFs] never deliver more than the declared
    [size]; with [waitOnEof] set, [copyToIncFs] returns true only when they
    have delivered exactly [size] bytes. *)
Theorem copyToIncFs_delivers_size (fuel : nat) (incfsFd size kind incomingFd : Z)
    (waitOnEof : bool) (buffer : list byte) (h : History)
    (r : Outcome (bool * (list byte * list IncFsDataBlock))) (evs : list Event) :
  0 <= size ->
  Z.of_nat (length buffer) <= capacity ->
  copyToIncFs BS env fuel incfsFd size kind incomingFd waitOnEof buffer [] h = (r, evs) ->
  0 <= delivered evs <= size
  /\ (waitOnEof = true ->
      forall buffer' blocks', r = Ret (true, (buffer', blocks')) -> delivered evs = size).
Proof.
  intros Hsize Hcap E.
  destruct (copyToIncFs_data _ _ _ _ _ _ _ _ _ _ Hcap E)
    as (pending & _ & _ & Hdel & Hret).
  split; [lia|].
  intros Hw buffer' blocks' Er. destruct (Hret _ _ _ Er) as (_ & _ & _ & Hall).
  rewrite (Hall eq_refl Hw). lia.
Qed.

Lemma flashToIncFs_returns incfsFd kind eof blockIdx buffer blocks h :
  fst (flashToIncFs BS env incfsFd kind eof blockIdx buffer blocks h) <> OutOfFuel.
Proof.
  unfold flashToIncFs.
  destruct (push_full_blocks _ _ _ _ _ _ _ _) as [[[blockIdx1 consumed1] blocks1]|];
    [|discriminate].
  destruct (negb _ && eof).
  - destruct (next_blockIdx blockIdx1); [|discriminate].
    rewrite bind_ret. unfold writeBlocks. rewrite bind_call. cbn [fst].
    destruct (_ <? 0); discriminate.
  - rewrite bind_ret. unfold writeBlocks. rewrite bind_call. cbn [fst].
    destruct (_ <? 0); discriminate.
Qed.

Lemma copyToIncFs_loop_ends incfsFd kind incomingFd fuel :
  forall remaining totalSize blockIdx buffer h,
    Z.of_nat (length buffer) <= capacity ->
    2 * Z.max 0 remaining
      + (if capacity - Z.of_nat (length buffer) <? BS then 1 else 0) <= Z.of_nat fuel ->
    fst (copyToIncFs_loop BS env fuel incfsFd kind incomingFd false
           remaining totalSize blockIdx buffer [] h) <> OutOfFuel.
Proof.
  induction fuel as [|fuel IH]; intros remaining totalSize blockIdx buffer h Hcap Hfuel.
  - simpl. destruct (Z.ltb_spec 0 remaining); [|discriminate].
    destruct (_ <? BS); lia.
  - rewrite copyToIncFs_loop_step.
    destruct (Z.ltb_spec 0 remaining) as [Hr|Hr]; [|discriminate].
    cbv zeta. set (size := Z.of_nat (length buffer)) in *.
    assert (Efree : uint64 (capacity - size) = capacity - size).
    { unfold uint64, to_unsigned. apply Z.mod_small. unfold capacity, BUFFER_SIZE in *. lia. }
    rewrite Efree.
    destruct (Z.ltb_spec (capacity - size) BS) as [Hfull|Hfree].
    + destruct (bind _ _ h) as [r evs] eqn:E. cbn [fst]. apply bind_inv in E.
      destruct E as [(a & e1 & e2 & Eflash & Ek & ->) | [[Eflash ->] | [Eflash ->]]].
      * destruct a as [ok [[blockIdx1 buffer1] blocks1]].
        destruct (flashToIncFs_data _ _ _ _ _ _ _ _ Eflash)
          as (pending1 & _ & _ & _ & _ & Hret1).
        destruct (Hret1 _ _ _ _ eq_refl) as (-> & _ & Hlt).
        assert (blocks1 = []) as ->.
        { destruct (flashToIncFs_spec _ env block_size_range _ _ _ _ _ _ _ _ Eflash)
            as (_ & _ & _ & _ & _ & _ & Hb). now destruct (Hb _ _ _ _ eq_refl). }
        destruct ok; cbn [negb] in Ek.
        -- pose proof (IH remaining totalSize blockIdx1 pending1 (h ++ e1)) as Hend.
           rewrite Ek in Hend. apply Hend.
           ++ unfold capacity, BUFFER_SIZE, BS in *. lia.
           ++ destruct (Z.ltb_spec (capacity - Z.of_nat (length pending1)) BS);
                unfold capacity, BUFFER_SIZE, BS in *; lia.
        -- apply ret_inv in Ek. destruct Ek as [-> _]. discriminate.
      * pose proof (flashToIncFs_returns incfsFd kind false blockIdx buffer [] h) as Hf.
        rewrite Eflash in Hf. now contradiction Hf.
      * discriminate.
    + rewrite int64_id by (unfold capacity, BUFFER_SIZE in *; lia).
      set (toRead := Z.min remaining (capacity - size)) in *.
      assert (HtoRead : 0 < toRead <= remaining /\ size + toRead <= capacity)
        by (unfold toRead, BS in *; lia).
      rewrite resize_grow by lia.
      destruct (bind _ _ h) as [r evs] eqn:E. cbn [fst]. apply bind_inv in E.
      destruct E as [(a & e1 & e2 & Eread & Ek & ->) | [[Eread ->] | [Eread ->]]];
        apply call_inv in Eread; destruct Eread as [Ea Ee]; try discriminate.
      injection Ea as ->. subst e1.
      destruct (sys_read env h incomingFd toRead) as [|bs].
      { apply ret_inv in Ek. destruct Ek as [-> _]. discriminate. }
      cbv zeta in Ek.
      assert (Hlen : Z.of_nat (length (take (Z.to_nat toRead) bs)) <= toRead)
        by (rewrite length_take; lia).
      destruct (take (Z.to_nat toRead) bs) as [|b bytes] eqn:Etake.
      { change (Z.of_nat (length (@nil byte)) =? 0) with true in Ek. cbv iota in Ek.
        apply ret_inv in Ek. destruct Ek as [-> _]. discriminate. }
      set (bytes' := b :: bytes) in *.
      assert (Hpos : 0 < Z.of_nat (length bytes')) by (unfold bytes'; simpl; lia).
      destruct (Z.eqb_spec (Z.of_nat (length bytes')) 0) as [?|_]; [lia|].
      unfold size in Ek. rewrite write_at_end in Ek.
      rewrite app_assoc, <- Nat2Z.inj_add, <- length_app, resize_shrink in Ek.
      match type of Ek with
      | copyToIncFs_loop _ _ _ _ _ _ _ ?rem ?tot ?bi ?buf _ ?hh = _ =>
          pose proof (IH rem tot bi buf hh) as Hend
      end.
      rewrite Ek in Hend. apply Hend.
      * rewrite length_app, Nat2Z.inj_add. fold size. lia.
      * destruct (_ <? BS); lia.
Qed.

(** Without [waitOnEof], [copyToIncFs] returns: a turn of its loop
    either takes at least one byte of the [size] declared, or flushes a
    buffer that has filled up, or leaves the loop, so two turns for each
    byte and one more are enough.  (With [waitOnEof] it goes on for as long
    as the input is at its end.) *)
Theorem copyToIncFs_ends (fuel : nat) (incfsFd size kind incomingFd : Z)
    (buffer : list byte) (h : History) :
  Z.of_nat (length buffer) <= capacity ->
  2 * Z.max 0 size + 1 <= Z.of_nat fuel ->
  fst (copyToIncFs BS env fuel incfsFd size kind incomingFd false buffer [] h) <> OutOfFuel.
Proof.
  intros Hcap Hfuel. unfold copyToIncFs.
  pose proof (copyToIncFs_loop_ends incfsFd kind incomingFd fuel size 0 0 buffer h Hcap) as Hl.
  destruct (bind _ _ h) as [r evs] eqn:E. cbn [fst]. apply bind_inv in E.
  destruct E as [(a & e1 & e2 & Eloop & Ek & ->) | [[Eloop ->] | [Eloop ->]]].
  - destruct a as [ok [[blockIdx1 buffer1] blocks1]].
    destruct ok; cbn [negb] in Ek.
    + destruct buffer1 as [|b buffer1].
      * apply ret_inv in Ek. destruct Ek as [-> _]. discriminate.
      * apply bind_inv in Ek.
        destruct Ek as [(a & e3 & e4 & Eflash & Ek & ->) | [[Eflash ->] | [Eflash ->]]].
        -- destruct a as [ok2 [[blockIdx2 buffer2] blocks2]].
           apply ret_inv in Ek. destruct Ek as [-> _]. discriminate.
        -- pose proof (flashToIncFs_returns incfsFd kind true blockIdx1 (b :: buffer1)
                         blocks1 (h ++ e1)) as Hf.
           rewrite Eflash in Hf. now contradiction Hf.
        -- discriminate.
    + apply ret_inv in Ek. destruct Ek as [-> _]. discriminate.
  - rewrite Eloop in Hl. exfalso. apply Hl; [|reflexivity].
    destruct (_ <? BS); lia.
  - discriminate.
Qed.

End AssemblerData.

Lemma copyToIncFs_ends_witness :
  let env := script_env (fun _ => -1) two_blocks_and_three [] [] in
  fst (copyToIncFs 4096 env 7 7 3 INCFS_BLOCK_KIND_DATA 3 false [] [] [])
  <> OutOfFuel.
Proof.
  intros env.
  apply (copyToIncFs_ends 4096 env ltac:(lia) 7 7 3 INCFS_BLOCK_KIND_DATA 3 [] []).
  - simpl. unfold capacity, BUFFER_SIZE. lia.
  - simpl. lia.
Defined.

Lemma copyToIncFs_conserves_bytes_witness :
  let env := script_env (fun _ => -1) stalled_then_three [] [] in
  let run := copyToIncFs 4096 env 10 7 3 INCFS_BLOCK_KIND_DATA 3 true [] [] [] in
  fst run = Ret (true, ([], []))
  /\ bytes_out (snd run) = [x00; x00; x00; x61; x62; x63]
  /\ exists pending,
       bytes_out (snd run) ++ pending = [] ++ bytes_in (snd run)
       /\ Forall (fun b => dataSize b = Z.of_nat (length (data b))) (submitted (snd run))
       /\ (forall ok buffer' blocks',
             fst run = Ret (ok, (buffer', blocks')) ->
             buffer' = pending /\ (ok = true -> buffer' = [])).
Proof.
  intros env run. split; [vm_compute; reflexivity|]. split; [vm_compute; reflexivity|].
  apply (copyToIncFs_conserves_bytes 4096 env ltac:(lia) 10 7 3 INCFS_BLOCK_KIND_DATA 3 true
           [] [] (fst run) (snd run)).
  - simpl. unfold capacity, BUFFER_SIZE. lia.
  - vm_compute. reflexivity.
Defined.

Lemma copyToIncFs_delivers_size_witness :
  let env := script_env (fun _ => -1) two_blocks_and_three [] [] in
  let run := copyToIncFs 4096 env 10 7 8195 INCFS_BLOCK_KIND_DATA 3 true [] [] [] in
  0 <= delivered (snd run) <= 8195
  /\ (true = true ->
      forall buffer' blocks',
        fst run = Ret (true, (buffer', blocks')) -> delivered (snd run) = 8195).
Proof.
  intros env run.
  apply (copyToIncFs_delivers_size 4096 env ltac:(lia) 10 7 8195 INCFS_BLOCK_KIND_DATA 3 true
           [] [] (fst run) (snd run)).
  - lia.
  - simpl. unfold capacity, BUFFER_SIZE. lia.
  - vm_compute. reflexivity.
Defined.

(** *** Waiting at the end of the input *)

Section AssemblerWaits.
Variable INCFS_DATA_FILE_BLOCK_SIZE : Z.
Variable env : Env.
Hypothesis block_size_range : 0 < INCFS_DATA_FILE_BLOCK_SIZE <= 65536.
(** The input is at its end, and IncFS takes what it is given. *)
Hypothesis at_eof : forall h fd count, sys_read env h fd count = ReadOk [].
Hypothesis writes_succeed : forall h blocks, 0 <= ifs_writeBlocks env h blocks.

Let BS := INCFS_DATA_FILE_BLOCK_SIZE.

Lemma flashToIncFs_succeeds incfsFd kind eof blockIdx buffer blocks h ok a evs :
  flashToIncFs BS env incfsFd kind eof blockIdx buffer blocks h = (Ret (ok, a), evs) ->
  ok = true.
Proof.
  unfold flashToIncFs.
  destruct (push_full_blocks _ _ _ _ _ _ _ _) as [[[blockIdx1 consumed1] blocks1]|];
    [|discriminate].
  destruct (negb _ && eof).
  - destruct (next_blockIdx blockIdx1); [|discriminate].
    rewrite bind_ret. unfold writeBlocks. rewrite bind_call.
    match goal with |- context [ifs_writeBlocks env ?hh ?bl] =>
      pose proof (writes_succeed hh bl) as Hw;
      destruct (Z.ltb_spec (ifs_writeBlocks env hh bl) 0); [lia|] end.
    intros E. now inversion E.
  - rewrite bind_ret. unfold writeBlocks. rewrite bind_call.
    match goal with |- context [ifs_writeBlocks env ?hh ?bl] =>
      pose proof (writes_succeed hh bl) as Hw;
      destruct (Z.ltb_spec (ifs_writeBlocks env hh bl) 0); [lia|] end.
    intros E. now inversion E.
Qed.

Lemma copyToIncFs_loop_waits incfsFd kind incomingFd fuel :
  forall remaining totalSize blockIdx buffer h r evs,
    0 < remaining ->
    Z.of_nat (length buffer) <= capacity ->
    copyToIncFs_loop BS env fuel incfsFd kind incomingFd true
      remaining totalSize blockIdx buffer [] h = (r, evs) ->
    (forall a, r <> Ret a) /\ Forall (fun b => b = x00) (bytes_in evs).
Proof.
  induction fuel as [|fuel IH]; intros remaining totalSize blockIdx buffer h r evs Hr Hcap E.
  - simpl in E. destruct (Z.ltb_spec 0 remaining); [|lia]. inversion E; subst.
    split; [discriminate|constructor].
  - rewrite copyToIncFs_loop_step in E.
    destruct (Z.ltb_spec 0 remaining); [|lia]. cbv zeta in E.
    set (size := Z.of_nat (length buffer)) in *.
    assert (Efree : uint64 (capacity - size) = capacity - size).
    { unfold uint64, to_unsigned. apply Z.mod_small. unfold capacity, BUFFER_SIZE in *. lia. }
    rewrite Efree in E.
    destruct (Z.ltb_spec (capacity - size) BS) as [Hfull|Hfree].
    + apply bind_inv in E.
      destruct E as [(a & e1 & e2 & Eflash & Ek & ->) | [[Eflash ->] | [Eflash ->]]];
        destruct (flashToIncFs_data _ env block_size_range _ _ _ _ _ _ _ _ Eflash)
          as (pending1 & Hout1 & Hin1 & _ & _ & Hret1).
      2,3: split; [discriminate|rewrite Hin1; constructor].
      destruct a as [ok [[blockIdx1 buffer1] blocks1]].
      pose proof (flashToIncFs_succeeds _ _ _ _ _ _ _ _ _ _ Eflash) as ->.
      destruct (Hret1 _ _ _ _ eq_refl) as (-> & _ & Hlt).
      assert (blocks1 = []) as ->.
      { destruct (flashToIncFs_spec _ env block_size_range _ _ _ _ _ _ _ _ Eflash)
          as (_ & _ & _ & _ & _ & _ & Hb). now destruct (Hb _ _ _ _ eq_refl). }
      cbn [negb] in Ek. apply IH in Ek; [|lia|unfold capacity, BUFFER_SIZE, BS in *; lia].
      destruct Ek as [Hnever Hzeros]. split; [exact Hnever|].
      rewrite bytes_in_app, Hin1. exact Hzeros.
    + rewrite int64_id in E by (unfold capacity, BUFFER_SIZE in *; lia).
      set (toRead := Z.min remaining (capacity - size)) in *.
      assert (HtoRead : 0 < toRead <= remaining /\ size + toRead <= capacity)
        by (unfold toRead, BS in *; lia).
      rewrite resize_grow in E by lia.
      apply bind_inv in E.
      destruct E as [(a & e1 & e2 & Eread & Ek & ->) | [[Eread ->] | [Eread ->]]];
        apply call_inv in Eread; destruct Eread as [Ea Ee]; try discriminate.
      injection Ea as ->. subst e1. rewrite at_eof in *. rewrite take_nil in *.
      cbv zeta in Ek.
      change (Z.of_nat (length (@nil byte)) =? 0) with true in Ek. cbv iota in Ek.
      unfold size in Ek. rewrite write_at_end in Ek.
      cbn [length app] in Ek. rewrite drop_0 in Ek.
      apply bind_inv in Ek.
      destruct Ek as [(a & e1 & e3 & Eemit & Ek & ->) | [[Eemit ->] | [Eemit ->]]];
        try discriminate.
      unfold emit in Eemit. injection Eemit as <- <-.
      apply IH in Ek; [|lia|rewrite length_app, length_replicate; fold size; lia].
      destruct Ek as [Hnever Hzeros]. split; [exact Hnever|].
      cbn [app].
      change (bytes_in (EvRead incomingFd toRead (ReadOk []) :: EvSleep 10 :: e3))
        with (replicate (Z.to_nat toRead) x00 ++ bytes_in e3).
      apply Forall_app. split; [|exact Hzeros].
      apply Forall_forall. intros x Hx. now apply elem_of_replicate in Hx.
Qed.

(** When the input is at its end and stays there, [copyToIncFs] with
    [waitOnEof] set and a size above zero never returns, however long it
    runs; and every turn of its wait leaves zero bytes in the buffer, so
    all it hands to IncFS meanwhile is blocks of zero bytes. *)
Theorem copyToIncFs_waits_at_eof (fuel : nat) (incfsFd size kind incomingFd : Z)
    (h : History) (r : Outcome (bool * (list byte * list IncFsDataBlock)))
    (evs : list Event) :
  0 < size ->
  copyToIncFs BS env fuel incfsFd size kind incomingFd true [] [] h = (r, evs) ->
  (forall a, r <> Ret a)
  /\ Forall (fun b => b = x00) (bytes_out evs).
Proof.
  intros Hsize E.
  assert (Hcap : Z.of_nat (length (@nil byte)) <= capacity)
    by (simpl; unfold capacity, BUFFER_SIZE; lia).
  destruct (copyToIncFs_data _ env block_size_range _ _ _ _ _ _ _ _ _ _ Hcap E)
    as (pending & Hout & _ & _ & _).
  unfold copyToIncFs in E. apply bind_inv in E.
  destruct E as [(a & e1 & e2 & Eloop & Ek & ->) | [[Eloop ->] | [Eloop ->]]];
    destruct (copyToIncFs_loop_waits _ _ _ _ _ _ _ _ _ _ _ Hsize Hcap Eloop)
      as [Hnever Hzeros].
  - exfalso. now apply (Hnever a).
  - split; [discriminate|].
    cbn [app] in Hout. rewrite <- Hout in Hzeros. now apply Forall_app in Hzeros.
  - split; [discriminate|].
    cbn [app] in Hout. rewrite <- Hout in Hzeros. now apply Forall_app in Hzeros.
Qed.

End AssemblerWaits.

Lemma copyToIncFs_waits_at_eof_witness :
  let env := script_env (fun _ => -1) [] [] [] in
  let run := copyToIncFs 4096 env 2 7 262144 INCFS_BLOCK_KIND_DATA 3 true [] [] [] in
  length (submitted (snd run)) = 64%nat
  /\ (forall a, fst run <> Ret a)
  /\ Forall (fun b => b = x00) (bytes_out (snd run)).
Proof.
  intros env run. split; [vm_compute; reflexivity|].
  apply (copyToIncFs_waits_at_eof 4096 env ltac:(lia)) with (fuel := 2%nat) (incfsFd := 7)
    (size := 262144) (kind := INCFS_BLOCK_KIND_DATA) (incomingFd := 3) (h := []).
  - intros h fd count. simpl. destruct (count_calls is_EvRead h); reflexivity.
  - intros h blocks. simpl. destruct (count_calls is_EvWriteBlocks h); lia.
  - lia.
  - vm_compute. reflexivity.
Defined.

(** *** The driver keeps the bytes it reads *)

Lemma no_transfer_quiet evs :
  no_transfer evs -> bytes_in evs = [] /\ bytes_out evs = [] /\ delivered evs = 0.
Proof.
  induction 1 as [|e evs He _ (IH1 & IH2 & IH3)]; [now repeat split|].
  change (e :: evs) with ([e] ++ evs).
  rewrite bytes_in_app, bytes_out_app, delivered_app, IH1, IH2, IH3.
  destruct e; try contradiction; now repeat split.
Qed.

Lemma only_reads_no_transfer evs : only_reads evs -> no_transfer evs.
Proof.
  intros H. eapply Forall_impl; [exact H|].
  intros e He. destruct e; try contradiction; exact I.
Qed.

Lemma no_transfer_app e1 e2 : no_transfer e1 -> no_transfer e2 -> no_transfer (e1 ++ e2).
Proof. intros H1 H2. apply Forall_app. now split. Qed.

Section DriverData.
Variable INCFS_DATA_FILE_BLOCK_SIZE : Z.
Variable host : Endian.
Variable env : Env.
Hypothesis block_size_range : 0 < INCFS_DATA_FILE_BLOCK_SIZE <= 65536.

Let BS := INCFS_DATA_FILE_BLOCK_SIZE.

Lemma verityTreeSize_no_transfer size h r evs :
  verityTreeSize BS size h = (r, evs) -> evs = [].
Proof.
  unfold verityTreeSize. destruct (verityTreeSizeForFile BS size); intros E; now inversion E.
Qed.

Lemma openLocalFile_no_transfer size filePath h r evs :
  openLocalFile BS host env size filePath h = (r, evs) -> no_transfer evs.
Proof.
  unfold openLocalFile. intros E. apply bind_inv in E.
  destruct E as [(idsigFd & e1 & e2 & Eget & Ek & ->) | [[Eget ->] | [Eget ->]]];
    apply call_inv in Eget; destruct Eget as [Ea Ee]; try discriminate.
  injection Ea as ->. subst e1.
  apply no_transfer_app; [repeat constructor|].
  apply bind_inv in Ek.
  assert (Hchecked : forall r' e',
            (if fd_ok (jni_getLocalFile env h (c_str (filePath ++ idsig_suffix)))
             then
               treeSize <- verityTreeSize BS size;;
               actualTreeSize <- skipIdSigHeaders host env
                                   (jni_getLocalFile env h (c_str (filePath ++ idsig_suffix)));;
               if negb (treeSize =? actualTreeSize) then ret None
               else ret (Some [ {| in_fd := jni_getLocalFile env h
                                              (c_str (filePath ++ idsig_suffix));
                                   in_size := treeSize;
                                   in_kind := INCFS_BLOCK_KIND_HASH; in_waitOnEof := false;
                                   in_streaming := false; in_mode := STDIN |} ])
             else ret (Some []))
              (h ++ [EvGetLocalFile (c_str (filePath ++ idsig_suffix))
                       (jni_getLocalFile env h (c_str (filePath ++ idsig_suffix)))])
            = (r', e') -> no_transfer e').
  { intros r' e' E'. destruct (fd_ok _).
    2:{ apply ret_inv in E'. destruct E' as [_ ->]. constructor. }
    apply bind_inv in E'.
    destruct E' as [(t & ea & eb & Et & E' & ->) | [[Et ->] | [Et ->]]];
      pose proof (verityTreeSize_no_transfer _ _ _ _ Et) as ->; try constructor.
    cbn [app]. apply bind_inv in E'.
    destruct E' as [(t' & ec & ed & Es & E' & ->) | [[Es ->] | [Es ->]]];
      apply skipIdSigHeaders_reads, only_reads_no_transfer in Es; try exact Es.
    apply no_transfer_app; [exact Es|].
    destruct (negb _); apply ret_inv in E'; destruct E' as [_ ->]; constructor. }
  destruct Ek as [(checked & e3 & e4 & Ec & Ek & ->) | [[Ec ->] | [Ec ->]]];
    apply Hchecked in Ec; try exact Ec.
  apply no_transfer_app; [exact Ec|].
  destruct checked as [result|].
  2:{ apply ret_inv in Ek. destruct Ek as [_ ->]. constructor. }
  apply bind_inv in Ek.
  destruct Ek as [(fileFd & e5 & e6 & Eget & Ek & ->) | [[Eget ->] | [Eget ->]]];
    apply call_inv in Eget; destruct Eget as [Ea Ee]; try discriminate.
  injection Ea as ->. subst e5.
  apply no_transfer_app; [repeat constructor|].
  destruct (fd_ok _); apply ret_inv in Ek; destruct Ek as [_ ->]; constructor.
Qed.

Lemma openInputs_no_transfer size metadata h r evs :
  openInputs BS host env size metadata h = (r, evs) -> no_transfer evs.
Proof.
  unfold openInputs. destruct (read_int8 metadata) as [first metadata'].
  destruct (_ =? MetadataMode_value LOCAL_FILE).
  { apply openLocalFile_no_transfer. }
  intros E. apply bind_inv in E.
  destruct E as [(fd & e1 & e2 & Eget & Ek & ->) | [[Eget ->] | [Eget ->]]];
    apply call_inv in Eget; destruct Eget as [Ea Ee]; try discriminate.
  injection Ea as ->. subst e1.
  apply no_transfer_app; [repeat constructor|].
  destruct (negb _); [apply ret_inv in Ek; destruct Ek as [_ ->]; constructor|].
  destruct (_ =? MetadataMode_value STDIN);
    [apply ret_inv in Ek; destruct Ek as [_ ->]; constructor|].
  destruct (_ =? MetadataMode_value DATA_ONLY_STREAMING).
  { apply bind_inv in Ek.
    destruct Ek as [(t & ea & eb & Et & Ek & ->) | [[Et ->] | [Et ->]]];
      pose proof (verityTreeSize_no_transfer _ _ _ _ Et) as ->; try constructor.
    apply ret_inv in Ek. destruct Ek as [_ ->]. constructor. }
  destruct (_ =? MetadataMode_value STREAMING);
    apply ret_inv in Ek; destruct Ek as [_ ->]; constructor.
Qed.

Lemma copy_inputs_data fuel incfsFd inputs :
  forall streamingFd streamingMode h r evs,
    copy_inputs BS env fuel incfsFd inputs streamingFd streamingMode [] [] h = (r, evs) ->
    exists pending,
      bytes_out evs ++ pending = bytes_in evs
      /\ (forall ok streamingFd' streamingMode' buffer' blocks',
            r = Ret (ok, (streamingFd', streamingMode', buffer', blocks')) ->
            buffer' = pending /\ blocks' = [] /\ (ok = true -> pending = [])).
Proof.
  induction inputs as [|input inputs IH]; intros sF sM h r evs E.
  - cbn [copy_inputs] in E. apply ret_inv in E. destruct E as [-> ->].
    exists []. split; [reflexivity|]. intros ? ? ? ? ? Er. inversion Er; subst. now repeat split.
  - cbn [copy_inputs] in E. apply bind_inv in E.
    assert (Hdup : forall r' e',
              (if in_streaming input && negb (fd_ok sF)
               then newfd <- dup env (in_fd input);; ret (newfd, Some (in_mode input))
               else ret (sF, sM)) h = (r', e') -> no_transfer e' /\ exists a, r' = Ret a).
    { intros r' e' E'. destruct (_ && _).
      - unfold dup in E'. rewrite bind_call in E'. inversion E'; subst.
        split; [repeat constructor|eauto].
      - apply ret_inv in E'. destruct E' as [-> ->]. split; [constructor|eauto]. }
    destruct E as [([sF1 sM1] & e1 & e2 & Ed & Ek & ->) | [[Ed ->] | [Ed ->]]];
      destruct (Hdup _ _ Ed) as [Hq [a Ha]]; try discriminate.
    apply no_transfer_quiet in Hq. destruct Hq as (Hin1 & Hout1 & _).
    rewrite bytes_out_app, bytes_in_app, Hin1, Hout1. cbn [app].
    apply bind_inv in Ek.
    destruct Ek as [([ok1 [buf1 bl1]] & e3 & e4 & Ecopy & Ek & ->) | [[Ecopy ->] | [Ecopy ->]]];
      destruct (copyToIncFs_data _ env block_size_range _ _ _ _ _ _ [] _ _ _
                  ltac:(simpl; unfold capacity, BUFFER_SIZE; lia) Ecopy)
        as (pending3 & Hout3 & _ & _ & Hret3).
    2,3: exists pending3; split; [exact Hout3|intros; discriminate].
    destruct (Hret3 _ _ _ eq_refl) as (-> & -> & Hnil & _).
    destruct ok1; cbn [negb] in Ek.
    + specialize (Hnil eq_refl). subst pending3. rewrite app_nil_r in Hout3.
      apply IH in Ek. destruct Ek as (pending & Hout & Hret).
      exists pending. rewrite bytes_out_app, bytes_in_app, <- app_assoc, Hout, Hout3.
      split; [reflexivity|exact Hret].
    + apply ret_inv in Ek. destruct Ek as [-> ->]. rewrite app_nil_r.
      exists pending3. split; [exact Hout3|].
      intros ? ? ? ? ? Er. inversion Er; subst. repeat split; auto; discriminate.
Qed.

Lemma prepare_files_data fuel addedFiles :
  forall streamingFd streamingMode h r evs,
    prepare_files BS host env fuel addedFiles streamingFd streamingMode [] [] h = (r, evs) ->
    exists pending,
      bytes_out evs ++ pending = bytes_in evs
      /\ (forall ok streamingFd' streamingMode' buffer' blocks',
            r = Ret (ok, (streamingFd', streamingMode', buffer', blocks')) ->
            blocks' = [] /\ (ok = true -> pending = [] /\ buffer' = [])).
Proof.
  induction addedFiles as [|file addedFiles IH]; intros sF sM h r evs E.
  - cbn [prepare_files] in E. apply ret_inv in E. destruct E as [-> ->].
    exists []. split; [reflexivity|]. intros ? ? ? ? ? Er. inversion Er; subst. now repeat split.
  - cbn [prepare_files] in E. apply bind_inv in E.
    destruct E as [(inputs & e1 & e2 & Eopen & Ek & ->) | [[Eopen ->] | [Eopen ->]]];
      apply openInputs_no_transfer, no_transfer_quiet in Eopen;
      destruct Eopen as (Hin1 & Hout1 & _).
    2,3: exists []; rewrite Hin1, Hout1; split; [reflexivity|intros; discriminate].
    rewrite bytes_out_app, bytes_in_app, Hin1, Hout1. cbn [app].
    destruct inputs as [|input inputs].
    { apply ret_inv in Ek. destruct Ek as [-> ->]. exists []. split; [reflexivity|].
      intros ? ? ? ? ? Er. inversion Er; subst. split; [reflexivity|discriminate]. }
    apply bind_inv in Ek.
    destruct Ek as [(incfsFd & e3 & e4 & Efd & Ek & ->) | [[Efd ->] | [Efd ->]]];
      apply call_inv in Efd; destruct Efd as [Ea Ee]; try discriminate.
    injection Ea as ->. subst e3.
    change (bytes_out ([EvOpenForSpecialOps (incfs_FileIdFromMetadata env (file_metadata file))
                          (ifs_openForSpecialOps env (h ++ e1)
                             (incfs_FileIdFromMetadata env (file_metadata file)))] ++ e4))
      with (bytes_out e4).
    change (bytes_in ([EvOpenForSpecialOps (incfs_FileIdFromMetadata env (file_metadata file))
                         (ifs_openForSpecialOps env (h ++ e1)
                            (incfs_FileIdFromMetadata env (file_metadata file)))] ++ e4))
      with (bytes_in e4).
    destruct (_ <? 0).
    { apply ret_inv in Ek. destruct Ek as [-> ->]. exists []. split; [reflexivity|].
      intros ? ? ? ? ? Er. inversion Er; subst. split; [reflexivity|discriminate]. }
    apply bind_inv in Ek.
    destruct Ek as [([ok1 [[[sF1 sM1] buf1] bl1]] & e5 & e6 & Ecopy & Ek & ->)
                   | [[Ecopy ->] | [Ecopy ->]]];
      destruct (copy_inputs_data _ _ _ _ _ _ _ _ Ecopy) as (pending5 & Hout5 & Hret5).
    2,3: exists pending5; split; [exact Hout5|intros; discriminate].
    destruct (Hret5 _ _ _ _ _ eq_refl) as (-> & -> & Hnil).
    destruct ok1; cbn [negb] in Ek.
    + specialize (Hnil eq_refl). subst pending5. rewrite app_nil_r in Hout5.
      apply IH in Ek. destruct Ek as (pending & Hout & Hret).
      exists pending. rewrite bytes_out_app, bytes_in_app, <- app_assoc, Hout, Hout5.
      split; [reflexivity|exact Hret].
    + apply ret_inv in Ek. destruct Ek as [-> ->]. rewrite app_nil_r.
      exists pending5. split; [exact Hout5|].
      intros ? ? ? ? ? Er. inversion Er; subst. split; [reflexivity|discriminate].
Qed.

Lemma initStreaming_no_transfer inout mode h r evs :
  initStreaming env inout mode h = (r, evs) -> no_transfer evs.
Proof.
  unfold initStreaming. intros E. rewrite bind_call in E.
  injection E as _ <-. constructor; [exact I|].
  destruct (_ <? 0); [constructor|].
  destruct (bind _ _ _) as [r' e'] eqn:E'. cbn [snd].
  apply bind_inv in E'.
  destruct E' as [(a & e1 & e2 & Er & Ek & ->) | [[Er ->] | [Er ->]]];
    apply ReadFully_reads, only_reads_no_transfer in Er; try exact Er.
  apply no_transfer_app; [exact Er|].
  destruct a as [okay_buf|]; [|apply ret_inv in Ek; destruct Ek as [_ ->]; constructor].
  destruct (negb _); [apply ret_inv in Ek; destruct Ek as [_ ->]; constructor|].
  unfold dup in Ek. rewrite bind_call in Ek. injection Ek as _ <-.
  repeat constructor.
Qed.

Lemma bytes_in_delivered evs : every_read_delivers evs -> bytes_in evs = bytes_delivered evs.
Proof.
  induction 1 as [|e evs He _ IH]; [reflexivity|].
  unfold bytes_in, bytes_delivered in *. cbn [map concat]. rewrite IH. f_equal.
  destruct e; try reflexivity. destruct r as [|[|b bs]]; try contradiction. reflexivity.
Qed.

Lemma onPrepareImage_data (fuel : nat) (mArgs : list byte)
    (addedFiles : list InstallationFile) (h : History) (r : Outcome bool) (evs : list Event) :
  onPrepareImage BS host env fuel mArgs addedFiles h = (r, evs) ->
  bytes_out evs `prefix_of` bytes_in evs
  /\ (r = Ret true -> bytes_out evs = bytes_in evs).
Proof.
  unfold onPrepareImage. intros E. apply bind_inv in E.
  destruct E as [(shell & e0 & e' & Ec & E' & ->) | [[Ec ->] | [Ec ->]]];
    apply call_inv in Ec; destruct Ec as [Ea Ee]; try discriminate.
  injection Ea as ->. subst e0.
  match goal with |- context [bytes_out ([?e] ++ _)] =>
    assert (Hq0 : no_transfer [e]) by (repeat constructor) end.
  apply no_transfer_quiet in Hq0. destruct Hq0 as (Hin0 & Hout0 & _).
  rewrite bytes_out_app, bytes_in_app, Hin0, Hout0. cbn [app]. clear Hin0 Hout0.
  destruct (negb _).
  { apply ret_inv in E'. destruct E' as [-> ->]. split; [reflexivity|discriminate]. }
  apply bind_inv in E'.
  destruct E' as [([ok [[[sF sM] buf] bl]] & e1 & e2 & Ep & Ek & ->) | [[Ep ->] | [Ep ->]]];
    destruct (prepare_files_data _ _ _ _ _ _ _ Ep) as (pending & Hout & Hret).
  2,3: split; [exists pending; now rewrite Hout|intros; discriminate].
  destruct (Hret _ _ _ _ _ eq_refl) as (-> & Hnil).
  destruct ok; cbn [negb] in Ek.
  2:{ apply ret_inv in Ek. destruct Ek as [-> ->]. rewrite app_nil_r.
      split; [exists pending; now rewrite Hout|intros; discriminate]. }
  destruct (Hnil eq_refl) as [-> ->]. rewrite app_nil_r in Hout.
  assert (Hq : no_transfer e2).
  { destruct (fd_ok sF).
    - destruct sM; [eapply initStreaming_no_transfer; exact Ek|].
      inversion Ek; subst. constructor.
    - apply ret_inv in Ek. destruct Ek as [_ ->]. constructor. }
  apply no_transfer_quiet in Hq. destruct Hq as (Hin2 & Hout2 & _).
  rewrite bytes_out_app, bytes_in_app, Hin2, Hout2, !app_nil_r, Hout.
  split; [reflexivity|intros; reflexivity].
Qed.

(** From the first call of [onPrepareImage] to its return, the
    payloads of the blocks submitted, end to end, are a prefix of what the
    calls of [::read] added to the buffer, in order: the bytes a call
    delivered, or, for a call that delivered nothing (end of input, or an
    error), the zero bytes of the [resize] before it, which are not taken
    back.  When [onPrepareImage] returns true they are all of it.  So in a
    run in which every call of [::read] delivers at least one byte, the
    bytes submitted are a prefix of the bytes delivered, and all of them
    after a return of true. *)
Theorem onPrepareImage_conserves_bytes (fuel : nat) (mArgs : list byte)
    (addedFiles : list InstallationFile) (h : History) (r : Outcome bool) (evs : list Event) :
  onPrepareImage BS host env fuel mArgs addedFiles h = (r, evs) ->
  bytes_out evs `prefix_of` bytes_in evs
  /\ (r = Ret true -> bytes_out evs = bytes_in evs)
  /\ (every_read_delivers evs ->
      bytes_in evs = bytes_delivered evs
      /\ bytes_out evs `prefix_of` bytes_delivered evs
      /\ (r = Ret true -> bytes_out evs = bytes_delivered evs)).
Proof.
  intros E.
  destruct (onPrepareImage_data _ _ _ _ _ _ E) as [Hpre Hall].
  split; [exact Hpre|]. split; [exact Hall|].
  intros Hreads. rewrite <- (bytes_in_delivered _ Hreads). now repeat split.
Qed.

End DriverData.

Lemma onPrepareImage_conserves_bytes_witness :
  let env := script_env (fun _ => -1) stalled_then_three [] [] in
  let file := {| file_name := [x61]; file_size := 3; file_metadata := [] |} in
  let run := onPrepareImage 4096 LittleEndian env 10 [] [file] [] in
  fst run = Ret true
  /\ bytes_delivered (snd run) = [x61; x62; x63]
  /\ bytes_in (snd run) = [x00; x00; x00; x61; x62; x63]
  /\ bytes_out (snd run) = bytes_in (snd run).
Proof.
  intros env file run.
  destruct (onPrepareImage_conserves_bytes 4096 LittleEndian env ltac:(lia) 10 []
              [file] [] (fst run) (snd run)) as (_ & Hall & _);
    [vm_compute; reflexivity|].
  split; [vm_compute; reflexivity|]. split; [vm_compute; reflexivity|].
  split; [vm_compute; reflexivity|]. apply Hall. vm_compute. reflexivity.
Defined.

(** *** The wire codec on either byte order *)

Lemma be16toh_load host b0 b1 :
  be16toh host (load host [b0; b1]) = 256 * byte_to_Z b0 + byte_to_Z b1.
Proof.
  pose proof (byte_to_Z_range b0). pose proof (byte_to_Z_range b1).
  destruct host; cbn [be16toh load le_value rev app].
  - rewrite bswap16_arith. Z.to_euclidean_division_equations. lia.
  - lia.
Qed.

Lemma be32toh_load host b0 b1 b2 b3 :
  be32toh host (load host [b0; b1; b2; b3])
  = 16777216 * byte_to_Z b0 + 65536 * byte_to_Z b1 + 256 * byte_to_Z b2 + byte_to_Z b3.
Proof.
  pose proof (byte_to_Z_range b0). pose proof (byte_to_Z_range b1).
  pose proof (byte_to_Z_range b2). pose proof (byte_to_Z_range b3).
  destruct host; cbn [be32toh load le_value rev app].
  - rewrite bswap32_arith.
    replace (byte_to_Z b0 + 256 * (byte_to_Z b1 + 256 * (byte_to_Z b2
               + 256 * (byte_to_Z b3 + 256 * 0))))
      with (byte_to_Z b0 + 256 * byte_to_Z b1 + 65536 * byte_to_Z b2
            + 16777216 * byte_to_Z b3) by lia.
    set (x := byte_to_Z b0 + 256 * byte_to_Z b1 + 65536 * byte_to_Z b2
              + 16777216 * byte_to_Z b3).
    assert (E0 : x mod 256 = byte_to_Z b0)
      by (unfold x; Z.to_euclidean_division_equations; lia).
    assert (E1 : (x / 256) mod 256 = byte_to_Z b1)
      by (unfold x; Z.to_euclidean_division_equations; lia).
    assert (E2 : (x / 65536) mod 256 = byte_to_Z b2)
      by (unfold x; Z.to_euclidean_division_equations; lia).
    assert (E3 : (x / 16777216) mod 256 = byte_to_Z b3)
      by (unfold x; Z.to_euclidean_division_equations; lia).
    rewrite E0, E1, E2, E3. lia.
  - lia.
Qed.

Lemma le32toh_load host b0 b1 b2 b3 :
  le32toh host (load host [b0; b1; b2; b3])
  = byte_to_Z b0 + 256 * byte_to_Z b1 + 65536 * byte_to_Z b2 + 16777216 * byte_to_Z b3.
Proof.
  destruct host.
  - cbn [le32toh load le_value]. lia.
  - change (le32toh BigEndian (load BigEndian [b0; b1; b2; b3]))
      with (be32toh LittleEndian (load LittleEndian [b3; b2; b1; b0])).
    rewrite be32toh_load. lia.
Qed.

Lemma readHeader_bytes (host : Endian) (b0 b1 b2 b3 b4 b5 b6 b7 b8 b9 : byte)
    (rest : list byte) :
  readHeader host (b0 :: b1 :: b2 :: b3 :: b4 :: b5 :: b6 :: b7 :: b8 :: b9 :: rest)
  = ({| bh_fileIdx := int16 (256 * byte_to_Z b0 + byte_to_Z b1);
        bh_blockType := int8 (byte_to_Z b2);
        bh_compressionType := int8 (byte_to_Z b3);
        bh_blockIdx := int32 (16777216 * byte_to_Z b4 + 65536 * byte_to_Z b5
                              + 256 * byte_to_Z b6 + byte_to_Z b7);
        bh_blockSize := int16 (256 * byte_to_Z b8 + byte_to_Z b9) |},
     rest).
Proof.
  unfold readHeader.
  assert (Hlen : (Z.of_nat (length (b0 :: b1 :: b2 :: b3 :: b4 :: b5 :: b6 :: b7 :: b8 :: b9
                                       :: rest)) <? HEADER_SIZE) = false).
  { apply Z.ltb_ge. cbn [length]. unfold HEADER_SIZE. lia. }
  rewrite Hlen.
  change (slice (b0 :: b1 :: b2 :: b3 :: b4 :: b5 :: b6 :: b7 :: b8 :: b9 :: rest) 0 2)
    with [b0; b1].
  change (slice (b0 :: b1 :: b2 :: b3 :: b4 :: b5 :: b6 :: b7 :: b8 :: b9 :: rest) 2 1)
    with [b2].
  change (slice (b0 :: b1 :: b2 :: b3 :: b4 :: b5 :: b6 :: b7 :: b8 :: b9 :: rest) 3 1)
    with [b3].
  change (slice (b0 :: b1 :: b2 :: b3 :: b4 :: b5 :: b6 :: b7 :: b8 :: b9 :: rest) 4 4)
    with [b4; b5; b6; b7].
  change (slice (b0 :: b1 :: b2 :: b3 :: b4 :: b5 :: b6 :: b7 :: b8 :: b9 :: rest) 8 2)
    with [b8; b9].
  change (drop (Z.to_nat HEADER_SIZE)
            (b0 :: b1 :: b2 :: b3 :: b4 :: b5 :: b6 :: b7 :: b8 :: b9 :: rest))
    with rest.
  rewrite !be16toh_load, be32toh_load.
  assert (E1 : forall b, load host [b] = byte_to_Z b).
  { intros b. destruct host; cbn [load le_value rev app]; lia. }
  rewrite !E1. reflexivity.
Qed.

(** On a host of either byte order [readHeader] decodes the ten bytes
    of a header as big-endian fields: a signed 16-bit file index, two
    signed bytes, a signed 32-bit block index and a signed 16-bit size;
    the data goes on after them. *)
Theorem readHeader_big_endian (host : Endian) (b0 b1 b2 b3 b4 b5 b6 b7 b8 b9 : byte)
    (rest : list byte) :
  readHeader host (b0 :: b1 :: b2 :: b3 :: b4 :: b5 :: b6 :: b7 :: b8 :: b9 :: rest)
  = ({| bh_fileIdx := int16 (256 * byte_to_Z b0 + byte_to_Z b1);
        bh_blockType := int8 (byte_to_Z b2);
        bh_compressionType := int8 (byte_to_Z b3);
        bh_blockIdx := int32 (16777216 * byte_to_Z b4 + 65536 * byte_to_Z b5
                              + 256 * byte_to_Z b6 + byte_to_Z b7);
        bh_blockSize := int16 (256 * byte_to_Z b8 + byte_to_Z b9) |},
     rest).
Proof. apply readHeader_bytes. Qed.

Lemma store16_be x :
  store BigEndian 2 (int16 (be16toh BigEndian (uint16 x)))
  = [byte_of_Z (x / 256); byte_of_Z x].
Proof.
  unfold store, be16toh. rewrite le_bytes_2. cbn [rev app].
  unfold int16, to_signed, uint16, to_unsigned.
  f_equal; [|f_equal]; apply byte_of_Z_mod;
    change (2 ^ 16) with 65536; change (2 ^ (16 - 1)) with 32768;
    Z.to_euclidean_division_equations; lia.
Qed.

Lemma store32_be x :
  store BigEndian 4 (int32 (be32toh BigEndian (uint32 x)))
  = [byte_of_Z (x / 16777216); byte_of_Z (x / 65536); byte_of_Z (x / 256); byte_of_Z x].
Proof.
  unfold store, be32toh. rewrite le_bytes_4. cbn [rev app].
  unfold uint32, to_unsigned. change (2 ^ 32) with 4294967296.
  destruct (int32_congr (x mod 4294967296)) as [c Ec].
  { apply Z.mod_pos_bound. lia. }
  rewrite Ec.
  assert (Ex : x mod 4294967296 - 4294967296 * c
               = x - 4294967296 * (x / 4294967296 + c)).
  { pose proof (Z.div_mod x 4294967296 ltac:(lia)). lia. }
  rewrite Ex. generalize (x / 4294967296 + c). intros d.
  f_equal; [|f_equal; [|f_equal; [|f_equal]]]; apply byte_of_Z_mod.
  - replace (x - 4294967296 * d) with (x + (- 256 * d) * 16777216) by lia.
    rewrite Z.div_add by lia.
    replace (x / 16777216 + - 256 * d) with (x / 16777216 + (- d) * 256) by lia.
    now rewrite Z.mod_add by lia.
  - replace (x - 4294967296 * d) with (x + (- 65536 * d) * 65536) by lia.
    rewrite Z.div_add by lia.
    replace (x / 65536 + - 65536 * d) with (x / 65536 + (- 256 * d) * 256) by lia.
    now rewrite Z.mod_add by lia.
  - replace (x - 4294967296 * d) with (x + (- 16777216 * d) * 256) by lia.
    rewrite Z.div_add by lia.
    replace (x / 256 + - 16777216 * d) with (x / 256 + (- 65536 * d) * 256) by lia.
    now rewrite Z.mod_add by lia.
  - replace (x - 4294967296 * d) with (x + (- 16777216 * d) * 256) by lia.
    now rewrite Z.mod_add by lia.
Qed.

Lemma RequestCommand_image_any host requestType fileIdx blockIdx :
  RequestCommand_image host (sendRequest_command host requestType fileIdx blockIdx)
  = store host 4 INCR
      ++ [byte_of_Z (requestType / 256); byte_of_Z requestType;
          byte_of_Z (fileIdx / 256); byte_of_Z fileIdx;
          byte_of_Z (blockIdx / 16777216); byte_of_Z (blockIdx / 65536);
          byte_of_Z (blockIdx / 256); byte_of_Z blockIdx].
Proof.
  destruct host.
  - rewrite RequestCommand_image_le. reflexivity.
  - unfold RequestCommand_image, sendRequest_command.
    cbn [rc_magic rc_requestType rc_fileIdx rc_blockIdx].
    rewrite !store16_be, store32_be. reflexivity.
Qed.

(** On a host of either byte order the request of [sendRequest] is
    twelve bytes: the magic in the byte order of the host ("INCR" on a
    little-endian host, "RCNI" on a big-endian one), then the request
    type, the file index and the block index in network byte order. *)
Theorem sendRequest_fields_network_order (host : Endian) (requestType fileIdx blockIdx : Z) :
  RequestCommand_image host (sendRequest_command host requestType fileIdx blockIdx)
  = match host with
    | LittleEndian => [x49; x4e; x43; x52]
    | BigEndian => [x52; x43; x4e; x49]
    end
      ++ [byte_of_Z (requestType / 256); byte_of_Z requestType;
          byte_of_Z (fileIdx / 256); byte_of_Z fileIdx;
          byte_of_Z (blockIdx / 16777216); byte_of_Z (blockIdx / 65536);
          byte_of_Z (blockIdx / 256); byte_of_Z blockIdx].
Proof.
  rewrite RequestCommand_image_any. destruct host; reflexivity.
Qed.

Lemma ReadFully_inv env fd count h r evs :
  count <> 0 ->
  ReadFully env fd count h = (r, evs) ->
  exists a, r = Ret a /\ evs = [EvReadFully fd count a]
            /\ forall bs, a = Some bs -> Z.of_nat (length bs) = count.
Proof.
  intros Hc. unfold ReadFully. destruct (Z.eqb_spec count 0) as [?|_]; [contradiction|].
  intros E. apply call_inv in E. destruct E as [-> ->].
  eexists. split; [reflexivity|]. split; [reflexivity|].
  intros bs. destruct (base_ReadFully env h fd count) as [bs'|]; [|discriminate].
  destruct (Z.eqb_spec (Z.of_nat (length bs')) count); [|discriminate].
  intros E. now inversion E; subst.
Qed.

(** [readChunk] on a host of either byte order.  It returns, and its
    first call reads the four bytes of the length prefix.  When that read
    fails, or when the prefix, as a big-endian signed 32-bit integer, is
    zero or negative, [readChunk] returns false with no second read and
    leaves the data as it was.  When it returns true the prefix is positive
    and the second read has taken exactly that many bytes, which are the
    chunk. *)
Theorem readChunk_frame (host : Endian) (env : Env) (fd : Z) (data : list byte)
    (h : History) (r : Outcome (bool * list byte)) (evs : list Event) :
  readChunk host env fd data h = (r, evs) ->
  exists ok chunk prefix rest,
    r = Ret (ok, chunk)
    /\ evs = EvReadFully fd 4 prefix :: rest
    /\ (prefix = None -> rest = [] /\ ok = false /\ chunk = data)
    /\ (forall raw, prefix = Some raw -> int32 (load BigEndian raw) <= 0 ->
        rest = [] /\ ok = false /\ chunk = data)
    /\ (ok = true ->
        exists b0 b1 b2 b3,
          let size := 16777216 * byte_to_Z b0 + 65536 * byte_to_Z b1
                      + 256 * byte_to_Z b2 + byte_to_Z b3 in
          0 < size <= INT32_MAX
          /\ prefix = Some [b0; b1; b2; b3]
          /\ rest = [EvReadFully fd size (Some chunk)]
          /\ Z.of_nat (length chunk) = size).
Proof.
  unfold readChunk. intros E. apply bind_inv in E.
  destruct E as [(a & e1 & e2 & Er & Ek & ->) | [[Er ->] | [Er ->]]];
    apply ReadFully_inv in Er; try discriminate;
    destruct Er as (a' & Ea & -> & Hlen); try discriminate.
  injection Ea as <-.
  destruct a as [raw|].
  2:{ apply ret_inv in Ek. destruct Ek as [-> ->]. exists false, data, None, [].
      split; [reflexivity|]. split; [reflexivity|]. split; [now repeat split|].
      split; [intros raw Eraw; discriminate|discriminate]. }
  specialize (Hlen raw eq_refl).
  destruct raw as [|b0 [|b1 [|b2 [|b3 [|b4 raw]]]]]; cbn [length] in Hlen; try lia.
  rewrite be32toh_load in Ek.
  assert (Ebe : load BigEndian [b0; b1; b2; b3]
                = 16777216 * byte_to_Z b0 + 65536 * byte_to_Z b1
                  + 256 * byte_to_Z b2 + byte_to_Z b3).
  { cbn [load rev app le_value]. lia. }
  set (v := 16777216 * byte_to_Z b0 + 65536 * byte_to_Z b1
            + 256 * byte_to_Z b2 + byte_to_Z b3) in *.
  assert (Hv : 0 <= v < 4294967296).
  { pose proof (byte_to_Z_range b0). pose proof (byte_to_Z_range b1).
    pose proof (byte_to_Z_range b2). pose proof (byte_to_Z_range b3). unfold v. lia. }
  assert (Hint : (v <= INT32_MAX -> int32 v = v) /\ (INT32_MAX < v -> int32 v < 0)).
  { unfold int32, to_signed, INT32_MAX. change (2 ^ 32) with 4294967296.
    change (2 ^ (32 - 1)) with 2147483648.
    split; intros; Z.to_euclidean_division_equations; lia. }
  destruct (Z.leb_spec (int32 v) 0) as [Hle|Hgt].
  { apply ret_inv in Ek. destruct Ek as [-> ->].
    exists false, data, (Some [b0; b1; b2; b3]), [].
    split; [reflexivity|]. split; [reflexivity|]. split; [discriminate|].
    split; [intros; now repeat split|discriminate]. }
  assert (Esize : int32 v = v /\ v <= INT32_MAX).
  { destruct (Z.le_gt_cases v INT32_MAX) as [Hs|Hs]; [split; [now apply Hint|exact Hs]|].
    apply Hint in Hs. lia. }
  destruct Esize as [Esize Hmax]. rewrite Esize in *.
  assert (Elen : Z.of_nat (length (resize data v)) = v).
  { unfold resize. rewrite length_app, length_take, length_replicate. lia. }
  rewrite Elen in Ek.
  apply bind_inv in Ek.
  destruct Ek as [(a & e3 & e4 & Er & Ek & ->) | [[Er ->] | [Er ->]]];
    apply ReadFully_inv in Er; try lia;
    destruct Er as (a' & Ea & -> & Hlen2); try discriminate.
  injection Ea as <-.
  assert (Hpos : forall raw', Some [b0; b1; b2; b3] = Some raw' ->
                              int32 (load BigEndian raw') <= 0 -> False).
  { intros raw' Eraw Hle. injection Eraw as <-. rewrite Ebe, Esize in Hle. lia. }
  destruct a as [bytes|]; apply ret_inv in Ek; destruct Ek as [-> ->].
  - exists true, bytes, (Some [b0; b1; b2; b3]), [EvReadFully fd v (Some bytes)].
    split; [reflexivity|]. split; [reflexivity|]. split; [discriminate|].
    split; [intros raw' Eraw Hle; destruct (Hpos raw' Eraw Hle)|].
    intros _. exists b0, b1, b2, b3. cbv zeta. fold v.
    split; [lia|]. split; [reflexivity|]. split; [reflexivity|]. now apply Hlen2.
  - exists false, (resize data v), (Some [b0; b1; b2; b3]), [EvReadFully fd v None].
    split; [reflexivity|]. split; [reflexivity|]. split; [discriminate|].
    split; [intros raw' Eraw Hle; destruct (Hpos raw' Eraw Hle)|discriminate].
Qed.

Lemma readChunk_frame_witness :
  let env := script_env (fun _ => -1) [] [Some [xff; xff; xff; xfe]; Some sentinel_chunk] [] in
  let run := readChunk LittleEndian env 3 [x2a] [] in
  int32 (load BigEndian [xff; xff; xff; xfe]) = -2
  /\ run = (Ret (false, [x2a]), [EvReadFully 3 4 (Some [xff; xff; xff; xfe])]).
Proof.
  intros env run.
  destruct (readChunk_frame LittleEndian env 3 [x2a] [] (fst run) (snd run))
    as (ok & chunk & prefix & rest & Er & Eevs & _ & Hneg & _);
    [vm_compute; reflexivity|].
  assert (Eprefix : prefix = Some [xff; xff; xff; xfe]).
  { assert (Ehd : snd run = EvReadFully 3 4 (Some [xff; xff; xff; xfe]) :: tl (snd run))
      by (vm_compute; reflexivity).
    rewrite Eevs in Ehd. now inversion Ehd. }
  assert (Hval : int32 (load BigEndian [xff; xff; xff; xfe]) = -2)
    by (vm_compute; reflexivity).
  destruct (Hneg _ Eprefix ltac:(rewrite Hval; lia)) as (-> & -> & ->).
  split; [exact Hval|].
  rewrite (surjective_pairing run), Er, Eevs, Eprefix. reflexivity.
Defined.

(** *** File ids *)

Lemma convertFileIndexToFileId_inj (m n : MetadataMode) (i j : Z) :
  in_int16 i -> in_int16 j ->
  convertFileIndexToFileId m i = convertFileIndexToFileId n j ->
  m = n /\ i = j.
Proof.
  intros Hi Hj E.
  destruct (convertFileIndexToFileId_image m i Hi) as [_ Ei].
  destruct (convertFileIndexToFileId_image n j Hj) as [_ Ej].
  rewrite Ei, Ej in E. injection E as Emode Etext.
  split.
  - destruct m, n; try reflexivity; vm_compute in Emode; discriminate.
  - apply (f_equal from_chars) in Etext.
    destruct (decimal_text_spec i Hi) as [_ Fi].
    destruct (decimal_text_spec j Hj) as [_ Fj].
    rewrite Fi, Fj in Etext by apply ends_digits_zeros.
    now inversion Etext.
Qed.

(** [convertFileIndexToFileId] gives different ids to different file
    indices and to different modes: two ids are equal only when they come
    from the same mode and the same index. *)
Theorem convertFileIndexToFileId_injective (m n : MetadataMode) (i j : Z) :
  in_int16 i -> in_int16 j ->
  m <> n \/ i <> j ->
  convertFileIndexToFileId m i <> convertFileIndexToFileId n j.
Proof.
  intros Hi Hj Hne E. destruct (convertFileIndexToFileId_inj m n i j Hi Hj E).
  destruct Hne as [Hne|Hne]; now apply Hne.
Qed.

Lemma convertFileIndexToFileId_injective_witness :
  convertFileIndexToFileId STREAMING 1 <> convertFileIndexToFileId STREAMING 10.
Proof.
  apply (convertFileIndexToFileId_injective STREAMING STREAMING 1 10);
    [unfold in_int16, INT16_MIN, INT16_MAX; lia
    |unfold in_int16, INT16_MIN, INT16_MAX; lia
    |right; lia].
Defined.

(** *** Pending reads *)

Lemma requests_app e1 e2 : requests (e1 ++ e2) = requests e1 ++ requests e2.
Proof. unfold requests. now rewrite map_app, concat_app. Qed.

Lemma count_calls_app p e1 e2 :
  count_calls p (e1 ++ e2) = (count_calls p e1 + count_calls p e2)%nat.
Proof. unfold count_calls. now rewrite List.filter_app, length_app. Qed.

Lemma request_type_image host requestType fileIdx blockIdx :
  request_type (RequestCommand_image host
                  (sendRequest_command host requestType fileIdx blockIdx))
  = requestType mod 65536.
Proof.
  rewrite RequestCommand_image_any.
  assert (E : forall bs, nth 4 (store host 4 INCR ++ bs) x00 = nth 0 bs x00
                         /\ nth 5 (store host 4 INCR ++ bs) x00 = nth 1 bs x00)
    by (intros bs; destruct host; split; reflexivity).
  unfold request_type.
  rewrite (proj1 (E _)), (proj2 (E _)). cbn [nth].
  rewrite !byte_to_of_Z. Z.to_euclidean_division_equations. lia.
Qed.

Lemma request_fileIdx_image host requestType fileIdx blockIdx :
  request_fileIdx (RequestCommand_image host
                     (sendRequest_command host requestType fileIdx blockIdx))
  = fileIdx mod 65536.
Proof.
  rewrite RequestCommand_image_any.
  assert (E : forall bs, nth 6 (store host 4 INCR ++ bs) x00 = nth 2 bs x00
                         /\ nth 7 (store host 4 INCR ++ bs) x00 = nth 3 bs x00)
    by (intros bs; destruct host; split; reflexivity).
  unfold request_fileIdx.
  rewrite (proj1 (E _)), (proj2 (E _)). cbn [nth].
  rewrite !byte_to_of_Z. Z.to_euclidean_division_equations. lia.
Qed.

Lemma convertFileIdToFileIndex_range fileId : in_int16 (convertFileIdToFileIndex fileId).
Proof.
  unfold convertFileIdToFileIndex.
  destruct (_ && _); [unfold in_int16, INT16_MIN, INT16_MAX; lia|].
  destruct (from_chars _) as [ec fileIdx].
  destruct (negb (errc_is_ok ec)); [unfold in_int16, INT16_MIN, INT16_MAX; cbn; lia|].
  cbn [orb].
  destruct (Z.ltb_spec fileIdx INT16_MIN); [unfold in_int16, INT16_MIN, INT16_MAX; cbn; lia|].
  destruct (Z.ltb_spec INT16_MAX fileIdx); [unfold in_int16, INT16_MIN, INT16_MAX; cbn; lia|].
  cbn [orb]. rewrite int16_id; unfold in_int16; lia.
Qed.

Lemma sendRequest_inv host env fd requestType fileIdx blockIdx h r evs :
  sendRequest host env fd requestType fileIdx blockIdx h = (r, evs) ->
  let bytes := RequestCommand_image host
                 (sendRequest_command host requestType fileIdx blockIdx) in
  exists written,
    evs = [EvWriteFully fd bytes written]
    /\ r = Ret (written =? length bytes)%nat.
Proof.
  intros E bytes. unfold sendRequest, WriteFully in E. rewrite bind_call in E.
  injection E as <- <-. eexists. split; reflexivity.
Qed.

Lemma insert_member (f g : Z) (R : gset Z) : g ∈ R -> f ∈ {[g]} ∪ R <-> f ∈ R.
Proof.
  intros Hg. rewrite elem_of_union, elem_of_singleton. split; [|now right].
  intros [->|H]; assumption.
Qed.

Lemma insert_other (f g : Z) (R : gset Z) : g <> f -> f ∈ {[g]} ∪ R <-> f ∈ R.
Proof.
  intros Hne. rewrite elem_of_union, elem_of_singleton. split; [|now right].
  intros [E|H]; [now symmetry in E|assumption].
Qed.

Lemma erase_other (f g : Z) (R : gset Z) : g <> f -> f ∈ ({[g]} ∪ R) ∖ {[g]} <-> f ∈ R.
Proof.
  intros Hne. rewrite elem_of_difference, elem_of_union, !elem_of_singleton. split.
  - intros [[E|H] _]; [now symmetry in E|assumption].
  - intros H. split; [now right|]. intros E. now symmetry in E.
Qed.

Lemma erase_self (f : Z) (R : gset Z) : f ∉ ({[f]} ∪ R) ∖ {[f]}.
Proof. rewrite elem_of_difference, elem_of_singleton. intros [_ H]. now apply H. Qed.

Section PendingReads.
Variable host : Endian.
Variable env : Env.

Lemma prefetch_event f fd g b w :
  0 <= f <= INT16_MAX -> 0 <= g <= INT16_MAX ->
  let bytes := RequestCommand_image host (sendRequest_command host PREFETCH g b) in
  is_prefetch f (EvWriteFully fd bytes w) = (g =? f)
  /\ is_prefetch_sent f (EvWriteFully fd bytes w) = (g =? f) && (w =? length bytes)%nat.
Proof.
  intros Hf Hg bytes. unfold is_prefetch, is_prefetch_sent, bytes.
  rewrite request_type_image, request_fileIdx_image.
  rewrite (Z.mod_small g) by (unfold INT16_MAX in *; lia).
  change (PREFETCH mod 65536 =? PREFETCH) with true. now split.
Qed.

Lemma missing_event f fd g b w :
  let bytes := RequestCommand_image host (sendRequest_command host BLOCK_MISSING g b) in
  is_prefetch f (EvWriteFully fd bytes w) = false
  /\ is_prefetch_sent f (EvWriteFully fd bytes w) = false.
Proof.
  intros bytes. unfold is_prefetch, is_prefetch_sent, bytes.
  rewrite request_type_image. now split.
Qed.

Lemma count_calls_one p e : count_calls p [e] = if p e then 1%nat else 0%nat.
Proof. unfold count_calls. simpl. now destruct (p e). Qed.

Lemma onPendingReads_loop_prefetch mOutFd f pendingReads :
  0 <= f <= INT16_MAX ->
  forall mRequestedFiles h r evs,
    onPendingReads_loop host env mOutFd pendingReads mRequestedFiles h = (r, evs) ->
    (f ∈ mRequestedFiles -> count_calls (is_prefetch f) evs = 0%nat)
    /\ (f ∈ mRequestedFiles -> count_calls (is_prefetch_sent f) evs = 0%nat)
    /\ (count_calls (is_prefetch_sent f) evs <= 1)%nat
    /\ exists mRequestedFiles',
         r = Ret mRequestedFiles'
         /\ (f ∈ mRequestedFiles' <->
             f ∈ mRequestedFiles \/ count_calls (is_prefetch_sent f) evs = 1%nat).
Proof.
  intros Hf. induction pendingReads as [|pendingRead pendingReads IH]; intros R h r evs E.
  - cbn [onPendingReads_loop] in E. apply ret_inv in E. destruct E as [-> ->].
    split; [reflexivity|]. split; [reflexivity|]. split; [unfold count_calls; simpl; lia|].
    exists R. split; [reflexivity|]. unfold count_calls. simpl. split; [tauto|].
    intros [?|?]; [assumption|discriminate].
  - cbn [onPendingReads_loop] in E. cbv zeta in E.
    pose proof (convertFileIdToFileIndex_range (pr_id pendingRead)) as Hrange.
    set (g := convertFileIdToFileIndex (pr_id pendingRead)) in *.
    destruct (g <? 0) eqn:Hpos; [now apply IH in E|]. apply Z.ltb_ge in Hpos.
    assert (Hg : 0 <= g <= INT16_MAX) by (unfold in_int16 in Hrange; lia).
    apply bind_inv in E.
    destruct E as [(R2 & e1 & e2 & Epre & Ek & ->) | [[Epre ->] | [Epre ->]]].
    2,3: exfalso; destruct (negb _);
         [apply bind_inv in Epre;
          destruct Epre as [(s & ? & ? & Es & Ek & ?) | [[Es ?] | [Es ?]]];
          [destruct (negb s); apply ret_inv in Ek; destruct Ek; discriminate
          |apply sendRequest_inv in Es; destruct Es as (? & _ & ?); discriminate
          |apply sendRequest_inv in Es; destruct Es as (? & _ & ?); discriminate]
         |apply ret_inv in Epre; destruct Epre; discriminate].
    apply bind_inv in Ek.
    destruct Ek as [(sent2 & e3 & e4 & Emiss & Ek & ->) | [[Emiss ->] | [Emiss ->]]];
      apply sendRequest_inv in Emiss; destruct Emiss as (w2 & -> & Er2); try discriminate.
    apply IH in Ek. destruct Ek as (IH1 & IH2 & IH3 & R' & -> & IH4).
    destruct (missing_event f mOutFd g (int32 (pr_block pendingRead)) w2) as [Hm1 Hm2].
    rewrite !count_calls_app, !count_calls_one, Hm1, Hm2.
    destruct (decide (g ∈ R)) as [Hin|Hnin].
    + rewrite bool_decide_true in Epre by exact Hin. cbn [negb] in Epre.
      apply ret_inv in Epre. destruct Epre as [ER ->]. injection ER as ER. subst R2.
      cbn [app].
      pose proof (insert_member f g R Hin) as Hiff.
      split; [intros; apply IH1; now apply Hiff|].
      split; [intros; apply IH2; now apply Hiff|].
      split; [exact IH3|].
      exists R'. split; [reflexivity|]. rewrite IH4, Hiff. reflexivity.
    + rewrite bool_decide_false in Epre by exact Hnin. cbn [negb] in Epre.
      apply bind_inv in Epre.
      destruct Epre as [(sent & e5 & e6 & Epf & Ek & ->) | [[Epf ?] | [Epf ?]]];
        apply sendRequest_inv in Epf; destruct Epf as (w & -> & Er); try discriminate.
      injection Er as ->.
      destruct (prefetch_event f mOutFd g (int32 (pr_block pendingRead)) w Hf Hg)
        as [Hp1 Hp2].
      set (bytes := RequestCommand_image host
                      (sendRequest_command host PREFETCH g (int32 (pr_block pendingRead))))
        in *.
      assert (Ee6 : e6 = [] /\ R2 = if (w =? length bytes)%nat then {[g]} ∪ R
                                    else ({[g]} ∪ R) ∖ {[g]}).
      { destruct (w =? length bytes)%nat; cbn [negb] in Ek;
          apply ret_inv in Ek; destruct Ek as [ER ->]; now injection ER as <-. }
      destruct Ee6 as [-> ER2]. rewrite app_nil_r.
      rewrite !count_calls_one, Hp1, Hp2.
      destruct (Z.eqb_spec g f) as [->|Hne].
      * cbn [andb].
        destruct (w =? length bytes)%nat; subst R2.
        -- split; [intros; contradiction|]. split; [intros; contradiction|].
           assert (Hin2 : f ∈ {[f]} ∪ R) by (apply elem_of_union; left; now apply elem_of_singleton).
           rewrite (IH2 Hin2). split; [simpl; lia|].
           exists R'. split; [reflexivity|]. rewrite IH4. simpl. split; [tauto|].
           intros _. left. exact Hin2.
        -- split; [intros; contradiction|]. split; [intros; contradiction|].
           split; [simpl; lia|].
           exists R'. split; [reflexivity|]. rewrite IH4. simpl.
           pose proof (erase_self f R) as Hnin2.
           tauto.
      * cbn [andb].
        assert (Hiff : f ∈ R2 <-> f ∈ R).
        { subst R2. destruct (w =? length bytes)%nat;
            [now apply insert_other|now apply erase_other]. }
        split; [intros HR; simpl; apply IH1; now apply Hiff|].
        split; [intros HR; simpl; apply IH2; now apply Hiff|].
        split; [simpl; lia|].
        exists R'. split; [reflexivity|]. rewrite IH4, Hiff. reflexivity.
Qed.

(** For each file index, a call of [onPendingReads] sends at most one
    PREFETCH that goes out in full; it sends no PREFETCH at all for a file
    that [mRequestedFiles] holds at entry; and at its return the set holds a
    file exactly when it held it at entry or the PREFETCH for it went out in
    full during the call. *)
Theorem onPendingReads_prefetch_once (mOutFd : Z) (mIfs : bool)
    (pendingReads : list PendingRead) (mRequestedFiles : gset Z) (fileIdx : Z)
    (h : History) (r : Outcome (gset Z)) (evs : list Event) :
  0 <= fileIdx <= INT16_MAX ->
  onPendingReads host env mOutFd mIfs pendingReads mRequestedFiles h = (r, evs) ->
  (count_calls (is_prefetch_sent fileIdx) evs <= 1)%nat
  /\ (fileIdx ∈ mRequestedFiles -> count_calls (is_prefetch fileIdx) evs = 0%nat)
  /\ (forall mRequestedFiles',
        r = Ret mRequestedFiles' ->
        fileIdx ∈ mRequestedFiles' <->
        fileIdx ∈ mRequestedFiles \/ count_calls (is_prefetch_sent fileIdx) evs = 1%nat).
Proof.
  intros Hf E. unfold onPendingReads in E.
  destruct (mOutFd <? 0).
  { apply ret_inv in E. destruct E as [-> ->]. unfold count_calls. simpl.
    split; [lia|]. split; [reflexivity|]. intros R' ER. injection ER as <-.
    split; [tauto|]. intros [?|?]; [assumption|discriminate]. }
  destruct (negb mIfs).
  { inversion E; subst. unfold count_calls. simpl.
    split; [lia|]. split; [reflexivity|]. intros; discriminate. }
  destruct (onPendingReads_loop_prefetch _ _ _ Hf _ _ _ _ E)
    as (H1 & _ & H3 & R' & -> & H4).
  split; [exact H3|]. split; [exact H1|].
  intros R'' ER. injection ER as <-. exact H4.
Qed.



End PendingReads.

Lemma onPendingReads_prefetch_once_witness :
  let env := script_env (fun _ => -1) [] [] [] in
  let run := onPendingReads LittleEndian env 4 true two_pending_reads ∅ [] in
  length (requests (snd run)) = 3%nat
  /\ (count_calls (is_prefetch_sent 3) (snd run) <= 1)%nat
  /\ (3 ∈ (∅ : gset Z) -> count_calls (is_prefetch 3) (snd run) = 0%nat)
  /\ (forall mRequestedFiles',
        fst run = Ret mRequestedFiles' ->
        3 ∈ mRequestedFiles' <->
        3 ∈ (∅ : gset Z) \/ count_calls (is_prefetch_sent 3) (snd run) = 1%nat).
Proof.
  intros env run. split; [vm_compute; reflexivity|].
  apply (onPendingReads_prefetch_once LittleEndian env 4 true two_pending_reads ∅ 3 []
           (fst run) (snd run)).
  - unfold INT16_MAX. lia.
  - vm_compute. reflexivity.
Defined.


(** *** Read tracing *)

Lemma uint32_small z : 0 <= z < 4294967296 -> uint32 z = z.
Proof. intros H. unfold uint32, to_unsigned. now apply Z.mod_small. Qed.

Lemma uint32_idem z : uint32 (uint32 z) = uint32 z.
Proof. unfold uint32, to_unsigned. apply Z.mod_mod. lia. Qed.

Lemma onPageReads_loop_blocks pageReads :
  forall last,
    0 <= tr_count last ->
    tr_count last + Z.of_nat (length pageReads) < 4294967296 ->
    flat_map traced_blocks (onPageReads_loop pageReads last)
    = traced_blocks last ++ ((fun read => (pg_id read, uint32 (pg_block read))) <$> pageReads).
Proof.
  induction pageReads as [|read pageReads IH]; intros last Hc Hlen.
  - cbn [onPageReads_loop flat_map fmap list_fmap]. reflexivity.
  - cbn [onPageReads_loop]. cbn [length] in Hlen.
    destruct (negb (bool_decide (pg_id read = tr_fileId last))
              || negb (uint32 (pg_block read)
                       =? uint32 (tr_firstBlockIdx last + tr_count last))) eqn:Ediff.
    + cbn [flat_map]. rewrite IH by (cbn [tr_count]; lia).
      rewrite fmap_cons. f_equal. unfold traced_blocks at 1.
      cbn [tr_count tr_fileId tr_firstBlockIdx].
      change (seqZ 0 1) with [0]. cbn [fmap list_fmap app].
      now rewrite Z.add_0_r, uint32_idem.
    + apply orb_false_iff in Ediff. destruct Ediff as [Eid Eblock].
      apply negb_false_iff, bool_decide_eq_true in Eid.
      apply negb_false_iff, Z.eqb_eq in Eblock.
      rewrite IH; cbn [tr_count]; rewrite ?uint32_small by lia; try lia.
      rewrite fmap_cons, cons_middle, app_assoc. f_equal.
      unfold traced_blocks. cbn [tr_count tr_fileId tr_firstBlockIdx].
      rewrite (seqZ_app 0 (tr_count last) 1) by lia. rewrite fmap_app. f_equal.
      change (seqZ (0 + tr_count last) 1) with [0 + tr_count last].
      cbn [fmap list_fmap]. rewrite Z.add_0_l, Eid, Eblock. reflexivity.
Qed.

Lemma onPageReads_loop_events pageReads :
  forall last,
    (length (flat_map traceRead (onPageReads_loop pageReads last))
     <= 2 * (length pageReads + if (tr_count last =? 0)%Z then 0 else 1))%nat.
Proof.
  assert (Htr : forall read,
            (length (traceRead read) <= 2 * if (tr_count read =? 0)%Z then 0 else 1)%nat).
  { intros read. unfold traceRead. destruct (tr_count read =? 0); simpl; lia. }
  induction pageReads as [|read pageReads IH]; intros last.
  - cbn [onPageReads_loop flat_map length]. rewrite app_nil_r. specialize (Htr last). lia.
  - cbn [onPageReads_loop]. destruct (_ || _).
    + cbn [flat_map]. rewrite length_app. specialize (Htr last).
      match goal with |- context [onPageReads_loop pageReads ?l] => specialize (IH l) end.
      cbn [tr_count Z.eqb] in IH. cbn [length]. lia.
    + match goal with |- context [onPageReads_loop pageReads ?l] => specialize (IH l) end.
      cbn [length]. destruct (tr_count _ =? 0) in IH; destruct (tr_count last =? 0); lia.
Qed.

(** With tracing on, the values of [last] that [onPageReads] traces
    stand, one after the other, for exactly the page reads it was given, in
    their order: no read is dropped, repeated or moved.  There are at most
    two trace events for each read, and none at all with tracing off. *)
Theorem onPageReads_covers_reads (pageReads : list PageRead) :
  Z.of_nat (length pageReads) < 4294967296 ->
  onPageReads true pageReads
  = flat_map traceRead (onPageReads_loop pageReads TracedRead_zero)
  /\ flat_map traced_blocks (onPageReads_loop pageReads TracedRead_zero)
     = (fun read => (pg_id read, uint32 (pg_block read))) <$> pageReads
  /\ (length (onPageReads true pageReads) <= 2 * length pageReads)%nat
  /\ onPageReads false pageReads = [].
Proof.
  intros Hlen. split; [reflexivity|]. split; [|split; [|reflexivity]].
  - rewrite onPageReads_loop_blocks by (cbn [tr_count TracedRead_zero]; lia). reflexivity.
  - unfold onPageReads. cbn [negb].
    pose proof (onPageReads_loop_events pageReads TracedRead_zero) as H.
    unfold TracedRead_zero in H at 2. cbn [tr_count Z.eqb] in H. lia.
Qed.

(** *** Read logs *)

Lemma last_cons_default {A} (l : list A) :
  forall a d, List.last (a :: l) d = List.last l a.
Proof.
  induction l as [|c l IH]; intros a d; [reflexivity|].
  change (List.last (a :: c :: l) d) with (List.last (c :: l) d).
  now rewrite (IH c d), (IH c a).
Qed.

(** However [updateReadLogsState] is called, the values it hands to
    [setParams] alternate, starting with the one [mReadLogsEnabled] did not
    have: no call of [setParams] repeats the value in force.  At the end
    [mReadLogsEnabled] is the value of the last call, and it is the value
    last handed to [setParams]. *)
Theorem updateReadLogsState_alternates (calls : list bool) (mReadLogsEnabled : bool) :
  let '(mReadLogsEnabled', params) := updateReadLogsState_calls calls mReadLogsEnabled in
  alternates mReadLogsEnabled params
  /\ mReadLogsEnabled' = List.last calls mReadLogsEnabled
  /\ List.last params mReadLogsEnabled = mReadLogsEnabled'.
Proof.
  revert mReadLogsEnabled. induction calls as [|enabled calls IH]; intros s.
  - cbn. now repeat split.
  - cbn [updateReadLogsState_calls]. unfold updateReadLogsState. cbv zeta.
    specialize (IH enabled). rewrite last_cons_default.
    destruct (Bool.eqb enabled s) eqn:Eeq; cbn [negb];
      destruct (updateReadLogsState_calls calls enabled) as [s' params'];
      destruct IH as (Halt & Hlast & Hparams); cbn [app].
    + apply Bool.eqb_prop in Eeq. subst s. now repeat split.
    + apply Bool.eqb_false_iff in Eeq. split; [now split|]. split; [exact Hlast|].
      rewrite <- Hparams. apply last_cons_default.
Qed.

Lemma onPageReads_covers_reads_witness :
  (tr_count <$> onPageReads_loop three_page_reads TracedRead_zero = [0; 2; 1])
  /\ length (onPageReads true three_page_reads) = 4%nat
  /\ onPageReads true three_page_reads
     = flat_map traceRead (onPageReads_loop three_page_reads TracedRead_zero)
  /\ flat_map traced_blocks (onPageReads_loop three_page_reads TracedRead_zero)
     = (fun read => (pg_id read, uint32 (pg_block read))) <$> three_page_reads
  /\ (length (onPageReads true three_page_reads) <= 2 * length three_page_reads)%nat
  /\ onPageReads false three_page_reads = [].
Proof.
  split; [vm_compute; reflexivity|]. split; [vm_compute; reflexivity|].
  apply (onPageReads_covers_reads three_page_reads). simpl. lia.
Defined.

(** *** The receiver on the chunks of the server *)

Lemma be16_value x :
  0 <= x <= INT16_MAX ->
  int16 (256 * byte_to_Z (byte_of_Z (x / 256)) + byte_to_Z (byte_of_Z x)) = x.
Proof.
  unfold INT16_MAX. intros H. rewrite !byte_to_of_Z.
  replace (256 * ((x / 256) mod 256) + x mod 256) with x
    by (Z.to_euclidean_division_equations; lia).
  apply int16_id. unfold in_int16, INT16_MIN, INT16_MAX. lia.
Qed.

Lemma be32_value x :
  0 <= x <= INT32_MAX ->
  int32 (16777216 * byte_to_Z (byte_of_Z (x / 16777216))
         + 65536 * byte_to_Z (byte_of_Z (x / 65536))
         + 256 * byte_to_Z (byte_of_Z (x / 256)) + byte_to_Z (byte_of_Z x)) = x.
Proof.
  unfold INT32_MAX. intros H. rewrite !byte_to_of_Z.
  replace (16777216 * ((x / 16777216) mod 256) + 65536 * ((x / 65536) mod 256)
           + 256 * ((x / 256) mod 256) + x mod 256) with x
    by (Z.to_euclidean_division_equations; lia).
  apply int32_id. unfold in_int32, INT32_MIN, INT32_MAX. lia.
Qed.

Lemma int8_value x : 0 <= x <= 127 -> int8 (byte_to_Z (byte_of_Z x)) = x.
Proof.
  intros H. rewrite byte_to_of_Z, Z.mod_small by lia.
  unfold int8, to_signed. rewrite Z.mod_small; simpl; lia.
Qed.

Lemma readHeader_frame host b rest :
  valid_block b ->
  readHeader host (frame b ++ rest)
  = ({| bh_fileIdx := bk_fileIdx b;
        bh_blockType := bk_blockType b;
        bh_compressionType := bk_compressionType b;
        bh_blockIdx := bk_blockIdx b;
        bh_blockSize := Z.of_nat (length (bk_data b)) |},
     bk_data b ++ rest).
Proof.
  intros (Hf & Ht & Hc & Hb & Hs). unfold frame, store.
  rewrite !le_bytes_2, le_bytes_4. cbn [rev app].
  rewrite readHeader_bytes, !be16_value, be32_value, !int8_value by lia.
  reflexivity.
Qed.

Lemma frame_length b : (10 < length (frame b))%nat \/ bk_data b = [].
Proof.
  destruct (bk_data b) eqn:E; [now right|left].
  unfold frame, store. rewrite !le_bytes_2, le_bytes_4, E. cbn. lia.
Qed.

Lemma frame_cons b : exists b0 tl, frame b = b0 :: tl.
Proof. unfold frame, store. rewrite le_bytes_2. cbn [rev app]. eauto. Qed.

Lemma valid_header b :
  valid_block b ->
  let header := {| bh_fileIdx := bk_fileIdx b;
                   bh_blockType := bk_blockType b;
                   bh_compressionType := bk_compressionType b;
                   bh_blockIdx := bk_blockIdx b;
                   bh_blockSize := Z.of_nat (length (bk_data b)) |} in
  is_sentinel header = false /\ is_invalid header = false.
Proof.
  intros (Hf & Ht & Hc & Hb & Hs) header. unfold is_sentinel, is_invalid, header.
  cbn [bh_fileIdx bh_blockType bh_compressionType bh_blockIdx bh_blockSize].
  destruct (Z.eqb_spec (bk_fileIdx b) (-1)); [lia|].
  rewrite !(proj2 (Z.ltb_ge _ _)) by lia.
  rewrite (proj2 (Z.leb_gt _ _)) by lia. now split.
Qed.

Lemma opens_new_opened mode writeFds evs :
  opens_new mode writeFds evs ->
  submitted evs = [] /\ requests evs = [] /\ statuses evs = []
  /\ forall id, id ∈ opened evs ->
       exists fileIdx, id = convertFileIndexToFileId mode fileIdx
                       /\ 0 <= fileIdx <= INT16_MAX /\ writeFds !! fileIdx = None.
Proof.
  induction 1 as [|e evs (k & fd & -> & Hk & Hnone) _ (IH1 & IH2 & IH3 & IH4)].
  - repeat split. intros id Hid. inversion Hid.
  - split; [exact IH1|]. split; [exact IH2|]. split; [exact IH3|].
    intros id Hid. change (opened (EvOpenForSpecialOps (convertFileIndexToFileId mode k) fd :: evs))
      with (convertFileIndexToFileId mode k :: opened evs) in Hid.
    apply elem_of_cons in Hid. destruct Hid as [->|Hid]; [eauto|now apply IH4].
Qed.

Lemma statuses_app e1 e2 : statuses (e1 ++ e2) = statuses e1 ++ statuses e2.
Proof. unfold statuses. now rewrite map_app, concat_app. Qed.

Section ReceiverBlocks.
Variable host : Endian.
Variable env : Env.
Variable inout : Z.
Variable mode : MetadataMode.
Hypothesis opens_succeed : forall h id, 0 <= ifs_openForSpecialOps env h id.

Lemma receiver_walk_frames blocks :
  forall fuel st h rest,
    Forall valid_block blocks ->
    Forall (fun b => incfs_isValidFileId env (convertFileIndexToFileId mode (bk_fileIdx b))
                     = true) blocks ->
    writeFds_open (rs_writeFds st) ->
    exists st' evs,
      (forall r e2,
         receiver_walk host env fuel inout mode st' rest (h ++ evs) = (r, e2) ->
         receiver_walk host env (length blocks + fuel) inout mode st
           (concat (frame <$> blocks) ++ rest) h = (r, evs ++ e2))
      /\ rs_instructions st'
         = rs_instructions st ++ (instruction_of (rs_writeFds st') <$> blocks)
      /\ rs_stop st' = rs_stop st
      /\ writeFds_open (rs_writeFds st')
      /\ (forall k fd, rs_writeFds st !! k = Some fd -> rs_writeFds st' !! k = Some fd)
      /\ opens_new mode (rs_writeFds st) evs
      /\ NoDup (opened evs)
      /\ Forall (fun b => is_Some (rs_writeFds st' !! bk_fileIdx b)) blocks.
Proof.
  induction blocks as [|b blocks IH]; intros fuel st h rest Hvalid Hids Hopen.
  - exists st, []. split; [intros r e2 E; rewrite app_nil_r in E; exact E|].
    split; [now rewrite app_nil_r|]. split; [reflexivity|]. split; [exact Hopen|].
    split; [auto|]. split; [constructor|]. split; constructor.
  - apply Forall_cons in Hvalid. destruct Hvalid as [Hb Hvalid].
    apply Forall_cons in Hids. destruct Hids as [Hid Hids].
    rewrite fmap_cons. cbn [concat length Nat.add]. rewrite <- app_assoc.
    destruct (valid_header b Hb) as [Hsent Hinv].
    pose proof Hb as (Hf & Ht & Hc & Hbi & Hs).
    set (fileIdx := bk_fileIdx b) in *.
    set (fileId := convertFileIndexToFileId mode fileIdx) in *.
    (* the descriptor: held, or opened now *)
    assert (Hfd : exists fd e1,
              (if default (-1) (rs_writeFds st !! fileIdx) <? 0
               then openForSpecialOps env fileId
               else ret (default (-1) (rs_writeFds st !! fileIdx))) h = (Ret fd, e1)
              /\ 0 <= fd
              /\ ((rs_writeFds st !! fileIdx = Some fd /\ e1 = [])
                  \/ (rs_writeFds st !! fileIdx = None
                      /\ e1 = [EvOpenForSpecialOps fileId fd]))).
    { destruct (rs_writeFds st !! fileIdx) as [fd0|] eqn:Ecache;
        unfold default; cbn [from_option id].
      - pose proof (Hopen _ _ Ecache) as Hfd0.
        rewrite (proj2 (Z.ltb_ge fd0 0)) by lia.
        exists fd0, []. split; [reflexivity|]. split; [exact Hfd0|]. now left.
      - change (-1 <? 0) with true. cbv iota.
        exists (ifs_openForSpecialOps env h fileId), [EvOpenForSpecialOps fileId
                                                        (ifs_openForSpecialOps env h fileId)].
        split; [reflexivity|]. split; [apply opens_succeed|]. now right. }
    destruct Hfd as (fd & e1 & Efd & Hfd & Hcase).
    set (inst := {| fileFd := fd; pageIndex := bk_blockIdx b;
                    compression := bk_compressionType b; kind := bk_blockType b;
                    dataSize := Z.of_nat (length (bk_data b)); data := bk_data b |}).
    set (st2 := set_instructions (rs_instructions st ++ [inst]) (set_writeFd fileIdx fd st)).
    assert (Hopen2 : writeFds_open (rs_writeFds st2)).
    { intros k v. unfold st2. cbn [rs_writeFds set_instructions set_writeFd].
      rewrite lookup_insert_Some. intros [[_ <-]|[_ Hk]]; [exact Hfd|now apply (Hopen k)]. }
    destruct (IH fuel st2 (h ++ e1) rest Hvalid Hids Hopen2)
      as (st' & e2 & Erun & Hinstr & Hstop & Hopen' & Hmono & Hnew & Hnodup & Hsome).
    assert (Hheld : rs_writeFds st' !! fileIdx = Some fd).
    { apply Hmono. unfold st2. cbn [rs_writeFds set_instructions set_writeFd].
      apply lookup_insert_eq. }
    exists st', (e1 ++ e2).
    split.
    { intros r e3 Erest. rewrite app_assoc in Erest. apply Erun in Erest.
      rewrite <- app_assoc.
      destruct (frame_cons b) as (b0 & tl & Eframe).
      rewrite receiver_walk_step by (rewrite Eframe; discriminate).
      rewrite readHeader_frame by exact Hb. fold fileIdx.
      cbv zeta in Hsent, Hinv. rewrite Hsent, Hinv. cbv zeta.
      cbn [bh_fileIdx bh_blockType bh_compressionType bh_blockIdx bh_blockSize].
      fold fileIdx. fold fileId. rewrite Hid. cbn [negb].
      eapply bind_run; [exact Efd|].
      rewrite (proj2 (Z.ltb_ge fd 0)) by lia.
      assert (Elen : (Z.of_nat (length (bk_data b ++ concat (frame <$> blocks) ++ rest))
                      <? Z.of_nat (length (bk_data b))) = false).
      { apply Z.ltb_ge. rewrite length_app. lia. }
      rewrite Elen, Nat2Z.id, drop_app_length.
      assert (Einst : {| fileFd := fd; pageIndex := int32 (bk_blockIdx b);
                         compression := bk_compressionType b; kind := bk_blockType b;
                         dataSize := uint16 (Z.of_nat (length (bk_data b)));
                         data := slice (bk_data b ++ concat (frame <$> blocks) ++ rest) 0
                                   (Z.of_nat (length (bk_data b))) |} = inst).
      { unfold inst. f_equal.
        - apply int32_id. unfold in_int32, INT32_MIN, INT32_MAX in *. lia.
        - unfold uint16, to_unsigned. apply Z.mod_small. unfold INT16_MAX in *. lia.
        - unfold slice. rewrite Nat2Z.id. cbn [Z.to_nat drop]. apply take_app_length. }
      rewrite Einst. exact Erest. }
    assert (Hmono2 : forall k v, rs_writeFds st !! k = Some v ->
                                 rs_writeFds st' !! k = Some v).
    { intros k v Hk. apply Hmono. unfold st2.
      cbn [rs_writeFds set_instructions set_writeFd]. apply lookup_insert_Some.
      destruct (decide (fileIdx = k)) as [<-|Hne]; [|now right].
      left. split; [reflexivity|].
      destruct Hcase as [[Hc1 _]|[Hc1 _]]; rewrite Hc1 in Hk; congruence. }
    split.
    { rewrite Hinstr. unfold st2. cbn [rs_instructions set_instructions].
      rewrite <- app_assoc, fmap_cons. cbn [app]. do 2 f_equal.
      unfold instruction_of, inst. fold fileIdx. now rewrite Hheld. }
    split; [exact Hstop|]. split; [exact Hopen'|]. split; [exact Hmono2|].
    assert (Hnew2 : opens_new mode (rs_writeFds st) e2).
    { eapply Forall_impl; [exact Hnew|]. intros e (k & v & -> & Hk & Hnone).
      exists k, v. split; [reflexivity|]. split; [exact Hk|].
      unfold st2 in Hnone. cbn [rs_writeFds set_instructions set_writeFd] in Hnone.
      now apply lookup_insert_None in Hnone. }
    assert (Hsome2 : Forall (fun b0 => is_Some (rs_writeFds st' !! bk_fileIdx b0))
                       (b :: blocks)).
    { constructor; [|exact Hsome]. fold fileIdx. rewrite Hheld. eauto. }
    destruct Hcase as [[_ ->]|[Hnone ->]]; cbn [app].
    { split; [exact Hnew2|]. split; [exact Hnodup|exact Hsome2]. }
    split.
    { constructor; [|exact Hnew2]. exists fileIdx, fd. now repeat split. }
    split; [|exact Hsome2].
    change (opened (EvOpenForSpecialOps fileId fd :: e2)) with (fileId :: opened e2).
    apply NoDup_cons. split; [|exact Hnodup].
    intros Hin. apply (opens_new_opened _ _ _ Hnew) in Hin.
    destruct Hin as (k & Ek & Hk & Hknone).
    apply convertFileIndexToFileId_inj in Ek;
      [|unfold in_int16, INT16_MIN, INT16_MAX in *; lia
       |unfold in_int16, INT16_MIN, INT16_MAX in *; lia].
    destruct Ek as [_ <-]. unfold st2 in Hknone.
    cbn [rs_writeFds set_instructions set_writeFd] in Hknone.
    rewrite lookup_insert_eq in Hknone. discriminate.
Qed.

Lemma receiver_walk_blocks blocks :
  forall fuel st h,
    (length blocks <= fuel)%nat ->
    Forall valid_block blocks ->
    Forall (fun b => incfs_isValidFileId env (convertFileIndexToFileId mode (bk_fileIdx b))
                     = true) blocks ->
    writeFds_open (rs_writeFds st) ->
    exists st' evs,
      receiver_walk host env fuel inout mode st (concat (frame <$> blocks)) h = (Ret st', evs)
      /\ rs_instructions st'
         = rs_instructions st ++ (instruction_of (rs_writeFds st') <$> blocks)
      /\ rs_stop st' = rs_stop st
      /\ writeFds_open (rs_writeFds st')
      /\ (forall k fd, rs_writeFds st !! k = Some fd -> rs_writeFds st' !! k = Some fd)
      /\ opens_new mode (rs_writeFds st) evs
      /\ NoDup (opened evs)
      /\ Forall (fun b => is_Some (rs_writeFds st' !! bk_fileIdx b)) blocks.
Proof.
  intros fuel st h Hfuel Hvalid Hids Hopen.
  destruct (receiver_walk_frames blocks (fuel - length blocks) st h [] Hvalid Hids Hopen)
    as (st' & evs & Erun & Hrest).
  exists st', evs. split; [|exact Hrest].
  specialize (Erun (Ret st') []).
  rewrite !app_nil_r in Erun.
  replace (length blocks + (fuel - length blocks))%nat with fuel in Erun by lia.
  apply Erun. destruct (fuel - length blocks)%nat; reflexivity.
Qed.

Lemma frames_length (blocks : list Block) :
  (length blocks <= length (concat (frame <$> blocks)))%nat.
Proof.
  induction blocks as [|b blocks IH]; [reflexivity|].
  rewrite fmap_cons. cbn [concat]. rewrite length_app.
  destruct (frame_cons b) as (b0 & tl & ->). cbn [length]. lia.
Qed.

(** A chunk that the server frames from blocks the receiver takes,
    for files that IncFS knows and can open, is handed to IncFS block by
    block: one call of [writeBlocks] with an instruction for each block, in
    the order of the chunk, with the block's page index, kind, compression
    and payload, and the descriptor held for its file.  Each file is opened
    at most once, nothing is sent or reported, and the receiver goes on. *)
Theorem receiver_chunk_blocks (blocks : list Block) (st : Receiver) (h : History) :
  Forall valid_block blocks ->
  Forall (fun b => incfs_isValidFileId env (convertFileIndexToFileId mode (bk_fileIdx b))
                   = true) blocks ->
  writeFds_open (rs_writeFds st) ->
  rs_instructions st = [] ->
  exists st' evs,
    receiver_chunk host env inout mode st (concat (frame <$> blocks)) h = (Ret st', evs)
    /\ submitted evs = instruction_of (rs_writeFds st') <$> blocks
    /\ Forall (fun b => 0 <= fileFd b) (submitted evs)
    /\ length (List.filter is_EvWriteBlocks evs) = 1%nat
    /\ NoDup (opened evs)
    /\ requests evs = [] /\ statuses evs = []
    /\ rs_stop st' = rs_stop st /\ rs_instructions st' = [].
Proof.
  intros Hvalid Hids Hopen Hinstr0.
  destruct (receiver_walk_blocks blocks (length (concat (frame <$> blocks))) st h
              (frames_length blocks) Hvalid Hids Hopen)
    as (st' & e & Erun & Hinstr & Hstop & Hopen' & _ & Hnew & Hnodup & Hsome).
  rewrite Hinstr0, app_nil_l in Hinstr.
  destruct (opens_new_opened _ _ _ Hnew) as (Hsub & Hreq & Hstat & _).
  set (res := ifs_writeBlocks env (h ++ e) (rs_instructions st')).
  exists (set_instructions [] st'), (e ++ [EvWriteBlocks (rs_instructions st') res]).
  split.
  { unfold receiver_chunk. eapply bind_run; [exact Erun|].
    unfold writeInstructions, writeBlocks. rewrite bind_assoc, bind_call. reflexivity. }
  assert (Eopened : opened (e ++ [EvWriteBlocks (rs_instructions st') res]) = opened e).
  { rewrite opened_app. apply app_nil_r. }
  assert (Efilter : List.filter is_EvWriteBlocks e = []).
  { clear -Hnew. induction Hnew as [|x l (k & fd & -> & _) _ IH]; [reflexivity|exact IH]. }
  rewrite submitted_app, Hsub, requests_app, Hreq, (statuses_app e), Hstat, Eopened.
  rewrite List.filter_app, Efilter.
  cbn [app]. unfold submitted at 1 2. cbn [map concat]. rewrite app_nil_r, Hinstr.
  split; [reflexivity|]. split.
  { apply Forall_fmap. eapply Forall_impl; [exact Hsome|].
    intros b [fd Hfd]. cbn [instruction_of fileFd compose]. unfold instruction_of.
    cbn [fileFd]. rewrite Hfd. cbn. now apply (Hopen' _ _ Hfd). }
  split; [reflexivity|]. split; [exact Hnodup|]. split; [reflexivity|].
  split; [reflexivity|]. split; [exact Hstop|reflexivity].
Qed.

End ReceiverBlocks.

Lemma receiver_chunk_blocks_witness :
  let env := script_env (fun _ => -1) [] [] [] in
  let run := receiver_chunk LittleEndian env 3 STREAMING Receiver_init
               (concat (frame <$> three_blocks)) [] in
  pageIndex <$> submitted (snd run) = [0; 7; 1]
  /\ data <$> submitted (snd run) = [[x61; x62]; [x63]; [x64; x65; x66]]
  /\ length (opened (snd run)) = 2%nat
  /\ exists st' evs,
       run = (Ret st', evs)
       /\ submitted evs = instruction_of (rs_writeFds st') <$> three_blocks
       /\ Forall (fun b => 0 <= fileFd b) (submitted evs)
       /\ length (List.filter is_EvWriteBlocks evs) = 1%nat
       /\ NoDup (opened evs)
       /\ requests evs = [] /\ statuses evs = []
       /\ rs_stop st' = rs_stop Receiver_init /\ rs_instructions st' = [].
Proof.
  intros env run. split; [vm_compute; reflexivity|]. split; [vm_compute; reflexivity|].
  split; [vm_compute; reflexivity|].
  apply (receiver_chunk_blocks LittleEndian env 3 STREAMING).
  - intros h id. simpl. lia.
  - repeat constructor; simpl; unfold INT16_MAX, INT32_MAX; lia.
  - repeat constructor.
  - intros k fd H. unfold Receiver_init in H. cbn [rs_writeFds] in H.
    rewrite lookup_empty in H. discriminate.
  - reflexivity.
Defined.

(** *** Blocks for a file that IncFS does not know *)

(** When the file id of a block is not valid for IncFS, the receiver
    goes on with the bytes after the header: the payload of the block is
    not skipped, it is read as the next header. *)
Theorem receiver_unknown_file_reads_payload (host : Endian) (env : Env) (fuel : nat)
    (inout : Z) (mode : MetadataMode) (st : Receiver) (b : Block) (rest : list byte)
    (h : History) :
  valid_block b ->
  incfs_isValidFileId env (convertFileIndexToFileId mode (bk_fileIdx b)) = false ->
  receiver_walk host env (S fuel) inout mode st (frame b ++ rest) h
  = receiver_walk host env fuel inout mode st (bk_data b ++ rest) h.
Proof.
  intros Hb Hid. destruct (frame_cons b) as (b0 & tl & Eframe).
  rewrite receiver_walk_step by (rewrite Eframe; discriminate).
  rewrite readHeader_frame by exact Hb.
  destruct (valid_header b Hb) as [Hsent Hinv]. cbv zeta in Hsent, Hinv.
  rewrite Hsent, Hinv. cbv zeta. cbn [bh_fileIdx]. rewrite Hid. reflexivity.
Qed.

Lemma receiver_unknown_file_reads_payload_witness :
  requests (snd (receiver_walk LittleEndian no_file_env 2 3 STREAMING Receiver_init
                   (frame block_of_sentinel ++ []) []))
  = [(3, RequestCommand_image LittleEndian (sendRequest_command LittleEndian EXIT (-1) (-1)))]
  /\ receiver_walk LittleEndian no_file_env 2 3 STREAMING Receiver_init
       (frame block_of_sentinel ++ []) []
     = receiver_walk LittleEndian no_file_env 1 3 STREAMING Receiver_init
         (bk_data block_of_sentinel ++ []) [].
Proof.
  split; [vm_compute; reflexivity|].
  apply (receiver_unknown_file_reads_payload LittleEndian no_file_env 1 3 STREAMING
           Receiver_init block_of_sentinel [] []).
  - repeat split; simpl; unfold INT16_MAX, INT32_MAX; lia.
  - reflexivity.
Defined.

(** *** How the receiver leaves *)

Lemma readChunk_events host env fd data h r evs :
  readChunk host env fd data h = (r, evs) ->
  evs = []
  \/ (exists a, evs = [EvReadFully fd 4 a])
  \/ (exists a count b, evs = [EvReadFully fd 4 a; EvReadFully fd count b]).
Proof.
  unfold readChunk. intros E. apply bind_inv in E.
  destruct E as [(a & e1 & e2 & Er & Ek & ->) | [[Er ->] | [Er ->]]];
    apply ReadFully_inv in Er; try discriminate;
    destruct Er as (a' & Ea & -> & _); try discriminate.
  injection Ea as <-.
  destruct a as [raw|]; [|apply ret_inv in Ek; destruct Ek as [_ ->]; right; left; eauto].
  destruct (_ <=? 0); [apply ret_inv in Ek; destruct Ek as [_ ->]; right; left; eauto|].
  apply bind_inv in Ek.
  unfold ReadFully in Ek.
  destruct (_ =? 0).
  - destruct Ek as [(a & e3 & e4 & Er & Ek & ->) | [[Er ->] | [Er ->]]];
      try discriminate.
    apply ret_inv in Er. destruct Er as [Ea ->]. injection Ea as ->.
    apply ret_inv in Ek. destruct Ek as [_ ->]. right; left; eauto.
  - destruct Ek as [(a & e3 & e4 & Er & Ek & ->) | [[Er ->] | [Er ->]]];
      apply call_inv in Er; destruct Er as [Ea ->]; try discriminate.
    destruct a; apply ret_inv in Ek; destruct Ek as [_ ->]; right; right; eauto.
Qed.

Section ReceiverLeaves.
Variable host : Endian.
Variable env : Env.

Lemma receiver_exit_run st h :
  receiver_exit env st h
  = (Ret tt, [EvWriteBlocks (rs_instructions st)
                (ifs_writeBlocks env h (rs_instructions st)); EvResetOutFd]).
Proof.
  unfold receiver_exit, writeInstructions, writeBlocks.
  rewrite bind_assoc, bind_call. reflexivity.
Qed.

(** A stop asked for by [onStop].  When the receiver finds
    [mStopReceiving] set at the head of its loop it leaves without a
    request: it drains the instructions and resets [mOutFd].  When it is
    woken by the event descriptor instead, it first sends one EXIT on the
    channel, even if data is ready as well, and then leaves in the same
    way; it reads nothing. *)
Theorem receiver_stop_signal (fuel : nat) (inout mEventFd : Z) (mode : MetadataMode)
    (st : Receiver) (h : History) :
  rs_stop st = false ->
  0 < mEventFd ->
  let exit_request := RequestCommand_image host (sendRequest_command host EXIT (-1) (-1)) in
  let pfds := sys_poll env h inout mEventFd in
  (stop_requested env h = true ->
   exists res,
     bind (receiver_loop host env fuel inout mEventFd mode st) (receiver_exit env) h
     = (Ret tt, [EvWriteBlocks (rs_instructions st) res; EvResetOutFd]))
  /\ (stop_requested env h = false ->
      0 < poll_res pfds -> poll_revents_event pfds = POLLIN ->
      exists written res,
        bind (receiver_loop host env (S fuel) inout mEventFd mode st) (receiver_exit env) h
        = (Ret tt, [EvPoll inout mEventFd pfds;
                    EvWriteFully inout exit_request written;
                    EvWriteBlocks (rs_instructions st) res;
                    EvResetOutFd])).
Proof.
  intros Hstop Hfd exit_request pfds. split.
  - intros Hreq. exists (ifs_writeBlocks env (h ++ []) (rs_instructions st)).
    rewrite <- (app_nil_l [EvWriteBlocks _ _; EvResetOutFd]).
    eapply bind_run; [|apply receiver_exit_run].
    destruct fuel; cbn [receiver_loop]; rewrite bind_peek, Hstop, Hreq; reflexivity.
  - intros Hreq Hres Hev.
    set (written := Nat.min (base_WriteFully env (h ++ [EvPoll inout mEventFd pfds]) inout
                               exit_request) (length exit_request)).
    set (e1 := [EvPoll inout mEventFd pfds; EvWriteFully inout exit_request written]).
    exists written, (ifs_writeBlocks env (h ++ e1) (rs_instructions st)).
    change [EvPoll inout mEventFd pfds; EvWriteFully inout exit_request written;
            EvWriteBlocks (rs_instructions st)
              (ifs_writeBlocks env (h ++ e1) (rs_instructions st)); EvResetOutFd]
      with (e1 ++ [EvWriteBlocks (rs_instructions st)
                     (ifs_writeBlocks env (h ++ e1) (rs_instructions st)); EvResetOutFd]).
    eapply bind_run; [|apply receiver_exit_run].
    cbn [receiver_loop]. rewrite bind_peek, Hstop, Hreq. cbn [orb].
    unfold waitForDataOrSignal. rewrite bind_assoc, bind_call. fold pfds.
    rewrite (proj2 (Z.leb_gt (poll_res pfds) 0)) by lia.
    rewrite Hev, Z.eqb_refl, bind_ret.
    destruct (Z.eqb_spec mEventFd 0); [lia|].
    destruct (Z.ltb_spec mEventFd 0); [lia|].
    rewrite Z.eqb_refl. unfold sendRequest, WriteFully.
    rewrite !bind_assoc, bind_call. reflexivity.
Qed.

(** A failed poll.  When [poll] fails, or returns with events on
    neither descriptor that are exactly POLLIN (a hang-up along with the data,
    say), the receiver reports DATA_LOADER_UNRECOVERABLE once, sends nothing,
    reads nothing, and leaves. *)
Theorem receiver_poll_failure (fuel : nat) (inout mEventFd : Z) (mode : MetadataMode)
    (st : Receiver) (h : History) :
  rs_stop st = false ->
  stop_requested env h = false ->
  let pfds := sys_poll env h inout mEventFd in
  poll_res pfds < 0
  \/ (0 < poll_res pfds /\ poll_revents_event pfds <> POLLIN
      /\ poll_revents_fd pfds <> POLLIN) ->
  exists res,
    bind (receiver_loop host env (S fuel) inout mEventFd mode st) (receiver_exit env) h
    = (Ret tt, [EvPoll inout mEventFd pfds;
                EvReportStatus DATA_LOADER_UNRECOVERABLE;
                EvWriteBlocks (rs_instructions st) res;
                EvResetOutFd]).
Proof.
  intros Hstop Hreq pfds Hpoll.
  set (e1 := [EvPoll inout mEventFd pfds; EvReportStatus DATA_LOADER_UNRECOVERABLE]).
  exists (ifs_writeBlocks env (h ++ e1) (rs_instructions st)).
  change [EvPoll inout mEventFd pfds; EvReportStatus DATA_LOADER_UNRECOVERABLE;
          EvWriteBlocks (rs_instructions st)
            (ifs_writeBlocks env (h ++ e1) (rs_instructions st)); EvResetOutFd]
    with (e1 ++ [EvWriteBlocks (rs_instructions st)
                   (ifs_writeBlocks env (h ++ e1) (rs_instructions st)); EvResetOutFd]).
  eapply bind_run; [|apply receiver_exit_run].
  cbn [receiver_loop]. rewrite bind_peek, Hstop, Hreq. cbn [orb].
  unfold waitForDataOrSignal. rewrite bind_assoc, bind_call. fold pfds.
  destruct Hpoll as [Hneg|(Hpos & Hev & Hfd)].
  - rewrite (proj2 (Z.leb_le (poll_res pfds) 0)) by lia. rewrite bind_ret.
    destruct (Z.eqb_spec (poll_res pfds) 0); [lia|].
    destruct (Z.ltb_spec (poll_res pfds) 0); [|lia]. reflexivity.
  - rewrite (proj2 (Z.leb_gt (poll_res pfds) 0)) by lia.
    destruct (Z.eqb_spec (poll_revents_event pfds) POLLIN); [contradiction|].
    destruct (Z.eqb_spec (poll_revents_fd pfds) POLLIN); [contradiction|].
    rewrite bind_ret. reflexivity.
Qed.

(** A chunk that cannot be read.  When poll reports data on the
    channel and [readChunk] fails (the channel is closed or the length
    prefix is not positive), the receiver reports DATA_LOADER_UNRECOVERABLE
    once, sends nothing, and leaves after the final [writeBlocks] and the
    reset of [mOutFd]; it does not set [mStopReceiving]. *)
Theorem receiver_read_failure (fuel : nat) (inout mEventFd : Z) (mode : MetadataMode)
    (st : Receiver) (h : History) (e_poll e_chunk : list Event) (data : list byte) :
  rs_stop st = false ->
  stop_requested env h = false ->
  0 < inout -> inout <> mEventFd ->
  waitForDataOrSignal env inout mEventFd h = (Ret inout, e_poll) ->
  readChunk host env inout (rs_data st) (h ++ e_poll) = (Ret (false, data), e_chunk) ->
  exists res,
    bind (receiver_loop host env (S fuel) inout mEventFd mode st) (receiver_exit env) h
    = (Ret tt, (e_poll ++ e_chunk ++ [EvReportStatus DATA_LOADER_UNRECOVERABLE])
                 ++ [EvWriteBlocks (rs_instructions st) res; EvResetOutFd])
    /\ statuses (e_poll ++ e_chunk ++ [EvReportStatus DATA_LOADER_UNRECOVERABLE])
       = [DATA_LOADER_UNRECOVERABLE]
    /\ requests (e_poll ++ e_chunk ++ [EvReportStatus DATA_LOADER_UNRECOVERABLE]) = [].
Proof.
  intros Hstop Hreq Hpos Hne Epoll Echunk.
  destruct (receiver_loop_read_failure host env fuel inout mEventFd mode st h e_poll e_chunk
              data Hstop Hreq Hpos Hne Epoll Echunk) as [Erun _].
  eexists. split; [|split].
  - eapply bind_run; [exact Erun|]. rewrite receiver_exit_run. reflexivity.
  - assert (Hp : statuses e_poll = [] /\ requests e_poll = []).
    { unfold waitForDataOrSignal in Epoll. rewrite bind_call in Epoll.
      injection Epoll as _ <-.
      destruct (_ <=? 0); [now split|]. destruct (_ =? POLLIN); [now split|].
      destruct (_ =? POLLIN); now split. }
    assert (Hc : statuses e_chunk = [] /\ requests e_chunk = []).
    { destruct (readChunk_events _ _ _ _ _ _ _ Echunk) as [->|[(a & ->)|(a & b & c & ->)]];
        now split. }
    rewrite !statuses_app, (proj1 Hp), (proj1 Hc). reflexivity.
  - assert (Hp : requests e_poll = []).
    { unfold waitForDataOrSignal in Epoll. rewrite bind_call in Epoll.
      injection Epoll as _ <-.
      destruct (_ <=? 0); [reflexivity|]. destruct (_ =? POLLIN); [reflexivity|].
      destruct (_ =? POLLIN); reflexivity. }
    assert (Hc : requests e_chunk = []).
    { destruct (readChunk_events _ _ _ _ _ _ _ Echunk) as [->|[(a & ->)|(a & b & c & ->)]];
        reflexivity. }
    rewrite !requests_app, Hp, Hc. reflexivity.
Qed.

Lemma receiver_walk_fault inout mode fuel :
  forall st remainingData h evs,
    receiver_walk host env fuel inout mode st remainingData h = (Fault, evs) ->
    exists n header rest,
      readHeader host (drop n remainingData) = (header, rest)
      /\ (10 <= length (drop n remainingData))%nat
      /\ 0 <= bh_fileIdx header
      /\ Z.of_nat (length rest) < bh_blockSize header.
Proof.
  induction fuel as [|fuel IH]; intros st remainingData h evs E.
  - destruct remainingData; discriminate.
  - destruct remainingData as [|b data']; [discriminate|].
    rewrite receiver_walk_step in E by discriminate.
    destruct (Nat.lt_ge_cases (length (b :: data')) 10) as [Hs|Hl].
    { rewrite readHeader_short in E by exact Hs. discriminate. }
    destruct (readHeader host (b :: data')) as [header rest] eqn:Eh.
    pose proof (readHeader_consumes _ _ _ _ Eh Hl) as Erest.
    destruct (is_sentinel header).
    { apply bind_inv in E.
      destruct E as [(a & e1 & e2 & Es & Ek & ->) | [[Es _] | [Es _]]]; discriminate. }
    destruct (is_invalid header) eqn:Hinv; [discriminate|].
    assert (Hidx : 0 <= bh_fileIdx header).
    { unfold is_invalid in Hinv. destruct (Z.ltb_spec (bh_fileIdx header) 0); [|assumption].
      discriminate. }
    cbv zeta in E.
    assert (Hshift : forall k n' header' rest',
              readHeader host (drop n' (drop k rest)) = (header', rest') ->
              (10 <= length (drop n' (drop k rest)))%nat ->
              0 <= bh_fileIdx header' ->
              Z.of_nat (length rest') < bh_blockSize header' ->
              exists n header rest,
                readHeader host (drop n (b :: data')) = (header, rest)
                /\ (10 <= length (drop n (b :: data')))%nat
                /\ 0 <= bh_fileIdx header
                /\ Z.of_nat (length rest) < bh_blockSize header).
    { intros k n' header' rest' Eh' Hl' Hi' Ho'. exists (10 + k + n')%nat, header', rest'.
      rewrite Erest, !drop_drop in Eh', Hl'.
      replace (10 + k + n')%nat with (10 + (k + n'))%nat by lia. now repeat split. }
    destruct (negb (incfs_isValidFileId env (convertFileIndexToFileId mode (bh_fileIdx header)))).
    { apply IH in E. destruct E as (n' & header' & rest' & Eh' & Hl' & Hi' & Ho').
      apply (Hshift 0%nat n' header' rest'); rewrite ?drop_0; assumption. }
    apply bind_inv in E.
    destruct E as [(fd & e1 & e2 & Efd & Ek & ->) | [[Efd _] | [Efd _]]].
    + destruct (fd <? 0); [discriminate|].
      destruct (Z.ltb_spec (Z.of_nat (length rest)) (bh_blockSize header)) as [Hover|_].
      * exists 0%nat, header, rest. rewrite drop_0. now repeat split.
      * apply IH in Ek. destruct Ek as (n' & header' & rest' & Eh' & Hl' & Hi' & Ho').
        now apply (Hshift (Z.to_nat (bh_blockSize header)) n' header' rest').
    + destruct (_ <? 0); [|discriminate]. unfold openForSpecialOps, call in Efd. discriminate.
    + destruct (_ <? 0); [|discriminate]. unfold openForSpecialOps, call in Efd. discriminate.
Qed.

(** The walk over a chunk needs no more turns than the chunk has bytes:
    each turn of the inner loop of the receiver takes the ten bytes of a
    header from the chunk or leaves the loop.  So an iteration over a chunk
    either comes to its end, or has stopped at a header that is accepted
    and announces more payload than the chunk still holds, where the
    [subspan] past the end is undefined in the code. *)
Theorem receiver_chunk_ends (inout : Z) (mode : MetadataMode) (st : Receiver)
    (data : list byte) (h : History) :
  let run := receiver_chunk host env inout mode st data h in
  fst run <> OutOfFuel
  /\ ((exists st', fst run = Ret st')
      \/ (fst run = Fault
          /\ exists n header rest,
               readHeader host (drop n data) = (header, rest)
               /\ (10 <= length (drop n data))%nat
               /\ 0 <= bh_fileIdx header
               /\ Z.of_nat (length rest) < bh_blockSize header)).
Proof.
  cbv zeta. unfold receiver_chunk.
  pose proof (receiver_walk_ends host env inout mode (length data) st data h (le_n _)) as Hw.
  pose proof (receiver_walk_fault inout mode (length data) st data h) as Hf.
  unfold bind at 1 3 5.
  destruct (receiver_walk host env (length data) inout mode st data h) as [[st'| |] e1];
    cbn [fst] in *; [|contradiction|].
  - unfold writeInstructions, writeBlocks.
    destruct (bind _ _ _) as [r e2] eqn:E. cbn [fst].
    rewrite bind_assoc, bind_call in E. inversion E; subst.
    split; [discriminate|]. left. eauto.
  - split; [discriminate|]. right. split; [reflexivity|]. now apply (Hf e1).
Qed.

End ReceiverLeaves.

Lemma receiver_stop_signal_witness :
  let env := poll_env stop_signalled in
  let exit_request :=
    RequestCommand_image LittleEndian (sendRequest_command LittleEndian EXIT (-1) (-1)) in
  exists written res,
    bind (receiver_loop LittleEndian env 5 3 50 STREAMING Receiver_init) (receiver_exit env) []
    = (Ret tt, [EvPoll 3 50 stop_signalled;
                EvWriteFully 3 exit_request written;
                EvWriteBlocks [] res;
                EvResetOutFd]).
Proof.
  intros env exit_request.
  destruct (receiver_stop_signal LittleEndian env 4 3 50 STREAMING Receiver_init [])
    as [_ Hsignal]; [reflexivity|lia|].
  apply Hsignal; [reflexivity|simpl; lia|reflexivity].
Defined.

Lemma receiver_poll_failure_witness :
  let env := poll_env hung_up in
  exists res,
    bind (receiver_loop LittleEndian env 5 3 50 STREAMING Receiver_init) (receiver_exit env) []
    = (Ret tt, [EvPoll 3 50 hung_up;
                EvReportStatus DATA_LOADER_UNRECOVERABLE;
                EvWriteBlocks [] res;
                EvResetOutFd]).
Proof.
  intros env.
  apply (receiver_poll_failure LittleEndian env 4 3 50 STREAMING Receiver_init []);
    [reflexivity|reflexivity|].
  right. simpl. unfold POLLIN. repeat split; lia.
Defined.

Lemma receiver_read_failure_witness :
  let env := script_env (fun _ => -1) [] [] [] in
  exists res,
    bind (receiver_loop LittleEndian env 5 3 50 STREAMING Receiver_init) (receiver_exit env) []
    = (Ret tt, ([EvPoll 3 50 data_ready] ++ [EvReadFully 3 4 None]
                  ++ [EvReportStatus DATA_LOADER_UNRECOVERABLE])
                 ++ [EvWriteBlocks [] res; EvResetOutFd])
    /\ statuses ([EvPoll 3 50 data_ready] ++ [EvReadFully 3 4 None]
                   ++ [EvReportStatus DATA_LOADER_UNRECOVERABLE])
       = [DATA_LOADER_UNRECOVERABLE]
    /\ requests ([EvPoll 3 50 data_ready] ++ [EvReadFully 3 4 None]
                   ++ [EvReportStatus DATA_LOADER_UNRECOVERABLE]) = [].
Proof.
  intros env.
  apply (receiver_read_failure LittleEndian env 4 3 50 STREAMING Receiver_init []
           [EvPoll 3 50 data_ready] [EvReadFully 3 4 None] []);
    try reflexivity; lia.
Defined.

Lemma receiver_chunk_ends_witness :
  let env := script_env (fun _ => -1) [] [] [] in
  let run := receiver_chunk LittleEndian env 3 STREAMING Receiver_init overrun_chunk [] in
  fst run = Fault
  /\ fst run <> OutOfFuel
  /\ ((exists st', fst run = Ret st')
      \/ (fst run = Fault
          /\ exists n header rest,
               readHeader LittleEndian (drop n overrun_chunk) = (header, rest)
               /\ (10 <= length (drop n overrun_chunk))%nat
               /\ 0 <= bh_fileIdx header
               /\ Z.of_nat (length rest) < bh_blockSize header)).
Proof.
  intros env run. split; [vm_compute; reflexivity|].
  apply (receiver_chunk_ends LittleEndian env 3 STREAMING Receiver_init overrun_chunk []).
Defined.

(** *** The size of the verity tree *)

Lemma ceil_levels_nonneg b B0 :
  0 < b -> 0 <= B0 ->
  (forall i, 0 <= ceil_iter b B0 i) /\ (forall k, 0 <= sum_levels b B0 k).
Proof.
  intros Hb HB.
  assert (Hi : forall i, 0 <= ceil_iter b B0 i).
  { induction i as [|i IH]; [exact HB|].
    cbn [ceil_iter]. rewrite ceil_div_pos by exact Hb.
    apply Z.div_pos; lia. }
  split; [exact Hi|].
  induction k as [|k IH]; [simpl; lia|].
  cbn [sum_levels]. specialize (Hi (S k)). lia.
Qed.

(** For a block size of 96 bytes to [INT32_MAX] and a file size from 0
    to [INT64_MAX], [verityTreeSizeForFile] returns a whole number of
    blocks: none for a file of at most one block, at least one for a
    longer file, and always less than the size of the file. *)
Theorem verityTreeSizeForFile_bounds (INCFS_DATA_FILE_BLOCK_SIZE fileSize : Z) :
  96 <= INCFS_DATA_FILE_BLOCK_SIZE <= INT32_MAX ->
  0 <= fileSize <= INT64_MAX ->
  exists blocks,
    verityTreeSizeForFile INCFS_DATA_FILE_BLOCK_SIZE fileSize
      = Some (blocks * INCFS_DATA_FILE_BLOCK_SIZE)
    /\ 0 <= blocks
    /\ (fileSize <= INCFS_DATA_FILE_BLOCK_SIZE -> blocks = 0)
    /\ (INCFS_DATA_FILE_BLOCK_SIZE < fileSize -> 1 <= blocks)
    /\ (0 < fileSize -> blocks * INCFS_DATA_FILE_BLOCK_SIZE < fileSize).
Proof.
  intros HBS HS. pose proof HBS as HBS'. unfold INT64_MAX in HS. unfold INT32_MAX in HBS'.
  set (BS := INCFS_DATA_FILE_BLOCK_SIZE) in *.
  pose proof (hash_per_block_range BS HBS) as Hb. unfold INT32_MAX in Hb.
  unfold verityTreeSizeForFile.
  destruct (Z.eq_dec fileSize 0) as [->|Hpos].
  - exists 0.
    assert (Eq : int64 (0 - 1) ÷ BS = 0).
    { rewrite int64_id by lia. change (0 - 1) with (- (1)).
      rewrite Z.quot_opp_l, Z.quot_small by lia. reflexivity. }
    rewrite Eq. change (int64 (1 + int64 0)) with 1.
    rewrite verity_levels_done by lia.
    split; [reflexivity|]. repeat split; lia.
  - assert (Ediv : (fileSize - 1) / BS < 2 ^ 57).
    { apply Z.div_lt_upper_bound; lia. }
    assert (Hq : 0 <= (fileSize - 1) / BS) by (apply Z.div_pos; lia).
    set (h := 1 + (fileSize - 1) / BS).
    assert (Ecount : int64 (1 + int64 (int64 (fileSize - 1) ÷ BS)) = h).
    { rewrite (int64_id (fileSize - 1)) by lia.
      rewrite Z.quot_div_nonneg by lia.
      rewrite (int64_id ((fileSize - 1) / BS)) by lia.
      apply int64_id. unfold h. lia. }
    rewrite Ecount.
    destruct (verity_levels_spec BS HBS verity_fuel h 0)
      as (k & Erun & Hlevels & Hlast & Hbound).
    + unfold h. lia.
    + unfold verity_fuel. change (2 ^ Z.of_nat 64) with (2 ^ 64). unfold h. lia.
    + lia.
    + unfold h. lia.
    + set (b := hash_per_block BS) in *.
      set (blocks := sum_levels b h k) in *.
      assert (Hmul : blocks * BS <= (fileSize - 1) / BS * BS)
        by (apply Z.mul_le_mono_nonneg_r; unfold h in Hbound; lia).
      pose proof (Z.mul_div_le (fileSize - 1) BS ltac:(lia)) as Hle.
      assert (Hnn : 0 <= blocks * BS) by (apply Z.mul_nonneg_nonneg; lia).
      exists blocks. rewrite Erun, Z.add_0_l, int64_id by lia.
      split; [reflexivity|]. split; [lia|]. split; [|split; [|lia]].
      * intros Hsmall.
        assert ((fileSize - 1) / BS = 0) by (apply Z.div_small; lia).
        unfold h in Hbound. lia.
      * intros Hbig.
        assert (Hh : 2 <= h).
        { unfold h. assert (1 <= (fileSize - 1) / BS); [|lia].
          apply Z.div_le_lower_bound; lia. }
        destruct k as [|k]; [cbn [ceil_iter] in Hlast; lia|].
        unfold blocks. rewrite sum_levels_shift.
        rewrite ceil_div_pos by lia.
        pose proof (ceil_step_halves b h ltac:(lia) Hh) as [Hone _].
        destruct (ceil_levels_nonneg b ((h + b - 1) / b) ltac:(lia) ltac:(lia)) as [_ Hsum].
        specialize (Hsum k). lia.
Qed.

Lemma verityTreeSizeForFile_bounds_witness :
  verityTreeSizeForFile 4096 (4096 * 129) = Some (3 * 4096)
  /\ exists blocks,
       verityTreeSizeForFile 4096 (4096 * 129) = Some (blocks * 4096)
       /\ 0 <= blocks
       /\ (4096 * 129 <= 4096 -> blocks = 0)
       /\ (4096 < 4096 * 129 -> 1 <= blocks)
       /\ (0 < 4096 * 129 -> blocks * 4096 < 4096 * 129).
Proof.
  split; [vm_compute; reflexivity|].
  apply (verityTreeSizeForFile_bounds 4096 (4096 * 129)); unfold INT32_MAX, INT64_MAX; lia.
Defined.

(** *** The start of streaming *)

(** [initStreaming] returns true exactly when it has started the
    receiver: it has an event descriptor, it has read the four bytes OKAY
    from the channel, it has duplicated the channel (whether or not [dup]
    succeeds) and then started the thread.  When it returns false it has
    neither duplicated the channel nor started the receiver. *)
Theorem initStreaming_handshake (env : Env) (inout : Z) (mode : MetadataMode)
    (h : History) (r : Outcome bool) (evs : list Event) :
  initStreaming env inout mode h = (r, evs) ->
  exists ok,
    r = Ret ok
    /\ (ok = true ->
        exists mEventFd mOutFd,
          0 <= mEventFd
          /\ evs = [EvEventfd mEventFd; EvReadFully inout 4 (Some OKAY);
                    EvDup inout mOutFd; EvStartReceiver inout mode])
    /\ (ok = false ->
        Forall (fun e => match e with
                         | EvEventfd _ | EvReadFully _ _ _ => True
                         | _ => False
                         end) evs).
Proof.
  unfold initStreaming. intros E. apply bind_inv in E.
  destruct E as [(mEventFd & e1 & e2 & Eev & Ek & ->) | [[Eev ->] | [Eev ->]]];
    apply call_inv in Eev; destruct Eev as [Ea Ee]; try discriminate.
  injection Ea as ->. subst e1.
  destruct (Z.ltb_spec (sys_eventfd env h) 0) as [Hneg|Hpos].
  { apply ret_inv in Ek. destruct Ek as [-> ->]. exists false.
    split; [reflexivity|]. split; [discriminate|]. intros _. repeat constructor. }
  apply bind_inv in Ek.
  destruct Ek as [(a & e3 & e4 & Er & Ek & ->) | [[Er ->] | [Er ->]]];
    apply ReadFully_inv in Er; try discriminate;
    destruct Er as (a' & Ea & -> & Hlen); try discriminate.
  injection Ea as <-.
  destruct a as [okay_buf|].
  2:{ apply ret_inv in Ek. destruct Ek as [-> ->]. exists false.
      split; [reflexivity|]. split; [discriminate|]. intros _. repeat constructor. }
  destruct (decide (okay_buf = OKAY)) as [->|Hne].
  - rewrite bool_decide_true in Ek by reflexivity. cbn [negb] in Ek.
    unfold dup in Ek. rewrite bind_call in Ek. injection Ek as <- <-.
    exists true. split; [reflexivity|]. split; [|discriminate].
    intros _. eexists _, _. split; [exact Hpos|]. reflexivity.
  - rewrite bool_decide_false in Ek by exact Hne. cbn [negb] in Ek.
    apply ret_inv in Ek. destruct Ek as [-> ->]. exists false.
    split; [reflexivity|]. split; [discriminate|]. intros _. repeat constructor.
Qed.

Lemma initStreaming_handshake_witness :
  let env := script_env (fun _ => -1) [] [Some OKAY] [] in
  let run := initStreaming env 3 STREAMING [] in
  fst run = Ret true
  /\ exists ok,
       fst run = Ret ok
       /\ (ok = true ->
           exists mEventFd mOutFd,
             0 <= mEventFd
             /\ snd run = [EvEventfd mEventFd; EvReadFully 3 4 (Some OKAY);
                           EvDup 3 mOutFd; EvStartReceiver 3 STREAMING])
       /\ (ok = false ->
           Forall (fun e => match e with
                            | EvEventfd _ | EvReadFully _ _ _ => True
                            | _ => False
                            end) (snd run)).
Proof.
  intros env run. split; [vm_compute; reflexivity|].
  apply (initStreaming_handshake env 3 STREAMING [] (fst run) (snd run)).
  vm_compute. reflexivity.
Defined.

(** *** The inputs of a file *)

Ltac forall_inputs :=
  repeat (first [apply List.Forall_nil | apply List.Forall_cons]);
  cbn [in_kind in_size in_streaming in_fd];
  first [ assumption
        | intros _; assumption
        | intros _; reflexivity
        | let H := fresh in intros H; vm_compute in H; discriminate H ].

Section Inputs.
Variable INCFS_DATA_FILE_BLOCK_SIZE : Z.
Variable host : Endian.
Variable env : Env.

Let BS := INCFS_DATA_FILE_BLOCK_SIZE.

Lemma verityTreeSize_inv size h r evs :
  verityTreeSize BS size h = (r, evs) ->
  evs = [] /\ (forall treeSize, r = Ret treeSize ->
                 verityTreeSizeForFile BS size = Some treeSize).
Proof.
  unfold verityTreeSize. destruct (verityTreeSizeForFile BS size); intros E;
    inversion E; subst; (split; [reflexivity|]); intros t Et; now inversion Et.
Qed.

Lemma openLocalFile_inputs size filePath h inputs evs :
  openLocalFile BS host env size filePath h = (Ret inputs, evs) ->
  exists hash data,
    inputs = hash ++ data
    /\ (hash = []
        \/ exists idsigFd treeSize,
             hash = [ {| in_fd := idsigFd; in_size := treeSize;
                         in_kind := INCFS_BLOCK_KIND_HASH; in_waitOnEof := false;
                         in_streaming := false; in_mode := STDIN |} ]
             /\ fd_ok idsigFd = true
             /\ verityTreeSizeForFile BS size = Some treeSize)
    /\ (data = []
        \/ exists fileFd,
             data = [ {| in_fd := fileFd; in_size := size;
                         in_kind := INCFS_BLOCK_KIND_DATA; in_waitOnEof := false;
                         in_streaming := false; in_mode := STDIN |} ]
             /\ fd_ok fileFd = true).
Proof.
  unfold openLocalFile. intros E. apply bind_inv in E.
  destruct E as [(idsigFd & e1 & e2 & Eget & Ek & ->) | [[_ ?] | [_ ?]]];
    try discriminate.
  clear Eget. apply bind_inv in Ek.
  destruct Ek as [(checked & e3 & e4 & Ec & Ek & ->) | [[_ ?] | [_ ?]]];
    try discriminate.
  assert (Hchecked : checked = None
                     \/ checked = Some []
                     \/ exists treeSize,
                          checked = Some [ {| in_fd := idsigFd; in_size := treeSize;
                                              in_kind := INCFS_BLOCK_KIND_HASH;
                                              in_waitOnEof := false;
                                              in_streaming := false; in_mode := STDIN |} ]
                          /\ fd_ok idsigFd = true
                          /\ verityTreeSizeForFile BS size = Some treeSize).
  { destruct (fd_ok idsigFd) eqn:Hok.
    2:{ apply ret_inv in Ec. destruct Ec as [Ec _]. injection Ec as ->. now right; left. }
    apply bind_inv in Ec.
    destruct Ec as [(treeSize & ea & eb & Et & Ec & ->) | [[_ ?] | [_ ?]]];
      try discriminate.
    apply verityTreeSize_inv in Et. destruct Et as [_ Ht]. specialize (Ht _ eq_refl).
    apply bind_inv in Ec.
    destruct Ec as [(actual & ec & ed & _ & Ec & ->) | [[_ ?] | [_ ?]]];
      try discriminate.
    destruct (negb _); apply ret_inv in Ec; destruct Ec as [Ec _]; injection Ec as ->.
    - now left.
    - right; right. exists treeSize. now repeat split. }
  destruct Hchecked as [->|[->|(treeSize & -> & Hok & Htree)]].
  - apply ret_inv in Ek. destruct Ek as [Ek _]. injection Ek as ->.
    exists [], []. split; [reflexivity|]. split; now left.
  - apply bind_inv in Ek.
    destruct Ek as [(fileFd & e5 & e6 & _ & Ek & ->) | [[_ ?] | [_ ?]]];
      try discriminate.
    destruct (fd_ok fileFd) eqn:Hfile; apply ret_inv in Ek; destruct Ek as [Ek _];
      injection Ek as ->.
    + exists [], [ {| in_fd := fileFd; in_size := size;
                      in_kind := INCFS_BLOCK_KIND_DATA; in_waitOnEof := false;
                      in_streaming := false; in_mode := STDIN |} ].
      split; [reflexivity|]. split; [now left|]. right. now exists fileFd.
    + exists [], []. split; [reflexivity|]. split; now left.
  - apply bind_inv in Ek.
    destruct Ek as [(fileFd & e5 & e6 & _ & Ek & ->) | [[_ ?] | [_ ?]]];
      try discriminate.
    destruct (fd_ok fileFd) eqn:Hfile; apply ret_inv in Ek; destruct Ek as [Ek _];
      injection Ek as ->.
    + exists [ {| in_fd := idsigFd; in_size := treeSize;
                    in_kind := INCFS_BLOCK_KIND_HASH; in_waitOnEof := false;
                    in_streaming := false; in_mode := STDIN |} ],
             [ {| in_fd := fileFd; in_size := size;
                  in_kind := INCFS_BLOCK_KIND_DATA; in_waitOnEof := false;
                  in_streaming := false; in_mode := STDIN |} ].
      split; [reflexivity|]. split; [right; now exists idsigFd, treeSize|].
      right. now exists fileFd.
    + exists [ {| in_fd := idsigFd; in_size := treeSize;
                    in_kind := INCFS_BLOCK_KIND_HASH; in_waitOnEof := false;
                    in_streaming := false; in_mode := STDIN |} ], [].
      split; [reflexivity|].
      split; [right; now exists idsigFd, treeSize|now left].
Qed.

Lemma openInputs_opened size metadata h inputs evs :
  openInputs BS host env size metadata h = (Ret inputs, evs) -> opened evs = [].
Proof.
  unfold openInputs. destruct (read_int8 metadata) as [first metadata'].
  destruct (_ =? MetadataMode_value LOCAL_FILE).
  - unfold openLocalFile. intros E. apply bind_inv in E.
    destruct E as [(idsigFd & e1 & e2 & Eget & Ek & ->) | [[_ ?] | [_ ?]]];
      try discriminate.
    apply call_inv in Eget. destruct Eget as [_ ->].
    rewrite opened_app. cbn [opened map concat app].
    apply bind_inv in Ek.
    destruct Ek as [(checked & e3 & e4 & Ec & Ek & ->) | [[_ ?] | [_ ?]]];
      try discriminate.
    rewrite opened_app.
    assert (He3 : opened e3 = []).
    { destruct (fd_ok idsigFd).
      2:{ apply ret_inv in Ec. now destruct Ec as [_ ->]. }
      apply bind_inv in Ec.
      destruct Ec as [(treeSize & ea & eb & Et & Ec & ->) | [[_ ?] | [_ ?]]];
        try discriminate.
      apply verityTreeSize_inv in Et. destruct Et as [-> _]. cbn [app].
      apply bind_inv in Ec.
      destruct Ec as [(actual & ec & ed & Es & Ec & ->) | [[_ ?] | [_ ?]]];
        try discriminate.
      apply skipIdSigHeaders_reads, only_reads_quiet in Es. destruct Es as [Es _].
      rewrite opened_app, Es.
      destruct (negb _); apply ret_inv in Ec; now destruct Ec as [_ ->]. }
    rewrite He3. cbn [app].
    destruct checked as [result|]; [|apply ret_inv in Ek; now destruct Ek as [_ ->]].
    apply bind_inv in Ek.
    destruct Ek as [(fileFd & e5 & e6 & Eget & Ek & ->) | [[_ ?] | [_ ?]]];
      try discriminate.
    apply call_inv in Eget. destruct Eget as [_ ->].
    destruct (fd_ok fileFd); apply ret_inv in Ek; now destruct Ek as [_ ->].
  - intros E. apply bind_inv in E.
    destruct E as [(fd & e1 & e2 & Eget & Ek & ->) | [[_ ?] | [_ ?]]];
      try discriminate.
    apply call_inv in Eget. destruct Eget as [_ ->].
    destruct (negb _); [apply ret_inv in Ek; now destruct Ek as [_ ->]|].
    destruct (_ =? MetadataMode_value STDIN);
      [apply ret_inv in Ek; now destruct Ek as [_ ->]|].
    destruct (_ =? MetadataMode_value DATA_ONLY_STREAMING).
    { apply bind_inv in Ek.
      destruct Ek as [(t & ea & eb & Et & Ek & ->) | [[_ ?] | [_ ?]]];
        try discriminate.
      apply verityTreeSize_inv in Et. destruct Et as [-> _].
      apply ret_inv in Ek. now destruct Ek as [_ ->]. }
    destruct (_ =? MetadataMode_value STREAMING);
      apply ret_inv in Ek; now destruct Ek as [_ ->].
Qed.

(** What [openInputs] returns for a file.  Every input has an open
    descriptor.  There are at most two inputs, and two only for a local
    file with its signature: then the verity tree comes first and the data
    second.  An input for a verity tree has the size
    [verityTreeSizeForFile] gives for the file.  A streaming input is the
    only input.  Opening the inputs moves no payload and opens no file of
    IncFS. *)
Theorem openInputs_inputs (size : Z) (metadata : list byte) (h : History)
    (inputs : list InputDesc) (evs : list Event) :
  openInputs BS host env size metadata h = (Ret inputs, evs) ->
  Forall (fun input => fd_ok (in_fd input) = true) inputs
  /\ (inputs = []
      \/ (exists input, inputs = [input])
      \/ (exists hash data,
            inputs = [hash; data]
            /\ in_kind hash = INCFS_BLOCK_KIND_HASH
            /\ in_kind data = INCFS_BLOCK_KIND_DATA /\ in_size data = size))
  /\ Forall (fun input => in_kind input = INCFS_BLOCK_KIND_HASH ->
                          verityTreeSizeForFile BS size = Some (in_size input)) inputs
  /\ Forall (fun input => in_streaming input = true -> inputs = [input]) inputs
  /\ no_transfer evs
  /\ opened evs = [].
Proof.
  intros E.
  assert (Hquiet : no_transfer evs /\ opened evs = []).
  { split; [eapply openInputs_no_transfer; exact E|eapply openInputs_opened; exact E]. }
  cut (Forall (fun input => fd_ok (in_fd input) = true) inputs
       /\ (inputs = []
           \/ (exists input, inputs = [input])
           \/ (exists hash data,
                 inputs = [hash; data]
                 /\ in_kind hash = INCFS_BLOCK_KIND_HASH
                 /\ in_kind data = INCFS_BLOCK_KIND_DATA /\ in_size data = size))
       /\ Forall (fun input => in_kind input = INCFS_BLOCK_KIND_HASH ->
                               verityTreeSizeForFile BS size = Some (in_size input)) inputs
       /\ Forall (fun input => in_streaming input = true -> inputs = [input]) inputs).
  { intros (H1 & H2 & H3 & H4). destruct Hquiet. now repeat split. }
  clear Hquiet. revert E. unfold openInputs.
  destruct (read_int8 metadata) as [first metadata'].
  destruct (_ =? MetadataMode_value LOCAL_FILE).
  - intros E. apply openLocalFile_inputs in E.
    destruct E as (hash & data & -> & Hhash & Hdata).
    destruct Hhash as [->|(idsigFd & treeSize & -> & Hok & Htree)];
      destruct Hdata as [->|(fileFd & -> & Hfile)]; cbn [app].
    + split; [constructor|]. split; [now left|]. split; constructor.
    + split; [forall_inputs|]. split; [right; left; eauto|]. split; forall_inputs.
    + split; [forall_inputs|]. split; [right; left; eauto|]. split; forall_inputs.
    + split; [forall_inputs|].
      split; [right; right; eexists _, _; now repeat split|]. split; forall_inputs.
  - intros E. apply bind_inv in E.
    destruct E as [(fd & e1 & e2 & _ & Ek & ->) | [[_ ?] | [_ ?]]]; try discriminate.
    destruct (fd_ok fd) eqn:Hok; cbn [negb] in Ek.
    2:{ apply ret_inv in Ek. destruct Ek as [Ek _]. injection Ek as ->.
        split; [constructor|]. split; [now left|]. split; constructor. }
    destruct (_ =? MetadataMode_value STDIN).
    { apply ret_inv in Ek. destruct Ek as [Ek _]. injection Ek as ->.
      split; [forall_inputs|]. split; [right; left; eauto|]. split; forall_inputs. }
    destruct (_ =? MetadataMode_value DATA_ONLY_STREAMING).
    { apply bind_inv in Ek.
      destruct Ek as [(t & ea & eb & Et & Ek & ->) | [[_ ?] | [_ ?]]]; try discriminate.
      apply verityTreeSize_inv in Et. destruct Et as [_ Ht]. specialize (Ht _ eq_refl).
      apply ret_inv in Ek. destruct Ek as [Ek _]. injection Ek as ->.
      split; [forall_inputs|]. split; [right; left; eauto|]. split; forall_inputs. }
    destruct (_ =? MetadataMode_value STREAMING);
      apply ret_inv in Ek; destruct Ek as [Ek _]; injection Ek as ->.
    + split; [forall_inputs|]. split; [right; left; eauto|]. split; forall_inputs.
    + split; [constructor|]. split; [now left|]. split; constructor.
Qed.

(** A local file whose signature can be opened and declares the right
    tree size, but whose data cannot be opened: [openInputs] returns the
    input for the verity tree alone.  The list is not empty, so
    [onPrepareImage] does not give up on the file. *)
Theorem local_file_without_data (size : Z) (path : list byte) (h : History)
    (treeSize : Z) (evs_idsig : list Event) :
  let idsigPath := c_str (path ++ idsig_suffix) in
  let idsigFd := jni_getLocalFile env h idsigPath in
  fd_ok idsigFd = true ->
  verityTreeSizeForFile BS size = Some treeSize ->
  skipIdSigHeaders host env idsigFd (h ++ [EvGetLocalFile idsigPath idsigFd])
    = (Ret treeSize, evs_idsig) ->
  let h' := (h ++ [EvGetLocalFile idsigPath idsigFd]) ++ evs_idsig in
  let fileFd := jni_getLocalFile env h' (c_str path) in
  fd_ok fileFd = false ->
  openInputs BS host env size (byte_of_Z (MetadataMode_value LOCAL_FILE) :: path) h
  = (Ret [ {| in_fd := idsigFd; in_size := treeSize;
              in_kind := INCFS_BLOCK_KIND_HASH; in_waitOnEof := false;
              in_streaming := false; in_mode := STDIN |} ],
     EvGetLocalFile idsigPath idsigFd :: evs_idsig ++ [EvGetLocalFile (c_str path) fileFd]).
Proof.
  intros idsigPath idsigFd Hfd Htree Eskip h' fileFd Hfile.
  unfold openInputs. cbn [read_int8].
  change (default (MetadataMode_value STDIN)
            (Some (int8 (byte_to_Z (byte_of_Z (MetadataMode_value LOCAL_FILE))))))
    with (MetadataMode_value LOCAL_FILE).
  rewrite Z.eqb_refl. unfold openLocalFile.
  change (EvGetLocalFile idsigPath idsigFd
            :: evs_idsig ++ [EvGetLocalFile (c_str path) fileFd])
    with ([EvGetLocalFile idsigPath idsigFd]
            ++ evs_idsig ++ [EvGetLocalFile (c_str path) fileFd]).
  eapply bind_run; [reflexivity|].
  fold idsigPath. fold idsigFd. rewrite Hfd.
  eapply bind_run.
  { unfold verityTreeSize. fold BS. rewrite Htree, bind_ret.
    rewrite <- (app_nil_r evs_idsig). eapply bind_run; [exact Eskip|].
    rewrite Z.eqb_refl. reflexivity. }
  cbv iota beta. rewrite <- (app_nil_r [EvGetLocalFile (c_str path) fileFd]).
  eapply bind_run; [reflexivity|].
  fold h'. fold fileFd. rewrite Hfile. reflexivity.
Qed.

End Inputs.

Lemma openInputs_inputs_witness :
  let env := script_env (fun _ => 5) [] idsig_4096 [] in
  let run := openInputs 4096 LittleEndian env 8192 [x01; x61] [] in
  let inputs :=
    [ {| in_fd := 5; in_size := 4096; in_kind := INCFS_BLOCK_KIND_HASH;
         in_waitOnEof := false; in_streaming := false; in_mode := STDIN |};
      {| in_fd := 5; in_size := 8192; in_kind := INCFS_BLOCK_KIND_DATA;
         in_waitOnEof := false; in_streaming := false; in_mode := STDIN |} ] in
  fst run = Ret inputs
  /\ Forall (fun input => fd_ok (in_fd input) = true) inputs
  /\ (inputs = []
      \/ (exists input, inputs = [input])
      \/ (exists hash data,
            inputs = [hash; data]
            /\ in_kind hash = INCFS_BLOCK_KIND_HASH
            /\ in_kind data = INCFS_BLOCK_KIND_DATA /\ in_size data = 8192))
  /\ Forall (fun input => in_kind input = INCFS_BLOCK_KIND_HASH ->
                          verityTreeSizeForFile 4096 8192 = Some (in_size input)) inputs
  /\ Forall (fun input => in_streaming input = true -> inputs = [input]) inputs
  /\ no_transfer (snd run)
  /\ opened (snd run) = [].
Proof.
  intros env run inputs. split; [vm_compute; reflexivity|].
  apply (openInputs_inputs 4096 LittleEndian env 8192 [x01; x61] [] inputs (snd run)).
  vm_compute. reflexivity.
Defined.

Lemma local_file_without_data_witness :
  let env := script_env only_idsig [] idsig_4096 [] in
  let idsigPath := c_str ([x61] ++ idsig_suffix) in
  openInputs 4096 LittleEndian env 8192 (byte_of_Z (MetadataMode_value LOCAL_FILE) :: [x61]) []
  = (Ret [ {| in_fd := 5; in_size := 4096;
              in_kind := INCFS_BLOCK_KIND_HASH; in_waitOnEof := false;
              in_streaming := false; in_mode := STDIN |} ],
     EvGetLocalFile idsigPath 5
       :: [EvReadFully 5 4 (Some [x01; x00; x00; x00]);
           EvReadFully 5 4 (Some [x00; x00; x00; x00]);
           EvReadFully 5 4 (Some [x00; x00; x00; x00]);
           EvReadFully 5 4 (Some [x00; x10; x00; x00])]
       ++ [EvGetLocalFile (c_str [x61]) (-1)]).
Proof.
  intros env idsigPath.
  apply (local_file_without_data 4096 LittleEndian env 8192 [x61] [] 4096
           [EvReadFully 5 4 (Some [x01; x00; x00; x00]);
            EvReadFully 5 4 (Some [x00; x00; x00; x00]);
            EvReadFully 5 4 (Some [x00; x00; x00; x00]);
            EvReadFully 5 4 (Some [x00; x10; x00; x00])]);
    reflexivity.
Defined.

(** *** Reading from a stream *)

Lemma consumed_app h1 h2 : consumed (h1 ++ h2) = (consumed h1 + consumed h2)%nat.
Proof.
  induction h1 as [|e h1 IH]; [reflexivity|].
  cbn [app consumed fold_right]. fold (consumed (h1 ++ h2)). fold (consumed h1).
  rewrite IH. destruct e; try reflexivity. destruct r; lia.
Qed.

Lemma ReadFully_stream stream fd h bs tail :
  drop (consumed h) stream = bs ++ tail ->
  exists evs,
    ReadFully (stream_env stream) fd (Z.of_nat (length bs)) h = (Ret (Some bs), evs)
    /\ drop (consumed (h ++ evs)) stream = tail
    /\ consumed evs = length bs
    /\ only_reads evs.
Proof.
  intros Hs. unfold ReadFully.
  destruct (Z.eqb_spec (Z.of_nat (length bs)) 0) as [E0|Hne].
  - assert (bs = []) as -> by (apply nil_length_inv; lia).
    exists []. split; [reflexivity|]. rewrite app_nil_r.
    split; [exact Hs|]. split; [reflexivity|constructor].
  - exists [EvReadFully fd (Z.of_nat (length bs)) (Some bs)].
    assert (Etake : take (Z.to_nat (Z.of_nat (length bs))) (drop (consumed h) stream) = bs).
    { rewrite Hs, Nat2Z.id. apply take_app_length. }
    split.
    + unfold call, stream_env. cbv zeta. cbn [base_ReadFully].
      rewrite Etake, Z.eqb_refl. reflexivity.
    + split; [|split; [cbn [consumed fold_right]; lia|repeat constructor]].
      rewrite consumed_app. cbn [consumed fold_right].
      rewrite Nat.add_0_r, <- drop_drop, Hs. apply drop_app_length.
Qed.

Lemma le32_value host z :
  in_int32 z ->
  int32 (le32toh host (load host (store LittleEndian 4 z))) = z.
Proof.
  unfold in_int32, INT32_MIN, INT32_MAX. intros Hz.
  unfold store. rewrite le_bytes_4, le32toh_load, !byte_to_of_Z.
  replace (z mod 256 + 256 * ((z / 256) mod 256) + 65536 * ((z / 65536) mod 256)
           + 16777216 * ((z / 16777216) mod 256)) with (z mod 4294967296)
    by (Z.to_euclidean_division_equations; lia).
  unfold int32, to_signed. change (2 ^ 32) with 4294967296.
  change (2 ^ (32 - 1)) with 2147483648.
  Z.to_euclidean_division_equations. lia.
Qed.

Lemma be32_chunk_value host z :
  0 <= z <= INT32_MAX ->
  int32 (be32toh host (load host (store BigEndian 4 z))) = z.
Proof.
  intros Hz. unfold store. rewrite le_bytes_4. cbn [rev app].
  rewrite be32toh_load. now apply be32_value.
Qed.

Lemma store_length host n z : length (store host n z) = n.
Proof.
  assert (H : forall m v, length (le_bytes m v) = m).
  { induction m as [|m IH]; intros v; [reflexivity|]. cbn [le_bytes length]. now rewrite IH. }
  destruct host; cbn [store]; [|rewrite length_rev]; apply H.
Qed.

Section Stream.
Variable host : Endian.
Variable stream : list byte.

Lemma readLEInt32_stream fd h z tail :
  in_int32 z ->
  drop (consumed h) stream = store LittleEndian 4 z ++ tail ->
  exists evs,
    readLEInt32 host (stream_env stream) fd h = (Ret z, evs)
    /\ drop (consumed (h ++ evs)) stream = tail
    /\ consumed evs = 4%nat
    /\ only_reads evs.
Proof.
  intros Hz Hs.
  destruct (ReadFully_stream stream fd h _ _ Hs) as (evs & Er & Hs' & Hc & Hreads).
  rewrite store_length in Er, Hc. change (Z.of_nat 4) with 4 in Er.
  exists evs. split; [|now repeat split].
  unfold readLEInt32. rewrite <- (app_nil_r evs). eapply bind_run; [exact Er|].
  cbv iota beta. rewrite le32_value by exact Hz. reflexivity.
Qed.

Lemma readBytes_stream fd h bs tail :
  Z.of_nat (length bs) <= INT32_MAX ->
  drop (consumed h) stream = store LittleEndian 4 (Z.of_nat (length bs)) ++ bs ++ tail ->
  exists evs,
    readBytes host (stream_env stream) fd h = (Ret bs, evs)
    /\ drop (consumed (h ++ evs)) stream = tail
    /\ consumed evs = (4 + length bs)%nat
    /\ only_reads evs.
Proof.
  intros Hlen Hs.
  assert (Hz : in_int32 (Z.of_nat (length bs)))
    by (unfold in_int32, INT32_MIN, INT32_MAX in *; lia).
  destruct (readLEInt32_stream fd h _ _ Hz Hs) as (e1 & Er1 & Hs1 & Hc1 & Hreads1).
  destruct (ReadFully_stream stream fd (h ++ e1) _ _ Hs1)
    as (e2 & Er2 & Hs2 & Hc2 & Hreads2).
  exists (e1 ++ e2). split; [|split; [|split]].
  - unfold readBytes. eapply bind_run; [exact Er1|].
    destruct (Z.ltb_spec (Z.of_nat (length bs)) 0); [lia|].
    rewrite <- (app_nil_r e2). eapply bind_run; [exact Er2|]. reflexivity.
  - rewrite app_assoc. exact Hs2.
  - rewrite consumed_app. lia.
  - apply Forall_app. now split.
Qed.

(** [skipIdSigHeaders] on a descriptor whose next bytes are the
    preamble of a signature file: it returns the size of the verity tree
    that the preamble declares, on a host of either byte order, and it has
    taken the bytes of the preamble and none after them. *)
Theorem skipIdSigHeaders_tree_size (fd : Z) (h : History) (version : Z)
    (hashingInfo signingInfo : list byte) (treeSize : Z) (tail : list byte) :
  in_int32 version -> in_int32 treeSize ->
  Z.of_nat (length hashingInfo) <= INT32_MAX ->
  Z.of_nat (length signingInfo) <= INT32_MAX ->
  drop (consumed h) stream
    = idsig_preamble version hashingInfo signingInfo treeSize ++ tail ->
  exists evs,
    skipIdSigHeaders host (stream_env stream) fd h = (Ret treeSize, evs)
    /\ drop (consumed (h ++ evs)) stream = tail
    /\ consumed evs = length (idsig_preamble version hashingInfo signingInfo treeSize)
    /\ only_reads evs.
Proof.
  intros Hv Ht Hh Hsg Hs. unfold idsig_preamble in Hs. rewrite <- !app_assoc in Hs.
  destruct (readLEInt32_stream fd h _ _ Hv Hs) as (e1 & Er1 & Hs1 & Hc1 & Hreads1).
  destruct (readBytes_stream fd (h ++ e1) _ _ Hh Hs1) as (e2 & Er2 & Hs2 & Hc2 & Hreads2).
  destruct (readBytes_stream fd ((h ++ e1) ++ e2) _ _ Hsg Hs2)
    as (e3 & Er3 & Hs3 & Hc3 & Hreads3).
  destruct (readLEInt32_stream fd (((h ++ e1) ++ e2) ++ e3) _ _ Ht Hs3)
    as (e4 & Er4 & Hs4 & Hc4 & Hreads4).
  exists (e1 ++ e2 ++ e3 ++ e4).
  split; [|split; [|split]].
  - unfold skipIdSigHeaders.
    eapply bind_run; [exact Er1|]. eapply bind_run; [exact Er2|].
    eapply bind_run; [exact Er3|]. exact Er4.
  - rewrite !app_assoc. exact Hs4.
  - rewrite !consumed_app, Hc1, Hc2, Hc3, Hc4. unfold idsig_preamble.
    rewrite !length_app, !store_length. lia.
  - repeat (apply Forall_app; split); assumption.
Qed.

End Stream.

Lemma skipIdSigHeaders_tree_size_witness :
  let stream := idsig_preamble 2 [x01; x02] [x03] 4096 ++ [x2a] in
  fst (skipIdSigHeaders BigEndian (stream_env stream) 5 []) = Ret 4096
  /\ exists evs,
       skipIdSigHeaders BigEndian (stream_env stream) 5 [] = (Ret 4096, evs)
       /\ drop (consumed ([] ++ evs)) stream = [x2a]
       /\ consumed evs = length (idsig_preamble 2 [x01; x02] [x03] 4096)
       /\ only_reads evs.
Proof.
  intros stream. split; [vm_compute; reflexivity|].
  apply (skipIdSigHeaders_tree_size BigEndian stream 5 [] 2 [x01; x02] [x03] 4096 [x2a]);
    try (unfold in_int32, INT32_MIN, INT32_MAX; simpl; lia).
  reflexivity.
Defined.

(** *** A session of the receiver *)

Lemma only_reads_silent evs :
  only_reads evs -> requests evs = [] /\ statuses evs = [].
Proof.
  induction 1 as [|e evs He _ [IH1 IH2]]; [now split|].
  change (e :: evs) with ([e] ++ evs). rewrite requests_app, statuses_app, IH1, IH2.
  destruct e; try contradiction; now split.
Qed.

Lemma writeInstructions_run env instructions h :
  writeInstructions env instructions h
  = (Ret [], [EvWriteBlocks instructions (ifs_writeBlocks env h instructions)]).
Proof. unfold writeInstructions, writeBlocks. rewrite bind_call. reflexivity. Qed.

Lemma receiver_from_walk_run host env walk_fuel fuel inout mEventFd mode st remainingData
    h st' e1 r e2 :
  receiver_walk host env walk_fuel inout mode st remainingData h = (Ret st', e1) ->
  let written := EvWriteBlocks (rs_instructions st')
                   (ifs_writeBlocks env (h ++ e1) (rs_instructions st')) in
  bind (receiver_loop host env fuel inout mEventFd mode (set_instructions [] st'))
       (receiver_exit env) ((h ++ e1) ++ [written]) = (r, e2) ->
  receiver_from_walk host env walk_fuel fuel inout mEventFd mode st remainingData h
  = (r, e1 ++ [written] ++ e2).
Proof.
  intros Ewalk written Erest. unfold receiver_from_walk.
  eapply bind_run; [exact Ewalk|].
  eapply bind_run; [apply writeInstructions_run|]. exact Erest.
Qed.

Lemma sentinel_walk host env fuel inout mode st h :
  exists written,
    receiver_walk host env (S fuel) inout mode st sentinel_chunk h
    = (Ret (set_stop st),
       [EvWriteFully inout
          (RequestCommand_image host (sendRequest_command host EXIT (-1) (-1))) written]).
Proof.
  eexists. rewrite receiver_walk_step by discriminate.
  unfold sentinel_chunk. rewrite readHeader_bytes.
  change (is_sentinel _) with true. cbv iota beta.
  unfold sendRequest, WriteFully. rewrite !bind_assoc, bind_call. reflexivity.
Qed.

Lemma opens_new_consumed mode writeFds evs : opens_new mode writeFds evs -> consumed evs = 0%nat.
Proof.
  induction 1 as [|e evs (k & fd & -> & _) _ IH]; [reflexivity|exact IH].
Qed.

Section Session.
Variable host : Endian.
Variable env : Env.
Variable mode : MetadataMode.
Variable stream : list byte.
Variable inout mEventFd : Z.

(** The channel delivers the bytes of [stream], in order. *)
Hypothesis channel_delivers :
  forall h count,
    base_ReadFully env h inout count
    = Some (take (Z.to_nat count) (drop (consumed h) stream)).

(** [poll] finds data on the channel and no signal on the event descriptor. *)
Hypothesis data_on_channel :
  forall h, 0 < poll_res (sys_poll env h inout mEventFd)
            /\ poll_revents_event (sys_poll env h inout mEventFd) <> POLLIN
            /\ poll_revents_fd (sys_poll env h inout mEventFd) = POLLIN.

(** No stop is asked for. *)
Hypothesis no_stop_requested : forall h, stop_requested env h = false.

(** IncFS opens every file. *)
Hypothesis opens_succeed : forall h id, 0 <= ifs_openForSpecialOps env h id.

Lemma ReadFully_channel h bs tail :
  drop (consumed h) stream = bs ++ tail ->
  exists evs,
    ReadFully env inout (Z.of_nat (length bs)) h = (Ret (Some bs), evs)
    /\ drop (consumed (h ++ evs)) stream = tail
    /\ consumed evs = length bs
    /\ only_reads evs.
Proof.
  intros Hs. unfold ReadFully.
  destruct (Z.eqb_spec (Z.of_nat (length bs)) 0) as [E0|Hne].
  - assert (bs = []) as -> by (apply nil_length_inv; lia).
    exists []. split; [reflexivity|]. rewrite app_nil_r.
    split; [exact Hs|]. split; [reflexivity|constructor].
  - exists [EvReadFully inout (Z.of_nat (length bs)) (Some bs)].
    assert (Etake : take (Z.to_nat (Z.of_nat (length bs))) (drop (consumed h) stream) = bs).
    { rewrite Hs, Nat2Z.id. apply take_app_length. }
    split.
    + unfold call. rewrite channel_delivers, Etake, Z.eqb_refl. reflexivity.
    + split; [|split; [cbn [consumed fold_right]; lia|repeat constructor]].
      rewrite consumed_app. cbn [consumed fold_right].
      rewrite Nat.add_0_r, <- drop_drop, Hs. apply drop_app_length.
Qed.

Lemma waitForDataOrSignal_data h :
  waitForDataOrSignal env inout mEventFd h
  = (Ret inout, [EvPoll inout mEventFd (sys_poll env h inout mEventFd)]).
Proof.
  unfold waitForDataOrSignal. rewrite bind_call.
  destruct (data_on_channel h) as (Hres & Hev & Hfd).
  destruct (Z.leb_spec (poll_res (sys_poll env h inout mEventFd)) 0); [lia|].
  destruct (Z.eqb_spec (poll_revents_event (sys_poll env h inout mEventFd)) POLLIN);
    [contradiction|].
  rewrite Hfd, Z.eqb_refl. reflexivity.
Qed.

Lemma readChunk_stream data h payload tail :
  0 < Z.of_nat (length payload) <= INT32_MAX ->
  drop (consumed h) stream = chunk_of payload ++ tail ->
  exists evs,
    readChunk host env inout data h = (Ret (true, payload), evs)
    /\ drop (consumed (h ++ evs)) stream = tail
    /\ consumed evs = length (chunk_of payload)
    /\ only_reads evs.
Proof.
  intros Hlen Hs. unfold chunk_of in Hs. rewrite <- app_assoc in Hs.
  destruct (ReadFully_channel h _ _ Hs) as (e1 & Er1 & Hs1 & Hc1 & Hreads1).
  destruct (ReadFully_channel (h ++ e1) _ _ Hs1)
    as (e2 & Er2 & Hs2 & Hc2 & Hreads2).
  rewrite store_length in Er1. change (Z.of_nat 4) with 4 in Er1.
  exists (e1 ++ e2). split; [|split; [|split]].
  - unfold readChunk. eapply bind_run; [exact Er1|]. cbv iota beta.
    rewrite be32_chunk_value by lia.
    destruct (Z.leb_spec (Z.of_nat (length payload)) 0); [lia|].
    assert (Eresize : Z.of_nat (length (resize data (Z.of_nat (length payload))))
                      = Z.of_nat (length payload)).
    { unfold resize. rewrite length_app, length_take, length_replicate. lia. }
    rewrite Eresize. rewrite <- (app_nil_r e2). eapply bind_run; [exact Er2|]. reflexivity.
  - rewrite app_assoc. exact Hs2.
  - rewrite consumed_app, Hc1, Hc2. unfold chunk_of. now rewrite length_app.
  - apply Forall_app. now split.
Qed.

(** A whole session.  The channel delivers one chunk of well-formed
    blocks and then a chunk that is the sentinel; [poll] finds data on the
    channel each time, no stop is asked for, and IncFS knows the files of
    the blocks and opens every file.  Then the receiver takes the two chunks
    from the channel and nothing after them, hands the blocks to IncFS in
    their order with their page indices, kinds, compressions and payloads,
    answers the sentinel with one EXIT, reports no status, and ends with the
    reset of [mOutFd]. *)
Theorem receiver_session (fuel : nat) (blocks : list Block)
    (tail : list byte) (h : History) :
  0 < inout -> inout <> mEventFd ->
  Forall valid_block blocks -> blocks <> [] ->
  Forall (fun b => incfs_isValidFileId env (convertFileIndexToFileId mode (bk_fileIdx b))
                   = true) blocks ->
  Z.of_nat (length (concat (frame <$> blocks))) <= INT32_MAX ->
  drop (consumed h) stream
    = chunk_of (concat (frame <$> blocks)) ++ chunk_of sentinel_chunk ++ tail ->
  exists evs writeFds,
    receiver host env (S (S fuel)) inout mEventFd mode h = (Ret tt, evs)
    /\ submitted evs = instruction_of writeFds <$> blocks
    /\ Forall (fun b => 0 <= fileFd b) (submitted evs)
    /\ requests evs
       = [(inout, RequestCommand_image host (sendRequest_command host EXIT (-1) (-1)))]
    /\ statuses evs = []
    /\ last evs = Some EvResetOutFd
    /\ drop (consumed (h ++ evs)) stream = tail.
Proof.
  intros Hin Hne Hvalid Hnil Hids Hlen Hs.
  set (chunk := concat (frame <$> blocks)) in *.
  assert (Hpos : 0 < Z.of_nat (length chunk)).
  { destruct blocks as [|b blocks']; [contradiction|].
    unfold chunk. rewrite fmap_cons. cbn [concat]. rewrite length_app.
    destruct (frame_cons b) as (b0 & tl & ->). cbn [length]. lia. }
  (* the first turn: poll, the chunk, the walk *)
  set (e_poll1 := [EvPoll inout mEventFd (sys_poll env h inout mEventFd)]).
  assert (Hs0 : drop (consumed (h ++ e_poll1)) stream
                = chunk_of chunk ++ chunk_of sentinel_chunk ++ tail).
  { rewrite consumed_app. cbn [consumed fold_right e_poll1]. now rewrite Nat.add_0_r. }
  destruct (readChunk_stream (rs_data Receiver_init) (h ++ e_poll1) chunk _
              ltac:(lia) Hs0) as (e_chunk1 & Echunk1 & Hs1 & _ & Hreads1).
  set (h1 := (h ++ e_poll1) ++ e_chunk1) in *.
  pose proof opens_succeed as Hopens.
  assert (Hcache : writeFds_open (rs_writeFds (set_data chunk Receiver_init))).
  { intros k fd Hk. cbn [rs_writeFds set_data Receiver_init] in Hk.
    rewrite lookup_empty in Hk. discriminate. }
  destruct (receiver_walk_blocks host env inout mode Hopens blocks (length chunk)
              (set_data chunk Receiver_init) h1 (frames_length blocks) Hvalid Hids Hcache)
    as (st1 & e_walk & Ewalk & Hinstr & Hstop1 & Hopen1 & _ & Hnew & _ & Hsome).
  fold chunk in Ewalk. cbn [rs_instructions set_data Receiver_init app] in Hinstr.
  cbn [rs_stop set_data Receiver_init] in Hstop1.
  set (written1 := EvWriteBlocks (rs_instructions st1)
                     (ifs_writeBlocks env (h1 ++ e_walk) (rs_instructions st1))).
  set (h2 := (h1 ++ e_walk) ++ [written1]).
  assert (Hs2 : drop (consumed h2) stream = chunk_of sentinel_chunk ++ tail).
  { unfold h2. rewrite !consumed_app, (opens_new_consumed _ _ _ Hnew).
    cbn [consumed fold_right written1]. rewrite !Nat.add_0_r. exact Hs1. }
  (* the second turn: poll, the sentinel, the end *)
  set (e_poll2 := [EvPoll inout mEventFd (sys_poll env h2 inout mEventFd)]).
  assert (Hs2' : drop (consumed (h2 ++ e_poll2)) stream = chunk_of sentinel_chunk ++ tail).
  { rewrite consumed_app. cbn [consumed fold_right e_poll2]. now rewrite Nat.add_0_r. }
  destruct (readChunk_stream (rs_data (set_instructions [] st1)) (h2 ++ e_poll2)
              sentinel_chunk _ ltac:(cbn; unfold INT32_MAX; lia) Hs2')
    as (e_chunk2 & Echunk2 & Hs3 & _ & Hreads2).
  set (st2 := set_data sentinel_chunk (set_instructions [] st1)).
  set (h3 := (h2 ++ e_poll2) ++ e_chunk2) in *.
  destruct (sentinel_walk host env 9 inout mode st2 h3) as (w & Esent).
  pose proof (receiver_from_walk_stop host env 10 fuel inout mEventFd mode st2
                sentinel_chunk h3 _ Esent) as Eend.
  cbn [rs_instructions st2 set_data set_instructions] in Eend.
  set (e_end := [EvWriteFully inout
                   (RequestCommand_image host (sendRequest_command host EXIT (-1) (-1))) w]
                  ++ _) in Eend.
  pose proof (receiver_loop_chunk host env fuel inout mEventFd mode (set_instructions [] st1)
                h2 e_poll2 e_chunk2 sentinel_chunk (Ret tt) e_end
                Hstop1 (no_stop_requested h2) Hin Hne (waitForDataOrSignal_data h2)
                Echunk2 Eend) as Eturn2.
  pose proof (receiver_from_walk_run host env (length chunk) (S fuel) inout mEventFd mode
                (set_data chunk Receiver_init) chunk h1 st1 e_walk (Ret tt) _
                Ewalk Eturn2) as Efrom.
  pose proof (receiver_loop_chunk host env (S fuel) inout mEventFd mode Receiver_init
                h e_poll1 e_chunk1 chunk (Ret tt) _
                eq_refl (no_stop_requested h) Hin Hne (waitForDataOrSignal_data h)
                Echunk1 Efrom) as Eturn1.
  eexists _, (rs_writeFds st1). split; [unfold receiver; exact Eturn1|].
  destruct (only_reads_quiet _ Hreads1) as [_ Hsub1].
  destruct (only_reads_quiet _ Hreads2) as [_ Hsub2].
  destruct (only_reads_silent _ Hreads1) as [Hreq1 Hstat1].
  destruct (only_reads_silent _ Hreads2) as [Hreq2 Hstat2].
  destruct (opens_new_opened _ _ _ Hnew) as (Hsubw & Hreqw & Hstatw & _).
  fold written1.
  split; [|split; [|split; [|split; [|split]]]].
  - rewrite !submitted_app, Hsub1, Hsub2, Hsubw. unfold e_poll1, e_poll2, written1, e_end.
    cbn [submitted map concat app]. rewrite !app_nil_r. exact Hinstr.
  - rewrite !submitted_app, Hsub1, Hsub2, Hsubw. unfold e_poll1, e_poll2, written1, e_end.
    cbn [submitted map concat app]. rewrite !app_nil_r, Hinstr.
    apply Forall_fmap. eapply Forall_impl; [exact Hsome|].
    intros b [fd Hfd]. unfold compose, instruction_of. cbn [fileFd]. rewrite Hfd.
    cbn. now apply (Hopen1 _ _ Hfd).
  - rewrite !requests_app, Hreq1, Hreq2, Hreqw. reflexivity.
  - rewrite !statuses_app, Hstat1, Hstat2, Hstatw. reflexivity.
  - unfold e_end. rewrite !app_assoc.
    match goal with |- last (?l ++ [?a; ?b; EvResetOutFd]) = _ =>
      change (l ++ [a; b; EvResetOutFd]) with (l ++ [a; b] ++ [EvResetOutFd]);
      rewrite !app_assoc; apply last_snoc end.
  - rewrite !consumed_app.
    unfold h3, h2, h1 in Hs3. rewrite !consumed_app in Hs3.
    rewrite (opens_new_consumed _ _ _ Hnew) in *.
    unfold e_end, e_poll1, e_poll2, written1 in *. cbn [consumed fold_right] in *.
    rewrite !Nat.add_0_r in *. rewrite <- Hs3. f_equal. lia.
Qed.

End Session.

Lemma receiver_session_witness :
  let stream := chunk_of (concat (frame <$> three_blocks)) ++ chunk_of sentinel_chunk
                  ++ [x2a] in
  let run := receiver LittleEndian (stream_env stream) 2 3 50 STREAMING [] in
  pageIndex <$> submitted (snd run) = [0; 7; 1]
  /\ exists evs writeFds,
       receiver LittleEndian (stream_env stream) 2 3 50 STREAMING [] = (Ret tt, evs)
       /\ submitted evs = instruction_of writeFds <$> three_blocks
       /\ Forall (fun b => 0 <= fileFd b) (submitted evs)
       /\ requests evs
          = [(3, RequestCommand_image LittleEndian
                   (sendRequest_command LittleEndian EXIT (-1) (-1)))]
       /\ statuses evs = []
       /\ last evs = Some EvResetOutFd
       /\ drop (consumed ([] ++ evs)) stream = [x2a].
Proof.
  intros stream run. split; [vm_compute; reflexivity|].
  apply (receiver_session LittleEndian (stream_env stream) STREAMING stream 3 50).
  - intros h count. reflexivity.
  - intros h. simpl. unfold POLLIN. lia.
  - intros h. reflexivity.
  - intros h id. simpl. lia.
  - lia.
  - lia.
  - repeat constructor; simpl; unfold INT16_MAX, INT32_MAX; lia.
  - discriminate.
  - repeat constructor.
  - simpl. unfold INT32_MAX. lia.
  - reflexivity.
Defined.

(** *** The files of IncFS that the driver opens *)

Section DriverOpens.
Variable INCFS_DATA_FILE_BLOCK_SIZE : Z.
Variable host : Endian.
Variable env : Env.

Let BS := INCFS_DATA_FILE_BLOCK_SIZE.

Lemma opened_cons (e : Event) (evs : list Event) :
  opened (e :: evs) = opened [e] ++ opened evs.
Proof. exact (opened_app [e] evs). Qed.

Lemma flashToIncFs_opened incfsFd kind eof blockIdx buffer blocks h r evs :
  flashToIncFs BS env incfsFd kind eof blockIdx buffer blocks h = (r, evs) ->
  opened evs = [].
Proof.
  unfold flashToIncFs.
  destruct (push_full_blocks _ _ _ _ _ _ _ _) as [[[blockIdx1 consumed1] blocks1]|];
    [|intros E; now inversion E].
  destruct (negb _ && eof).
  - destruct (next_blockIdx blockIdx1); [|intros E; now inversion E].
    rewrite bind_ret. unfold writeBlocks. rewrite bind_call.
    intros E. injection E as _ <-. destruct (_ <? 0); reflexivity.
  - rewrite bind_ret. unfold writeBlocks. rewrite bind_call.
    intros E. injection E as _ <-. destruct (_ <? 0); reflexivity.
Qed.

Lemma copyToIncFs_loop_opened incfsFd kind incomingFd waitOnEof fuel :
  forall remaining totalSize blockIdx buffer blocks h r evs,
    copyToIncFs_loop BS env fuel incfsFd kind incomingFd waitOnEof
      remaining totalSize blockIdx buffer blocks h = (r, evs) ->
    opened evs = [].
Proof.
  induction fuel as [|fuel IH]; intros remaining totalSize blockIdx buffer blocks h r evs E.
  - simpl in E. destruct (0 <? remaining); now inversion E.
  - rewrite copyToIncFs_loop_step in E.
    destruct (0 <? remaining); [|now inversion E]. cbv zeta in E.
    destruct (_ <? BS).
    + apply bind_inv in E.
      destruct E as [(a & e1 & e2 & Eflash & Ek & ->) | [[Eflash ->] | [Eflash ->]]];
        apply flashToIncFs_opened in Eflash; try exact Eflash.
      rewrite opened_app, Eflash. destruct a as [ok [[blockIdx1 buffer1] blocks1]].
      destruct ok; cbn [negb] in Ek; [now apply IH in Ek|].
      apply ret_inv in Ek. now destruct Ek as [_ ->].
    + apply bind_inv in E.
      destruct E as [(a & e1 & e2 & Eread & Ek & ->) | [[Eread ->] | [Eread ->]]];
        apply call_inv in Eread; destruct Eread as [Ea Ee]; try discriminate.
      subst e1. rewrite opened_app. cbn [opened map concat app].
      destruct a as [|bytes]; [apply ret_inv in Ek; now destruct Ek as [_ ->]|].
      cbv zeta in Ek. destruct (_ =? 0); [|now apply IH in Ek].
      destruct waitOnEof; [|apply ret_inv in Ek; now destruct Ek as [_ ->]].
      apply bind_inv in Ek.
      destruct Ek as [(a & e1 & e3 & Eemit & Ek & ->) | [[Eemit ->] | [Eemit ->]]];
        try discriminate.
      unfold emit in Eemit. injection Eemit as <- <-. now apply IH in Ek.
Qed.

Lemma copyToIncFs_opened fuel incfsFd size kind incomingFd waitOnEof buffer blocks h r evs :
  copyToIncFs BS env fuel incfsFd size kind incomingFd waitOnEof buffer blocks h = (r, evs) ->
  opened evs = [].
Proof.
  unfold copyToIncFs. intros E. apply bind_inv in E.
  destruct E as [(a & e1 & e2 & Eloop & Ek & ->) | [[Eloop ->] | [Eloop ->]]];
    apply copyToIncFs_loop_opened in Eloop; try exact Eloop.
  rewrite opened_app, Eloop. destruct a as [ok [[blockIdx1 buffer1] blocks1]].
  destruct ok; cbn [negb] in Ek; [|apply ret_inv in Ek; now destruct Ek as [_ ->]].
  destruct buffer1; [apply ret_inv in Ek; now destruct Ek as [_ ->]|].
  apply bind_inv in Ek.
  destruct Ek as [(a & e3 & e4 & Eflash & Ek & ->) | [[Eflash ->] | [Eflash ->]]];
    apply flashToIncFs_opened in Eflash; try exact Eflash.
  rewrite opened_app, Eflash. destruct a as [ok2 [[blockIdx2 buffer2] blocks2]].
  apply ret_inv in Ek. now destruct Ek as [_ ->].
Qed.

Lemma copy_inputs_opened fuel incfsFd inputs :
  forall streamingFd streamingMode buffer blocks h r evs,
    copy_inputs BS env fuel incfsFd inputs streamingFd streamingMode buffer blocks h
      = (r, evs) ->
    opened evs = [].
Proof.
  induction inputs as [|input inputs IH]; intros sF sM buffer blocks h r evs E.
  - cbn [copy_inputs] in E. apply ret_inv in E. now destruct E as [_ ->].
  - cbn [copy_inputs] in E. apply bind_inv in E.
    assert (Hdup : forall r' e',
              (if in_streaming input && negb (fd_ok sF)
               then newfd <- dup env (in_fd input);; ret (newfd, Some (in_mode input))
               else ret (sF, sM)) h = (r', e') -> opened e' = []).
    { intros r' e' E'. destruct (_ && _).
      - unfold dup in E'. rewrite bind_call in E'. now inversion E'.
      - apply ret_inv in E'. now destruct E' as [_ ->]. }
    destruct E as [([sF1 sM1] & e1 & e2 & Ed & Ek & ->) | [[Ed ->] | [Ed ->]]];
      apply Hdup in Ed; try exact Ed.
    rewrite opened_app, Ed. cbn [app]. apply bind_inv in Ek.
    destruct Ek as [([ok1 [buf1 bl1]] & e3 & e4 & Ecopy & Ek & ->) | [[Ecopy ->] | [Ecopy ->]]];
      apply copyToIncFs_opened in Ecopy; try exact Ecopy.
    rewrite opened_app, Ecopy. cbn [app].
    destruct ok1; cbn [negb] in Ek; [now apply IH in Ek|].
    apply ret_inv in Ek. now destruct Ek as [_ ->].
Qed.

Lemma prepare_files_opened fuel addedFiles :
  forall streamingFd streamingMode buffer blocks h ok a evs,
    prepare_files BS host env fuel addedFiles streamingFd streamingMode buffer blocks h
      = (Ret (ok, a), evs) ->
    opened evs `prefix_of` ((fun file => incfs_FileIdFromMetadata env (file_metadata file))
                              <$> addedFiles)
    /\ (ok = true ->
        opened evs = (fun file => incfs_FileIdFromMetadata env (file_metadata file))
                       <$> addedFiles)
    /\ Forall (fun e => match e with
                        | EvOpenForSpecialOps _ fd => ok = true -> 0 <= fd
                        | _ => True
                        end) evs.
Proof.
  induction addedFiles as [|file addedFiles IH]; intros sF sM buffer blocks h ok a evs E.
  - cbn [prepare_files] in E. apply ret_inv in E. destruct E as [_ ->].
    split; [reflexivity|]. split; [reflexivity|constructor].
  - cbn [prepare_files] in E. apply bind_inv in E.
    destruct E as [(inputs & e1 & e2 & Eopen & Ek & ->) | [[_ ?] | [_ ?]]];
      try discriminate.
    pose proof (openInputs_no_transfer _ _ _ _ _ _ _ _ Eopen) as Hquiet1.
    apply openInputs_opened in Eopen.
    assert (Hfd1 : Forall (fun e => match e with
                                    | EvOpenForSpecialOps _ fd => ok = true -> 0 <= fd
                                    | _ => True
                                    end) e1).
    { clear -Eopen. induction e1 as [|e e1 IH]; [constructor|].
      change (e :: e1) with ([e] ++ e1) in Eopen. rewrite opened_app in Eopen.
      apply app_eq_nil in Eopen. destruct Eopen as [He He1].
      constructor; [|now apply IH]. destruct e; try exact I. discriminate. }
    rewrite opened_app, Eopen, fmap_cons. cbn [app].
    destruct inputs as [|input inputs].
    { apply ret_inv in Ek. destruct Ek as [Ek ->]. injection Ek as Hok _; subst ok.
      split; [apply prefix_nil|]. split; [discriminate|]. now rewrite app_nil_r. }
    apply bind_inv in Ek.
    destruct Ek as [(incfsFd & e3 & e4 & Efd & Ek & ->) | [[_ ?] | [_ ?]]];
      try discriminate.
    apply call_inv in Efd. destruct Efd as [Ea ->]. injection Ea as ->.
    rewrite opened_app. cbn [opened map concat app].
    destruct (Z.ltb_spec (ifs_openForSpecialOps env (h ++ e1)
                            (incfs_FileIdFromMetadata env (file_metadata file))) 0)
      as [Hneg|Hpos].
    { apply ret_inv in Ek. destruct Ek as [Ek ->]. injection Ek as Hok _; subst ok.
      split; [apply prefix_cons, prefix_nil|]. split; [discriminate|].
      apply Forall_app. split; [exact Hfd1|]. repeat constructor. discriminate. }
    apply bind_inv in Ek.
    destruct Ek as [([ok1 [[[sF1 sM1] buf1] bl1]] & e5 & e6 & Ecopy & Ek & ->)
                   | [[_ ?] | [_ ?]]]; try discriminate.
    apply copy_inputs_opened in Ecopy. rewrite opened_app, Ecopy. cbn [app].
    assert (Hfd5 : Forall (fun e => match e with
                                    | EvOpenForSpecialOps _ fd => ok = true -> 0 <= fd
                                    | _ => True
                                    end) e5).
    { clear -Ecopy. induction e5 as [|e e5 IH]; [constructor|].
      change (e :: e5) with ([e] ++ e5) in Ecopy. rewrite opened_app in Ecopy.
      apply app_eq_nil in Ecopy. destruct Ecopy as [He He5].
      constructor; [|now apply IH]. destruct e; try exact I. discriminate. }
    destruct ok1; cbn [negb] in Ek.
    + apply IH in Ek. destruct Ek as (Hpre & Hall & Hfds).
      split; [now apply prefix_cons|]. split; [intros Hok; now rewrite (Hall Hok)|].
      apply Forall_app. split; [exact Hfd1|].
      constructor; [intros _; exact Hpos|]. apply Forall_app. now split.
    + apply ret_inv in Ek. destruct Ek as [Ek ->]. injection Ek as Hok _; subst ok.
      split; [apply prefix_cons, prefix_nil|]. split; [discriminate|].
      apply Forall_app. split; [exact Hfd1|].
      constructor; [discriminate|]. rewrite app_nil_r. exact Hfd5.
Qed.

(** In a run of [onPrepareImage] that returns, the files opened in
    IncFS are those of the files to add, from the first on, in their order
    and each once: all of them when it returns true, and then every one was
    opened with success. *)
Theorem onPrepareImage_opens_each_file (fuel : nat) (mArgs : list byte)
    (addedFiles : list InstallationFile) (h : History) (ok : bool) (evs : list Event) :
  onPrepareImage BS host env fuel mArgs addedFiles h = (Ret ok, evs) ->
  opened evs `prefix_of` ((fun file => incfs_FileIdFromMetadata env (file_metadata file))
                            <$> addedFiles)
  /\ (ok = true ->
      opened evs = (fun file => incfs_FileIdFromMetadata env (file_metadata file))
                     <$> addedFiles
      /\ Forall (fun e => match e with
                          | EvOpenForSpecialOps _ fd => 0 <= fd
                          | _ => True
                          end) evs).
Proof.
  unfold onPrepareImage. intros E. apply bind_inv in E.
  destruct E as [(shell & e0 & e' & Ec & E' & ->) | [[_ ?] | [_ ?]]]; try discriminate.
  apply call_inv in Ec. destruct Ec as [_ ->].
  rewrite opened_app. cbn [opened map concat app].
  destruct (negb shell).
  { apply ret_inv in E'. destruct E' as [E' ->]. injection E' as Hok; subst ok.
    split; [apply prefix_nil|discriminate]. }
  apply bind_inv in E'.
  destruct E' as [([ok1 [[[sF sM] buf] bl]] & e1 & e2 & Ep & Ek & ->) | [[_ ?] | [_ ?]]];
    try discriminate.
  apply prepare_files_opened in Ep. destruct Ep as (Hpre & Hall & Hfds).
  destruct ok1; cbn [negb] in Ek.
  2:{ apply ret_inv in Ek. destruct Ek as [Ek ->]. injection Ek as Hok; subst ok.
      rewrite app_nil_r. split; [exact Hpre|discriminate]. }
  assert (He2 : opened e2 = []
                /\ Forall (fun e => match e with
                                    | EvOpenForSpecialOps _ fd => 0 <= fd
                                    | _ => True
                                    end) e2).
  { destruct (fd_ok sF).
    - destruct sM as [m|]; [|discriminate].
      unfold initStreaming in Ek. rewrite bind_call in Ek. injection Ek as _ <-.
      destruct (_ <? 0); [now repeat constructor|].
      destruct (bind _ _ _) as [r' e4] eqn:E4. cbn [snd]. apply bind_inv in E4.
      destruct E4 as [(a & ea & eb & Er & Ek & ->) | [[Er ->] | [Er ->]]];
        apply ReadFully_reads in Er; pose proof (only_reads_quiet _ Er) as [Ho _].
      + assert (Heb : eb = [] \/ exists fd, eb = [EvDup sF fd; EvStartReceiver sF m]).
        { destruct a as [okay_buf|]; [|apply ret_inv in Ek; destruct Ek as [_ ->]; now left].
          destruct (negb _); [apply ret_inv in Ek; destruct Ek as [_ ->]; now left|].
          unfold dup in Ek. rewrite bind_call in Ek. injection Ek as _ <-. right. eauto. }
        split.
        * rewrite opened_cons, opened_app, Ho. destruct Heb as [->|[fd ->]]; reflexivity.
        * constructor; [exact I|]. apply Forall_app. split.
          -- eapply Forall_impl; [exact Er|]. intros e He. destruct e; try exact I.
             contradiction.
          -- destruct Heb as [->|[fd ->]]; repeat constructor.
      + split; [exact Ho|]. constructor; [exact I|].
        eapply Forall_impl; [exact Er|]. intros e He. destruct e; try exact I. contradiction.
      + split; [exact Ho|]. constructor; [exact I|].
        eapply Forall_impl; [exact Er|]. intros e He. destruct e; try exact I. contradiction.
    - apply ret_inv in Ek. destruct Ek as [_ ->]. split; constructor. }
  destruct He2 as [He2 Hfd2]. rewrite opened_app, He2, app_nil_r.
  split; [exact Hpre|]. intros Hok. split; [now apply Hall|].
  constructor; [exact I|]. apply Forall_app. split; [|exact Hfd2].
  eapply Forall_impl; [exact Hfds|]. intros e He. destruct e; try exact I. now apply He.
Qed.

End DriverOpens.

Lemma onPrepareImage_opens_each_file_witness :
  let env := script_env (fun _ => -1) two_blocks_and_three [] [] in
  let file := {| file_name := [x61]; file_size := 8195; file_metadata := [] |} in
  let empty := {| file_name := [x62]; file_size := 0; file_metadata := [x00] |} in
  let run := onPrepareImage 4096 LittleEndian env 10 [] [file; empty] [] in
  fst run = Ret true
  /\ opened (snd run) = [incfs_FileIdFromMetadata env []; incfs_FileIdFromMetadata env [x00]]
  /\ Forall (fun e => match e with
                      | EvOpenForSpecialOps _ fd => 0 <= fd
                      | _ => True
                      end) (snd run).
Proof.
  intros env file empty run.
  destruct (onPrepareImage_opens_each_file 4096 LittleEndian env 10 [] [file; empty] []
              true (snd run)) as [_ Hall]; [vm_compute; reflexivity|].
  destruct (Hall eq_refl) as [Hopened Hfds].
  split; [vm_compute; reflexivity|]. split; [exact Hopened|exact Hfds].
Defined.

(** *** The receiver at a header that stops it *)








